(** * douyin-nas-asr: the job pipeline, embedded and verified

    A shallow embedding of the server package ([src/server/]): the cache
    index ([json_manager.py]), the retrieval pipeline ([downloader.py]),
    the task variants ([tasks.py]) and the task registry
    ([task_manager.py]), together with the theorems that settle what the
    specification says about them.

    Conventions of the embedding.
    - A Python [str] is the list of its Unicode code points.
    - A parsed JSON document is a value of [json]; a Python [dict] inside
      it is an association list in which the first binding of a key is the
      one that counts.
    - Code that can raise returns [res]; code that touches the disk, the
      index table, the network or the log is a computation in [M], a state
      and exception monad over [World].  State changes made before an
      exception is raised are kept, as in Python.
    - What the process cannot decide (network answers, the HEIF decoder,
      the database being reachable, which paths can be written) is an
      oracle in [Env]; a reading of the clock is an argument.  An [Env]
      describes the surroundings of one call: what holds across two
      calls is stated with two of them.
    - A reading of the clock and the creation time of a job are doubles.
      A finite double is kept as the whole number of units of [2^-1074]
      it amounts to, and the rounding of a difference is written out.
    - Only regular files are tracked on disk; directories are created on
      demand and never stand in the way.
    - [asyncio.gather] is modelled as running the coroutines one after the
      other in list order. *)

From Stdlib Require Import ZArith NArith List Ascii String Bool Lia Sorted.
From stdpp Require Import base option list gmap strings.

#[local] Set Warnings "-register-all".

(* ===================================================================== *)
(** * Python values *)
(* ===================================================================== *)

Module Py.

(** A [str]: its code points. *)
Definition str := list N.

(** An ASCII literal as a [str]. *)
Definition U (s : string) : str := map N_of_ascii (list_ascii_of_string s).

Definition in_range (lo hi c : N) : bool := (lo <=? c)%N && (c <=? hi)%N.

(** [str.isspace] on one code point: the characters [str.strip()] removes. *)
Definition isspace (c : N) : bool :=
  in_range 9 13 c || in_range 28 32 c || (c =? 133)%N || (c =? 160)%N
  || (c =? 5760)%N || in_range 8192 8202 c || (c =? 8232)%N || (c =? 8233)%N
  || (c =? 8239)%N || (c =? 8287)%N || (c =? 12288)%N.

Fixpoint lstrip (P : N -> bool) (s : str) : str :=
  match s with
  | [] => []
  | c :: s' => if P c then lstrip P s' else s
  end.

Definition rstrip (P : N -> bool) (s : str) : str := rev (lstrip P (rev s)).

(** [s.strip()] is [strip isspace s]; [s.strip(".")] is [strip is_dot s]. *)
Definition strip (P : N -> bool) (s : str) : str := rstrip P (lstrip P s).

Definition is_dot (c : N) : bool := (c =? 46)%N.

Fixpoint take_while (P : N -> bool) (s : str) : str :=
  match s with
  | [] => []
  | c :: s' => if P c then c :: take_while P s' else []
  end.

Fixpoint starts_with (p s : str) : bool :=
  match p, s with
  | [], _ => true
  | _ :: _, [] => false
  | a :: p', b :: s' => (a =? b)%N && starts_with p' s'
  end.

Definition str_eqb (a b : str) : bool := bool_decide (a = b).

(** [str.lower].  Exact on every code point whose lower-case form contains
    an ASCII letter (A-Z, U+0130, U+212A) and on Latin-1; other cased
    scripts are left as they are, which changes no comparison against the
    ASCII constants the program compares with. *)
Definition lower_cp (c : N) : list N :=
  if in_range 65 90 c then [(c + 32)%N]
  else if (c =? 304)%N then [105%N; 775%N]
  else if (c =? 8490)%N then [107%N]
  else if (c =? 8491)%N then [229%N]
  else if in_range 192 222 c && negb (c =? 215)%N then [(c + 32)%N]
  else [c].

Definition lower (s : str) : str := flat_map lower_cp s.

(** [s.rfind(".")]: the index of the last dot. *)
Fixpoint rfind_dot (s : str) : option nat :=
  match s with
  | [] => None
  | c :: s' =>
      match rfind_dot s' with
      | Some i => Some (S i)
      | None => if is_dot c then Some 0%nat else None
      end
  end.

(** [s.split(sep)] *)
Fixpoint split_on (sep : N) (s : str) : list str :=
  match s with
  | [] => [[]]
  | c :: s' =>
      if (c =? sep)%N then [] :: split_on sep s'
      else match split_on sep s' with
           | h :: t => (c :: h) :: t
           | [] => [[c]]
           end
  end.

(** [sep.join(l)] *)
Fixpoint join (sep : str) (l : list str) : str :=
  match l with
  | [] => []
  | [x] => x
  | x :: l' => x ++ sep ++ join sep l'
  end.

(** Decimal digits of a natural number, most significant first. *)
Fixpoint digits_fuel (fuel n : nat) (acc : str) : str :=
  match fuel with
  | O => acc
  | S fuel' =>
      let acc' := (48 + N.of_nat (n mod 10))%N :: acc in
      if (n / 10 =? 0)%nat then acc' else digits_fuel fuel' (n / 10) acc'
  end.

Definition str_of_nat (n : nat) : str := digits_fuel (S n) n [].

(** The format specification [02d]: at least two digits, zero padded. *)
Definition format_02d (n : nat) : str :=
  let d := str_of_nat n in
  if (length d <? 2)%nat then 48%N :: d else d.

(** ** JSON documents, as [json.load] and [response.json()] return them *)
Inductive json :=
| JNull
| JBool (b : bool)
| JInt (z : Z)
| JStr (s : str)
| JArr (l : list json)
| JObj (kv : list (str * json)).

(** ** Exceptions

    Every exception the modelled code raises or meets is a subclass of
    [Exception].  One constructor for each [raise] of the program, one for
    each class the interpreter or a library raises on its behalf. *)
Inductive exn :=
| ValueError_parse (text : str)          (* downloader.py _parse_input *)
| ValueError_api (message : json)        (* downloader.py _fetch_aweme_data *)
| ValueError_no_url (name : str)         (* downloader.py _download_with_retry *)
| ConnectionError_all_failed (name : str)(* downloader.py _download_with_retry *)
| ValueError_no_play_addr                (* downloader.py _process_single_video *)
| ValueError_no_images                   (* downloader.py _process_gallery *)
| ValueError_extract_id (cause : exn)    (* json_manager.py save_new_data *)
| ValueError_empty_name                  (* pathlib: with_suffix on an empty name *)
| AttributeError                         (* [.get] on a value that is no dict *)
| TypeError                              (* an operand of the wrong type *)
| ClientError (url : json)               (* aiohttp: the request failed *)
| OSError (path : str)                   (* the file could not be written *)
| SQLAlchemyError                        (* the index statement failed *)
| JSONDecodeError                        (* json.load on a file that is no JSON *)
| UnicodeEncodeError                     (* json.dump on a str with a surrogate *)
| ExternalError (what : str).            (* raised inside a collaborator *)

Inductive res (A : Type) :=
| Ok (a : A)
| Raise (e : exn).
Arguments Ok {A} a.
Arguments Raise {A} e.

(** Sequencing, for [res] and for the state monad below. *)
Class Monad (F : Type -> Type) := {
  ret : forall {A}, A -> F A;
  bind : forall {A B}, F A -> (A -> F B) -> F B;
}.

Notation "'do' x <- m ; k" := (bind m (fun x => k))
  (at level 10, x name, m at level 100, k at level 200).
Notation "'do' ' p <- m ; k" := (bind m (fun x => match x with p => k end))
  (at level 10, p pattern, m at level 100, k at level 200).
Declare Scope monad_scope.
Notation "m ;; k" := (bind m (fun _ => k))
  (at level 100, k at level 200, right associativity) : monad_scope.
#[global] Open Scope monad_scope.

#[global] Instance res_monad : Monad res := {|
  ret _ a := Ok a;
  bind _ _ r k := match r with
                  | Ok a => k a
                  | Raise e => Raise e
                  end;
|}.

(** ** JSON values as Python objects *)

(** [bool(v)] *)
Definition truthy (v : json) : bool :=
  match v with
  | JNull => false
  | JBool b => b
  | JInt z => negb (z =? 0)%Z
  | JStr s => negb (str_eqb s [])
  | JArr l => match l with [] => false | _ => true end
  | JObj kv => match kv with [] => false | _ => true end
  end.

Fixpoint assoc (k : str) (kv : list (str * json)) : option json :=
  match kv with
  | [] => None
  | (k', v) :: kv' => if str_eqb k k' then Some v else assoc k kv'
  end.

(** [o.get(k, default)]; only a dict has the method. *)
Definition get (o : json) (k : str) (default : json) : res json :=
  match o with
  | JObj kv => Ok (match assoc k kv with Some v => v | None => default end)
  | _ => Raise AttributeError
  end.

(** [a or b] on values. *)
Definition or_else (a b : json) : json := if truthy a then a else b.

(** [v == n] for an integer literal [n]: [True == 1] and [False == 0]
    hold in Python. *)
Definition eq_int (v : json) (n : Z) : bool :=
  match v with
  | JInt z => (z =? n)%Z
  | JBool b => ((if b then 1 else 0) =? n)%Z
  | _ => false
  end.

Fixpoint nodup_keys (seen : list str) (kv : list (str * json)) : list str :=
  match kv with
  | [] => []
  | (k, _) :: kv' =>
      if bool_decide (k ∈ seen) then nodup_keys seen kv'
      else k :: nodup_keys (k :: seen) kv'
  end.

Definition str_of_Z (z : Z) : str :=
  match z with
  | Zneg p => 45%N :: str_of_nat (Pos.to_nat p)
  | _ => str_of_nat (Z.to_nat z)
  end.

(** [iter(v)], as [for x in v] and [enumerate(v)] consume it: the items of
    a list, the characters of a str, the keys of a dict. *)
Definition iter (v : json) : res (list json) :=
  match v with
  | JArr l => Ok l
  | JStr s => Ok (map (fun c => JStr [c]) s)
  | JObj kv => Ok (map JStr (nodup_keys [] kv))
  | _ => Raise TypeError
  end.

(** ** UTF-8 *)

(** The encoding of one code point, as [str.encode("utf-8")] and a text
    file opened with [encoding="utf-8"] produce it; a surrogate cannot be
    encoded. *)
Definition utf8_cp (c : N) : option (list N) :=
  if (c <? 128)%N then Some [c]
  else if (c <? 2048)%N then Some [(192 + c / 64)%N; (128 + c mod 64)%N]
  else if (c <? 65536)%N then
    if in_range 55296 57343 c then None
    else Some [(224 + c / 4096)%N; (128 + (c / 64) mod 64)%N;
               (128 + c mod 64)%N]
  else if (c <? 1114112)%N then
    Some [(240 + c / 262144)%N; (128 + (c / 4096) mod 64)%N;
          (128 + (c / 64) mod 64)%N; (128 + c mod 64)%N]
  else None.

Fixpoint utf8_encode (s : str) : option (list N) :=
  match s with
  | [] => Some []
  | c :: s' =>
      match utf8_cp c, utf8_encode s' with
      | Some b, Some bs => Some (b ++ bs)
      | _, _ => None
      end
  end.

(** Whether every str of a document, keys included, can be encoded:
    what [json.dump] with [ensure_ascii=False] needs of it. *)
Fixpoint encodable (v : json) : bool :=
  match v with
  | JStr s => bool_decide (is_Some (utf8_encode s))
  | JArr l => forallb encodable l
  | JObj kv =>
      forallb (fun p => match p with
                        | (k, v') =>
                            bool_decide (is_Some (utf8_encode k))
                            && encodable v'
                        end) kv
  | _ => true
  end.

(** ** Doubles *)

(** Every finite double is a whole number of units of [2^-1074]; a whole
    number of seconds is one. *)
Definition seconds (n : Z) : Z := (n * 2 ^ 1074)%Z.

(** The double [m * 2^e], for [-1074 <= e]. *)
Definition dyadic (m e : Z) : Z := (m * 2 ^ (1074 + e))%Z.

(** [a / 2^s] rounded to the nearest integer, a tie going to the even
    one, for [0 <= a] and [0 <= s]. *)
Definition round_half_even (a s : Z) : Z :=
  let q := (a / 2 ^ s)%Z in
  let twice := (2 * (a mod 2 ^ s))%Z in
  if (twice <? 2 ^ s)%Z then q
  else if (2 ^ s <? twice)%Z then (q + 1)%Z
  else if Z.even q then q else (q + 1)%Z.

(** A number [a] of units, [0 <= a], rounded to 53 significant bits. *)
Definition round_units (a : Z) : Z :=
  let s := Z.max 0 (Z.log2 a - 52) in
  (round_half_even a s * 2 ^ s)%Z.

(** The nearest double to a number [d] of units, the exponent not
    bounded above. *)
Definition fround (d : Z) : Z := (Z.sgn d * round_units (Z.abs d))%Z.

(** The value of an operation on doubles. *)
Inductive double :=
| Finite (units : Z)
| Infinity (negative : bool).

(** Whether a number of units is a finite double. *)
Definition is_double (u : Z) : bool :=
  (fround u =? u)%Z && (Z.abs u <? 2 ^ 2098)%Z.

(** [x - y] on two finite doubles: the exact difference, rounded; from
    [2^1024] on the result overflows. *)
Definition fsub (x y : Z) : double :=
  let r := fround (x - y) in
  if (2 ^ 2098 <=? Z.abs r)%Z then Infinity (r <? 0)%Z else Finite r.

(** [v > n] for a double [v] and an int [n]: Python compares the two
    exactly. *)
Definition double_gt_int (v : double) (n : Z) : bool :=
  match v with
  | Finite u => (seconds n <? u)%Z
  | Infinity negative => negb negative
  end.

End Py.
Import Py.

(* ===================================================================== *)
(** * pathlib *)
(* ===================================================================== *)

Module Pathlib.

(** A pure POSIX path: its root ([""], ["/"] or ["//"]) and its parts. *)
Record Path := mkPath { root : str; parts : list str }.

#[global] Instance Path_eq_dec : EqDecision Path.
Proof. solve_decision. Defined.

#[global] Instance Path_countable : Countable Path.
Proof.
  refine (inj_countable' (fun p => (root p, parts p))
                         (fun rp => mkPath (fst rp) (snd rp)) _).
  intros []; reflexivity.
Defined.

Definition slash : N := 47%N.

Fixpoint leading_slashes (s : str) : nat :=
  match s with
  | c :: s' => if (c =? slash)%N then S (leading_slashes s') else O
  | [] => O
  end.

Definition is_part (p : str) : bool :=
  negb (str_eqb p []) && negb (str_eqb p (U ".")).

(** [Path(s)] *)
Definition of_str (s : str) : Path :=
  mkPath (match leading_slashes s with
          | O => []
          | 2%nat => [slash; slash]
          | _ => [slash]
          end)
         (filter (fun p => is_part p = true) (split_on slash s)).

(** [p / q] for a path [q] *)
Definition join_path (p q : Path) : Path :=
  match root q with
  | [] => mkPath (root p) (parts p ++ parts q)
  | _ => q
  end.

(** [p / s] for a str [s] *)
Definition div (p : Path) (s : str) : Path := join_path p (of_str s).

(** [p.name] *)
Definition name (p : Path) : str := List.last (parts p) [].

(** [p.suffix]: from the last dot of the name, unless that dot is the
    first or the last character. *)
Definition name_suffix (n : str) : str :=
  match rfind_dot n with
  | Some i => if (0 <? i)%nat && (i <? length n - 1)%nat then drop i n else []
  | None => []
  end.

Definition suffix (p : Path) : str := name_suffix (name p).

(** [p.stem] *)
Definition stem (p : Path) : str :=
  let n := name p in
  match rfind_dot n with
  | Some i => if (0 <? i)%nat && (i <? length n - 1)%nat then take i n else n
  | None => n
  end.

(** [p.parent] *)
Definition parent (p : Path) : Path :=
  mkPath (root p) (removelast (parts p)).

(** [p.with_suffix(s)], for a well-formed suffix [s] *)
Definition with_suffix (p : Path) (s : str) : res Path :=
  let n := name p in
  match n with
  | [] => Raise ValueError_empty_name
  | _ =>
      let old := suffix p in
      let n' := match old with
                | [] => n ++ s
                | _ => take (length n - length old) n ++ s
                end in
      Ok (mkPath (root p) (removelast (parts p) ++ [n']))
  end.

(** [str(p)] *)
Definition to_str (p : Path) : str :=
  match root p, parts p with
  | [], [] => U "."
  | r, ps => r ++ join [slash] ps
  end.

End Pathlib.
Import Pathlib.

(* ===================================================================== *)
(** * models.py *)
(* ===================================================================== *)

Module Models.

Inductive MessageCode :=
| MC_DOWNLOAD_PENDING | MC_DOWNLOAD_RUNNING | MC_DOWNLOAD_SUCCESS
| MC_DOWNLOAD_FAILED
| MC_TRANSCRIBE_PENDING | MC_TRANSCRIBE_RUNNING | MC_TRANSCRIBE_SUCCESS
| MC_TRANSCRIBE_EMPTY | MC_TRANSCRIBE_FAILED
| MC_INTERNAL_ERROR.

(** The value of each member of the [str] enum. *)
Definition MessageCode_value (c : MessageCode) : str :=
  match c with
  | MC_DOWNLOAD_PENDING => U "download_pending"
  | MC_DOWNLOAD_RUNNING => U "download_running"
  | MC_DOWNLOAD_SUCCESS => U "download_success"
  | MC_DOWNLOAD_FAILED => U "download_failed"
  | MC_TRANSCRIBE_PENDING => U "transcribe_pending"
  | MC_TRANSCRIBE_RUNNING => U "transcribe_running"
  | MC_TRANSCRIBE_SUCCESS => U "transcribe_success"
  | MC_TRANSCRIBE_EMPTY => U "transcribe_empty"
  | MC_TRANSCRIBE_FAILED => U "transcribe_failed"
  | MC_INTERNAL_ERROR => U "internal_error"
  end.

(** [MESSAGE_TEMPLATES.get(code)]: every code has a template, and none of
    the templates has a replacement field. *)
Definition MESSAGE_TEMPLATES (c : MessageCode) : option str :=
  Some match c with
  | MC_DOWNLOAD_PENDING => U "Task created, waiting to download."
  | MC_DOWNLOAD_RUNNING => U "Downloading video..."
  | MC_DOWNLOAD_SUCCESS => U "Download success."
  | MC_DOWNLOAD_FAILED => U "Download failed or no video found."
  | MC_TRANSCRIBE_PENDING => U "Task created, waiting to transcribe."
  | MC_TRANSCRIBE_RUNNING => U "Transcribing (please wait)..."
  | MC_TRANSCRIBE_SUCCESS => U "Transcription success."
  | MC_TRANSCRIBE_EMPTY => U "Transcription returned empty."
  | MC_TRANSCRIBE_FAILED => U "Transcription failed."
  | MC_INTERNAL_ERROR => U "Internal error occurred."
  end.

Inductive ErrorCode :=
| INTERNAL_ERROR | DOWNLOAD_FAILED | NO_VIDEO_FOUND
| TRANSCRIBE_FAILED | TRANSCRIBE_EMPTY.

Record ErrorInfo := mkErrorInfo {
  code : ErrorCode;
  err_message : str;
  detail : option str;
}.

Inductive TaskStatus := PENDING | PROCESSING | COMPLETED | FAILED.

(** [JobInfo.result] is [Any]: the tasks store a list of path strings or
    a transcript. *)
Inductive JobResult :=
| ResultFiles (files : list str)
| ResultText (text : str).

(** [created_at] is a reading of [time.time()]: a finite double, kept as
    its number of units of [2^-1074]. *)
Record JobInfo := mkJobInfo {
  task_id : str;
  status : TaskStatus;
  video_id : str;
  message_code : option MessageCode;
  message : str;
  result : option JobResult;
  created_at : Z;
  error : option ErrorInfo;
}.

Definition set_status (s : TaskStatus) (j : JobInfo) : JobInfo :=
  mkJobInfo (task_id j) s (video_id j) (message_code j) (message j)
            (result j) (created_at j) (error j).

Definition set_message_code (c : MessageCode) (j : JobInfo) : JobInfo :=
  mkJobInfo (task_id j) (status j) (video_id j) (Some c) (message j)
            (result j) (created_at j) (error j).

Definition set_message_text (m : str) (j : JobInfo) : JobInfo :=
  mkJobInfo (task_id j) (status j) (video_id j) (message_code j) m
            (result j) (created_at j) (error j).

Definition set_result (r : JobResult) (j : JobInfo) : JobInfo :=
  mkJobInfo (task_id j) (status j) (video_id j) (message_code j) (message j)
            (Some r) (created_at j) (error j).

Definition set_error (e : ErrorInfo) (j : JobInfo) : JobInfo :=
  mkJobInfo (task_id j) (status j) (video_id j) (message_code j) (message j)
            (result j) (created_at j) (Some e).

End Models.
Import Models.

(* ===================================================================== *)
(** * settings.py *)
(* ===================================================================== *)

Module Settings.

Record AppSettings := mkSettings {
  json_dir : Path;
  video_dir : Path;
  image_dir : Path;
  id_api_url : str;
  url_api_url : str;
  uid_to_name_map : gmap str str;
  JOB_RETENTION_SECONDS : Z;
}.

End Settings.
Import Settings.

(* ===================================================================== *)
(** * The world the process runs in *)
(* ===================================================================== *)

Module Sys.

Definition bytes := list N.

(** The content of a regular file: a JSON document as [json.dump] wrote
    it, or raw bytes. *)
Inductive FileData :=
| FJson (doc : json)
| FJsonCut (doc : json)   (* the text of [doc] up to its first surrogate *)
| FBytes (b : bytes).

Inductive Request :=
| ReqApi (url : str) (params : json)   (* a metadata API call *)
| ReqGet (url : json).                 (* a media file download *)

Inductive Level := DEBUG | INFO | SUCCESS | WARNING | ERROR.

(** What a log call reports; one constructor for each call of [logger]. *)
Inductive Event :=
(* json_manager.py *)
| EvIndexFileMissing (key : str) (p : Path)
| EvQueryFailed
| EvNoAuthorUid (bucket : str)
| EvJsonSaved (p : Path)
| EvWriteFailed (p : Path)
| EvIndexUpdated (key folder : str)
| EvIndexUpdateFailed
(* downloader.py *)
| EvHeicConverted (src dst : str)
| EvHeicConvertFailed (src : str) (e : exn)
| EvCacheHit (p : Path)
| EvCacheMiss (key : str)
| EvFetchFailed (e : exn)
| EvSkipExisting (name : str)
| EvHeicResidue (name : str)
| EvTryLink (i n : nat) (name : str)
| EvLinkFailed (i : nat) (url : json) (e : exn)
| EvAllLinksFailed (name : str)
| EvFileSaved (p : Path)
| EvDownloadFailed (url : json) (e : exn)
| EvBatchItemFailed (name : str) (e : exn)
| EvGallery (mixed : bool) (folder : str) (count : nat)
| EvNoDetail (key : str)
| EvProcessing (key : str) (media_type : json)
| EvUnsupported (media_type : json)
| EvDownloadException (text : str) (e : exn)
| EvTraceback
(* tasks.py *)
| EvTaskFailed (id : str)
| EvTranscribeError (id : str)
(* task_manager.py *)
| EvTaskNotFound (id : str)
| EvSemaphoreAcquired (id : str)
| EvCleaned (count : nat) (ids : list str).

Record World := mkWorld {
  files : gmap Path FileData;      (* the regular files on disk *)
  video_index : gmap str str;      (* the table video_index: key -> file_id *)
  requests : list Request;         (* the requests sent, the latest first *)
  logs : list (Level * Event);     (* the log, the latest record first *)
}.

(** What the process cannot decide. *)
Record Env := mkEnv {
  settings : AppSettings;
  (** [\d] of [re] on a str pattern: the Unicode decimal digits. *)
  isdecimal : N -> bool;
  (** [repr] of a list or a dict. *)
  repr_container : json -> str;
  (** The metadata API: the parsed body of the answer, or [None] when the
      request, [raise_for_status] or [response.json()] raises. *)
  api_response : str -> json -> option json;
  (** A media URL: the body, or [None] when the request, its status check
      or the read raises. *)
  http_body : str -> option bytes;
  (** [pillow_heif.read_heif] followed by the JPEG encoder: the JPEG
      bytes, or [None] when the file does not decode. *)
  heif_to_jpeg : bytes -> option bytes;
  (** Whether the statements sent to PostgreSQL succeed. *)
  db_up : bool;
  (** Whether a file can be opened for writing at this path. *)
  writable : Path -> bool;
}.

(** ** The state and exception monad *)

Definition ST (S A : Type) : Type := S -> res A * S.

#[global] Instance ST_monad {S} : Monad (ST S) := {|
  ret _ a := fun s => (Ok a, s);
  bind _ _ m k := fun s =>
    match m s with
    | (Ok a, s') => k a s'
    | (Raise e, s') => (Raise e, s')
    end;
|}.

Definition raise {S A} (e : exn) : ST S A := fun s => (Raise e, s).

(** [try: m except Exception as e: h e] *)
Definition try_except {S A} (m : ST S A) (h : exn -> ST S A) : ST S A :=
  fun s =>
    match m s with
    | (Ok a, s') => (Ok a, s')
    | (Raise e, s') => h e s'
    end.

(** [try: m finally: f] is not needed: the only [finally] blocks close a
    database session, which the model does not track. *)

(** The outcome of [m] as a value: what [gather] keeps for each awaitable
    when [return_exceptions] is set. *)
Definition capture {S A} (m : ST S A) : ST S (res A) :=
  fun s => let (r, s') := m s in (Ok r, s').

Definition of_res {S A} (r : res A) : ST S A := fun s => (r, s).

Definition gets {S A} (f : S -> A) : ST S A := fun s => (Ok (f s), s).

Definition modify {S} (f : S -> S) : ST S unit := fun s => (Ok tt, f s).

Abbreviation M := (ST World).

Definition log (l : Level) (e : Event) : M unit :=
  modify (fun w => mkWorld (files w) (video_index w) (requests w)
                            ((l, e) :: logs w)).

Definition path_exists (p : Path) : M bool :=
  gets (fun w => bool_decide (is_Some (files w !! p))).

Definition write_file (env : Env) (p : Path) (d : FileData) : M unit :=
  fun w =>
    if writable env p
    then (Ok tt, mkWorld (<[p := d]> (files w)) (video_index w)
                         (requests w) (logs w))
    else (Raise (OSError (to_str p)), w).

Definition unlink (p : Path) : M unit :=
  modify (fun w => mkWorld (delete p (files w)) (video_index w)
                            (requests w) (logs w)).

Definition read_file (p : Path) : M (option FileData) :=
  gets (fun w => files w !! p).

Definition send (r : Request) : M unit :=
  modify (fun w => mkWorld (files w) (video_index w) (r :: requests w)
                            (logs w)).

(** The media downloads among the requests sent. *)
Definition downloads (w : World) : list json :=
  omap (fun r => match r with ReqGet u => Some u | ReqApi _ _ => None end)
       (requests w).

End Sys.
Import Sys.

(* ===================================================================== *)
(** * json_manager.py *)
(* ===================================================================== *)

Module JsonManager.

Record DataManager := mkDataManager { base_dir : Path }.

Section DataManager.
Context (env : Env) (self : DataManager).

(** [session.execute(SELECT file_id ...).scalar_one_or_none()] *)
Definition select_file_id (key : str) : M (option str) :=
  if db_up env then gets (fun w => video_index w !! key)
  else raise SQLAlchemyError.

(** What PostgreSQL stores in a [String(255)] column: the value, or its
    first 255 characters when all that is cut are spaces; any other
    longer value is refused. *)
Definition varchar255 (s : str) : option str :=
  if (length s <=? 255)%nat then Some s
  else if forallb (N.eqb 32) (drop 255 s) then Some (take 255 s)
  else None.

(** The UPSERT statement followed by [commit]. *)
Definition upsert (key file_id : str) : M unit :=
  if db_up env then
    match varchar255 key, varchar255 file_id with
    | Some stored_key, Some stored_id =>
        modify (fun w => mkWorld (files w)
                                 (<[stored_key := stored_id]> (video_index w))
                                 (requests w) (logs w))
    | _, _ => raise SQLAlchemyError
    end
  else raise SQLAlchemyError.

Definition get_data_path (key : str) : M (option Path) :=
  try_except
    (do result <- select_file_id key;
     match result with
     | Some stored_folder_name =>
         if truthy (JStr stored_folder_name) then
           let file_path :=
             div (div (base_dir self) stored_folder_name) (key ++ U ".json") in
           do present <- path_exists file_path;
           if present then ret (Some file_path)
           else log WARNING (EvIndexFileMissing key file_path);; ret None
         else ret None
     | None => ret None
     end)
    (fun e => match e with
              | SQLAlchemyError => log ERROR EvQueryFailed;; ret None
              | _ => raise e
              end).

(** [str(v)] *)
Definition py_str (v : json) : str :=
  match v with
  | JStr s => s
  | JInt z => str_of_Z z
  | JBool true => U "True"
  | JBool false => U "False"
  | JNull => U "None"
  | _ => repr_container env v
  end.

(** Step 1 of [save_new_data]: the folder name of a document. *)
Definition folder_name_of (json_data : json) : M str :=
  try_except
    (do data <- of_res (get json_data (U "data") (JObj []));
     do aweme_detail <- of_res (get data (U "aweme_detail") (JObj []));
     do author <- of_res (get aweme_detail (U "author") (JObj []));
     do author_id <- of_res (get author (U "uid") (JStr []));
     do author_id <- (if negb (truthy author_id)
                      then log WARNING (EvNoAuthorUid (U "unknown_author"));;
                           ret (JStr (U "unknown_author"))
                      else ret author_id);
     let folder_name := py_str author_id in
     ret (match uid_to_name_map (settings env) !! folder_name with
          | Some mapped => mapped
          | None => folder_name
          end))
    (fun e => raise (ValueError_extract_id e)).

(** [json.dump(json_data, f, ensure_ascii=False, indent=4)] on the file
    opened for writing: the text is written piece by piece, and a str
    that holds a surrogate stops it with the file cut short. *)
Definition json_dump (file_path : Path) (json_data : json) : M unit :=
  if encodable json_data then write_file env file_path (FJson json_data)
  else write_file env file_path (FJsonCut json_data);;
       raise UnicodeEncodeError.

Definition save_new_data (key : str) (json_data : json) : M Path :=
  do folder_name <- folder_name_of json_data;
  let target_dir := div (base_dir self) folder_name in
  let file_path := div target_dir (key ++ U ".json") in
  try_except
    (json_dump file_path json_data;;
     log INFO (EvJsonSaved file_path))
    (fun e => match e with
              | OSError _ => log ERROR (EvWriteFailed file_path);; raise e
              | _ => raise e
              end);;
  try_except
    (upsert key folder_name;;
     log INFO (EvIndexUpdated key folder_name))
    (fun e => match e with
              | SQLAlchemyError => log ERROR EvIndexUpdateFailed;; raise e
              | _ => raise e
              end);;
  ret file_path.

End DataManager.
End JsonManager.
Import JsonManager.

(* ===================================================================== *)
(** * downloader.py *)
(* ===================================================================== *)

Module Downloader.

(** The pattern [v\.douyin\.com/([a-zA-Z0-9]+)] *)
Definition is_alnum (c : N) : bool :=
  in_range 48 57 c || in_range 65 90 c || in_range 97 122 c.

Definition short_link_host : str := U "v.douyin.com/".

(** The pattern matched at the very start of [text]: group 1. *)
Definition match_short_code_here (text : str) : option str :=
  if starts_with short_link_host text
  then match take_while is_alnum (drop (length short_link_host) text) with
       | [] => None
       | code => Some code
       end
  else None.

(** [re.search(pattern, text)]: the leftmost match. *)
Fixpoint search_short_code (text : str) : option str :=
  match match_short_code_here text with
  | Some code => Some code
  | None => match text with
            | [] => None
            | _ :: text' => search_short_code text'
            end
  end.

Definition _extract_douyin_code_regex (text : str) : option str :=
  search_short_code text.

Definition unsafe_chars : list N :=
  [92; 47; 42; 63; 58; 34; 60; 62; 124]%N.

Definition underscore : N := 95%N.

(** [text] is whatever the document holds under [desc] or [aweme_id];
    [re.sub] refuses what is not a str. *)
Definition _get_safe_filename (text : json) : res str :=
  if negb (truthy text) then Ok (U "Untitled")
  else match text with
       | JStr s =>
           let replaced :=
             map (fun c => if bool_decide (c ∈ unsafe_chars)
                           then underscore else c) s in
           let text := strip isspace replaced in
           Ok (take 60 (strip is_dot (strip isspace text)))
       | _ => Raise TypeError
       end.

Record DouyinDownloader := mkDownloader { data_manager : DataManager }.

(** How [download] routes a document. *)
Inductive Strategy := GalleryImages | GalleryMixed | SingleVideo | Unsupported.

Section DouyinDownloader.
Context (env : Env) (self : DouyinDownloader).

(** [re.fullmatch(r"\d{18,20}", text)] *)
Definition fullmatch_id (text : str) : bool :=
  forallb (isdecimal env) text
  && (18 <=? length text)%nat && (length text <=? 20)%nat.

Definition _parse_input (text : str) : res (str * json * str) :=
  let text := strip isspace text in
  if fullmatch_id text
  then Ok (id_api_url (settings env), JObj [(U "aweme_id", JStr text)], text)
  else match _extract_douyin_code_regex text with
       | Some short_code =>
           if truthy (JStr short_code)
           then Ok (url_api_url (settings env),
                    JObj [(U "share_url", JStr text)], short_code)
           else Raise (ValueError_parse text)
       | None => Raise (ValueError_parse text)
       end.

(** [session.get(api_url, params=..., headers=..., timeout=60)], the
    status check and [response.json()]. *)
Definition api_get (api_url : str) (params : json) : M json :=
  send (ReqApi api_url params);;
  match api_response env api_url params with
  | Some data => ret data
  | None => raise (ClientError (JStr api_url))
  end.

(** [json.load] of an open file *)
Definition json_load (p : Path) : M json :=
  do d <- read_file p;
  match d with
  | Some (FJson doc) => ret doc
  | _ => raise JSONDecodeError
  end.

Definition _fetch_aweme_data (api_url : str) (params : json) (cache_key : str)
  : M json :=
  do json_path <- get_data_path env (data_manager self) cache_key;
  do hit <- match json_path with
            | Some p => path_exists p
            | None => ret false
            end;
  match json_path, hit with
  | Some p, true => log INFO (EvCacheHit p);; json_load p
  | _, _ =>
      log INFO (EvCacheMiss cache_key);;
      try_except
        (do data <- api_get api_url params;
         do code <- of_res (get data (U "code") JNull);
         do ok <- (if eq_int code 200 then ret true
                   else do status_code <- of_res (get data (U "status_code") JNull);
                        ret (eq_int status_code 0));
         if ok : bool then
           do payload <- of_res (get data (U "data") JNull);
           (if truthy payload
            then do _ <- save_new_data env (data_manager self) cache_key data;
                 ret tt
            else ret tt);;
           ret data
         else
           do message <- of_res (get data (U "message") JNull);
           raise (ValueError_api message))
        (fun e => log ERROR (EvFetchFailed e);; raise e)
  end.

(** [settings.uid_to_name_map.get(uid, nickname)]: a list or a dict cannot
    be hashed; any other value that is no str is simply not a key. *)
Definition name_map_get (uid nickname : json) : res json :=
  match uid with
  | JStr s => Ok (match uid_to_name_map (settings env) !! s with
                  | Some n => JStr n
                  | None => nickname
                  end)
  | JArr _ | JObj _ => Raise TypeError
  | _ => Ok nickname
  end.

Definition _extract_metadata (aweme_detail : json) : res (json * json) :=
  do author_info <- get aweme_detail (U "author") (JObj []);
  do uid <- get author_info (U "uid") (JStr (U "UnknownUserID"));
  do nickname <- get author_info (U "nickname") (JStr (U "UnknownAuthor"));
  do author_name <- name_map_get uid nickname;
  do d <- get aweme_detail (U "desc") JNull;
  do desc <- (if truthy d then Ok d
              else get aweme_detail (U "aweme_id") (JStr (U "untitled")));
  Ok (author_name, desc).

Definition heic : str := U ".heic".
Definition jpg : str := U ".jpg".

Definition is_heic (p : Path) : bool := str_eqb (lower (suffix p)) heic.

Definition heic_to_jpg (img_path : Path) : M unit :=
  do present <- path_exists img_path;
  if negb present || negb (is_heic img_path) then ret tt
  else
    try_except
      (let save_dir := parent img_path in
       let stem_name := stem img_path in
       do data <- read_file img_path;
       do image <- match data with
                   | Some (FBytes b) =>
                       match heif_to_jpeg env b with
                       | Some j => ret j
                       | None => raise (ExternalError (U "read_heif"))
                       end
                   | _ => raise (ExternalError (U "read_heif"))
                   end;
       let jpg_path := div save_dir (stem_name ++ jpg) in
       write_file env jpg_path (FBytes image);;
       unlink img_path;;
       log INFO (EvHeicConverted (name img_path) (name jpg_path)))
      (fun e => log ERROR (EvHeicConvertFailed (name img_path) e)).

(** [session.get(url, timeout=300)], the status check and
    [response.read()].  What is not a str is refused before anything is
    sent. *)
Definition http_get (url : json) : M bytes :=
  match url with
  | JStr u =>
      send (ReqGet url);;
      match http_body env u with
      | Some body => ret body
      | None => raise (ClientError url)
      end
  | _ => raise TypeError
  end.

Definition _download_file (url : json) (save_path : Path) : M unit :=
  try_except
    (do body <- http_get url;
     write_file env save_path (FBytes body);;
     log INFO (EvFileSaved save_path);;
     if is_heic save_path then heic_to_jpg save_path else ret tt)
    (fun e =>
       log ERROR (EvDownloadFailed url e);;
       do present <- path_exists save_path;
       (if present then unlink save_path else ret tt);;
       raise e).

(** The [for i, url in enumerate(url_list)] loop and what follows it. *)
Fixpoint try_links (links : list json) (i n : nat) (save_path : Path)
  : M unit :=
  match links with
  | [] =>
      log ERROR (EvAllLinksFailed (name save_path));;
      raise (ConnectionError_all_failed (name save_path))
  | url :: links' =>
      do done <- try_except
                   (log INFO (EvTryLink (i + 1) n (name save_path));;
                    _download_file url save_path;;
                    ret true)
                   (fun e => log WARNING (EvLinkFailed (i + 1) url e);;
                             ret false);
      if done : bool then ret tt else try_links links' (S i) n save_path
  end.

(** Whether an existing [save_path] is a HEIC file left without its JPEG. *)
Definition awaits_conversion (save_path : Path) : M bool :=
  if is_heic save_path
  then do jpg_path <- of_res (with_suffix save_path jpg);
       do present <- path_exists jpg_path;
       ret (negb present)
  else ret false.

Definition _download_with_retry (url_list : json) (save_path : Path) : M unit :=
  do present <- path_exists save_path;
  do skip <- (if present : bool then
                log INFO (EvSkipExisting (name save_path));;
                do residue <- awaits_conversion save_path;
                if residue : bool
                then log INFO (EvHeicResidue (name save_path));; ret false
                else ret true
              else ret false);
  if skip : bool then ret tt
  else if negb (truthy url_list)
  then raise (ValueError_no_url (name save_path))
  else do links <- of_res (iter url_list);
       try_links links 0 (length links) save_path.

(** [asyncio.gather] with [return_exceptions=True], the coroutines run
    one after the other. *)
Fixpoint gather (tasks : list (M unit)) : M (list (res unit)) :=
  match tasks with
  | [] => ret []
  | t :: tasks' =>
      do r <- capture t;
      do rs <- gather tasks';
      ret (r :: rs)
  end.

Fixpoint report_failures (items : list (Path * res unit)) : M unit :=
  match items with
  | [] => ret tt
  | (save_path, Raise e) :: items' =>
      log ERROR (EvBatchItemFailed (name save_path) e);;
      report_failures items'
  | (_, Ok _) :: items' => report_failures items'
  end.

Definition existing (paths : list Path) : M (list Path) :=
  gets (fun w => filter (fun p => is_Some (files w !! p)) paths).

Definition _batch_download (tasks_data : list (json * Path)) : M (list Path) :=
  match tasks_data with
  | [] => ret []
  | _ =>
      let downloaded_paths := map snd tasks_data in
      let tasks := map (fun t => _download_with_retry (fst t) (snd t))
                       tasks_data in
      do results <- gather tasks;
      report_failures (zip downloaded_paths results);;
      existing downloaded_paths
  end.

(** [Path(root) / author_name]: only a str can be joined. *)
Definition div_value (p : Path) (v : json) : res Path :=
  match v with
  | JStr s => Ok (div p s)
  | _ => Raise TypeError
  end.

(** [aweme_detail.get("video", {}).get("play_addr", {}).get("url_list")] *)
Definition video_url_list (aweme_detail : json) : res json :=
  do video <- get aweme_detail (U "video") (JObj []);
  do play_addr <- get video (U "play_addr") (JObj []);
  get play_addr (U "url_list") JNull.

(** The pairs [_process_single_video] hands to [_batch_download]. *)
Definition single_video_tasks (aweme_detail : json)
  : res (list (json * Path)) :=
  do '(author_name, desc) <- _extract_metadata aweme_detail;
  do url_list <- video_url_list aweme_detail;
  if negb (truthy url_list) then Raise ValueError_no_play_addr
  else
    do safe <- _get_safe_filename desc;
    let filename := safe ++ U ".mp4" in
    do author_dir <- div_value (video_dir (settings env)) author_name;
    let save_path := div author_dir filename in
    Ok [(url_list, save_path)].

Definition _process_single_video (aweme_detail : json) : M (list Path) :=
  do tasks <- of_res (single_video_tasks aweme_detail);
  _batch_download tasks.

(** [video_urls] of one round of the loop: the mirror list of the H.264
    address of the item's video, or else that of its play address. *)
Definition item_video_urls (item : json) : res json :=
  do video_item <- get item (U "video") (JObj []);
  do h264 <- get video_item (U "play_addr_h264") (JObj []);
  do h264_urls <- get h264 (U "url_list") JNull;
  if truthy h264_urls then Ok h264_urls
  else do play_addr <- get video_item (U "play_addr") (JObj []);
       get play_addr (U "url_list") JNull.

(** One round of the loop over [enumerate(media_list)]: what item [i]
    appends to [download_tasks]. *)
Definition gallery_item_tasks (is_mixed : bool) (save_dir : Path)
  (i : nat) (item : json) : res (list (json * Path)) :=
  do video_urls <- item_video_urls item;
  if is_mixed && truthy video_urls
  then Ok [(video_urls,
            div save_dir (U "video_" ++ format_02d (i + 1) ++ U ".mp4"))]
  else
    do img_urls <- get item (U "url_list") JNull;
    if truthy img_urls
    then Ok [(img_urls,
              div save_dir (U "image_" ++ format_02d (i + 1) ++ U ".heic"))]
    else Ok [].

Fixpoint gallery_loop (is_mixed : bool) (save_dir : Path) (i : nat)
  (items : list json) : res (list (json * Path)) :=
  match items with
  | [] => Ok []
  | item :: items' =>
      do here <- gallery_item_tasks is_mixed save_dir i item;
      do rest <- gallery_loop is_mixed save_dir (S i) items';
      Ok (here ++ rest)
  end.

(** The folder name and the pairs [_process_gallery] hands to
    [_batch_download]. *)
Definition gallery_tasks (aweme_detail : json) (is_mixed : bool)
  : res (str * list (json * Path)) :=
  do '(author_name, desc) <- _extract_metadata aweme_detail;
  do media_list <- get aweme_detail (U "images") JNull;
  if negb (truthy media_list) then Raise ValueError_no_images
  else
    let base_root := if is_mixed then video_dir (settings env)
                     else image_dir (settings env) in
    do folder_name <- _get_safe_filename desc;
    do author_dir <- div_value base_root author_name;
    let save_dir := div author_dir folder_name in
    do items <- iter media_list;
    do download_tasks <- gallery_loop is_mixed save_dir 0 items;
    Ok (folder_name, download_tasks).

Definition _process_gallery (aweme_detail : json) (is_mixed : bool)
  : M (list Path) :=
  do '(folder_name, download_tasks) <-
       of_res (gallery_tasks aweme_detail is_mixed);
  log INFO (EvGallery is_mixed folder_name (length download_tasks));;
  _batch_download download_tasks.

(** Step 3 of [download]: the media type tag and the branch taken. *)
Definition route (aweme_detail : json) : res (json * Strategy) :=
  do media_type <- get aweme_detail (U "media_type") JNull;
  do images <- get aweme_detail (U "images") JNull;
  do video <- get aweme_detail (U "video") JNull;
  let has_images := truthy images in
  let has_video := truthy video in
  let is_images := eq_int media_type 2 || eq_int media_type 68
                   || (has_images && negb has_video) in
  let is_mixed := eq_int media_type 42 || (has_images && has_video) in
  let is_video := eq_int media_type 4 || (has_video && negb has_images) in
  Ok (media_type,
      if is_images then GalleryImages
      else if is_mixed then GalleryMixed
      else if is_video then SingleVideo
      else Unsupported).

(** Step 3 of [download], once the document is at hand. *)
Definition dispatch (cache_key : str) (aweme_detail : json) : M (list Path) :=
  do '(media_type, strategy) <- of_res (route aweme_detail);
  log INFO (EvProcessing cache_key media_type);;
  match strategy with
  | GalleryImages => _process_gallery aweme_detail false
  | GalleryMixed => _process_gallery aweme_detail true
  | SingleVideo => _process_single_video aweme_detail
  | Unsupported => log ERROR (EvUnsupported media_type);; ret []
  end.

Definition download (text : str) : M (list Path) :=
  try_except
    (do '(api_url, params, cache_key) <- of_res (_parse_input text);
     do data <- _fetch_aweme_data api_url params cache_key;
     do payload <- of_res (get data (U "data") (JObj []));
     do aweme_detail <- of_res (get payload (U "aweme_detail") JNull);
     if negb (truthy aweme_detail)
     then log WARNING (EvNoDetail cache_key);; ret []
     else dispatch cache_key aweme_detail)
    (fun e =>
       log ERROR (EvDownloadException text e);;
       log DEBUG EvTraceback;;
       ret []).

End DouyinDownloader.
End Downloader.
Import Downloader.

(* ===================================================================== *)
(** * tasks.py *)
(* ===================================================================== *)

Module Tasks.

(** What a task's [run] works on: its own [JobInfo], the world, and a
    record, kept for the proofs only, of the files handed to the
    transcriber (the latest first). *)
Record TaskState := mkTaskState {
  job : JobInfo;
  world : World;
  transcribed : list Path;
}.

Abbreviation T := (ST TaskState).

(** A computation on the world, run from inside a task. *)
Definition lift {A} (m : M A) : T A :=
  fun s => let (r, w) := m (world s) in
           (r, mkTaskState (job s) w (transcribed s)).

Definition update_job (f : JobInfo -> JobInfo) : T unit :=
  modify (fun s => mkTaskState (f (job s)) (world s) (transcribed s)).

Definition note_transcribed (p : Path) : T unit :=
  modify (fun s => mkTaskState (job s) (world s) (p :: transcribed s)).

Section BaseTask.
(** [repr(exc)] *)
Context (repr : exn -> str).
(** The collaborators a task holds: [downloader.download] and
    [transcriber.transcribe].  The tasks only call them; they may do
    anything to the world and may raise. *)
Context (downloader_download : str -> M (list Path)).
Context (transcriber_transcribe : Path -> M str).

(** [self.id] *)
Definition id : T str := gets (fun s => task_id (job s)).

(** No caller passes a keyword argument, and no template has a replacement
    field: [template.format()] is the template. *)
Definition set_message (code : MessageCode) : T unit :=
  update_job (set_message_code code);;
  match MESSAGE_TEMPLATES code with
  | Some template => update_job (set_message_text template)
  | None => update_job (set_message_text (MessageCode_value code))
  end.

Definition fail (code : ErrorCode) (msg_code : MessageCode)
  (exc : option exn) : T unit :=
  update_job (set_status FAILED);;
  set_message msg_code;;
  let detail := match exc with
                | Some e => Some (repr e)
                | None => None
                end in
  do current <- gets (fun s => message (job s));
  update_job (set_error (mkErrorInfo code current detail)).

Definition DownloadTask_run (video_id : str) : T unit :=
  try_except
    (update_job (set_status PROCESSING);;
     set_message MC_DOWNLOAD_RUNNING;;
     do files <- lift (downloader_download video_id);
     match files with
     | _ :: _ =>
         update_job (set_status COMPLETED);;
         update_job (set_result (ResultFiles (map to_str files)));;
         set_message MC_DOWNLOAD_SUCCESS
     | [] => fail DOWNLOAD_FAILED MC_DOWNLOAD_FAILED None
     end)
    (fun e =>
       do tid <- id;
       lift (log ERROR (EvTaskFailed tid));;
       fail INTERNAL_ERROR MC_INTERNAL_ERROR (Some e)).

Definition is_video_file (file_path : Path) : bool :=
  bool_decide (lower (suffix file_path) ∈ [U ".mp4"; U ".mov"; U ".mkv"]).

(** The loop over [files].  [None]: the loop has returned from [run];
    [Some t]: [transcript_result] when the loop is left. *)
Fixpoint transcribe_loop (files : list Path) : T (option str) :=
  match files with
  | [] => ret (Some [])
  | file_path :: files' =>
      if is_video_file file_path then
        try_except
          (note_transcribed file_path;;
           do text <- lift (transcriber_transcribe file_path);
           ret (Some text))
          (fun e =>
             do tid <- id;
             lift (log ERROR (EvTranscribeError tid));;
             fail TRANSCRIBE_FAILED MC_TRANSCRIBE_FAILED (Some e);;
             ret None)
      else transcribe_loop files'
  end.

Definition DownloadAndTranscribeTask_run (video_id : str) : T unit :=
  try_except
    (update_job (set_status PROCESSING);;
     set_message MC_DOWNLOAD_RUNNING;;
     do files <- lift (downloader_download video_id);
     match files with
     | [] => fail NO_VIDEO_FOUND MC_DOWNLOAD_FAILED None
     | _ :: _ =>
         set_message MC_TRANSCRIBE_RUNNING;;
         do outcome <- transcribe_loop files;
         match outcome with
         | None => ret tt
         | Some transcript_result =>
             if truthy (JStr transcript_result) then
               update_job (set_status COMPLETED);;
               update_job (set_result (ResultText transcript_result));;
               set_message MC_TRANSCRIBE_SUCCESS
             else fail TRANSCRIBE_EMPTY MC_TRANSCRIBE_EMPTY None
         end
     end)
    (fun e =>
       do tid <- id;
       lift (log ERROR (EvTaskFailed tid));;
       fail INTERNAL_ERROR MC_INTERNAL_ERROR (Some e)).

End BaseTask.
End Tasks.
Import Tasks.

(* ===================================================================== *)
(** * task_manager.py *)
(* ===================================================================== *)

Module TaskManager.

Inductive TaskKind := DownloadOnly | DownloadAndTranscribe.

(** A registered task: its variant, its job and its work identifier. *)
Record Task := mkTask {
  kind : TaskKind;
  task_job : JobInfo;
  task_video_id : str;
}.

(** [self._tasks] and the world. *)
Record ManagerState := mkManagerState {
  _tasks : gmap str Task;
  mworld : World;
}.

Abbreviation TM := (ST ManagerState).

Definition lift_world {A} (m : M A) : TM A :=
  fun s => let (r, w) := m (mworld s) in (r, mkManagerState (_tasks s) w).

Definition register (task : Task) : TM unit :=
  modify (fun s => mkManagerState
                     (<[task_id (task_job task) := task]> (_tasks s))
                     (mworld s)).

Definition get_job (tid : str) : TM (option JobInfo) :=
  gets (fun s => match _tasks s !! tid with
                 | Some task => Some (task_job task)
                 | None => None
                 end).

Definition exists_ (tid : str) : TM bool :=
  gets (fun s => bool_decide (is_Some (_tasks s !! tid))).

Section TaskManager.
Context (env : Env).

(** [now - task.job.created_at > settings.JOB_RETENTION_SECONDS]: the
    difference of two doubles, rounded, against an int. *)
Definition is_expired (now : Z) (task : Task) : bool :=
  double_gt_int (fsub now (created_at (task_job task)))
                (JOB_RETENTION_SECONDS (settings env)).

(** [now] is the reading of [time.time()].  The ids are collected in the
    order in which the map enumerates its entries. *)
Definition cleanup_old_jobs (now : Z) : TM unit :=
  do expired_ids <-
    gets (fun s => map fst (filter (fun kv => is_expired now (snd kv) = true)
                                   (map_to_list (_tasks s))));
  modify (fun s => mkManagerState
                     (fold_left (fun m tid => delete tid m) expired_ids
                                (_tasks s))
                     (mworld s));;
  match expired_ids with
  | [] => ret tt
  | _ => lift_world (log INFO (EvCleaned (length expired_ids) expired_ids))
  end.

Context (repr : exn -> str).
Context (downloader_download : str -> M (list Path)).
Context (transcriber_transcribe : Path -> M str).

(** [task.run()], the job of the registered task being the one the run
    changes.  The semaphore is held around it; with one task running at a
    time it only delays. *)
Definition run_registered (tid : str) (task : Task) : TM unit :=
  fun s =>
    let run := match kind task with
               | DownloadOnly =>
                   DownloadTask_run repr downloader_download
                                    (task_video_id task)
               | DownloadAndTranscribe =>
                   DownloadAndTranscribeTask_run repr downloader_download
                     transcriber_transcribe (task_video_id task)
               end in
    let (r, ts) := run (mkTaskState (task_job task) (mworld s) []) in
    (r, mkManagerState
          (<[tid := mkTask (kind task) (job ts) (task_video_id task)]>
             (_tasks s))
          (world ts)).

Definition run_task (tid : str) (now : Z) : TM unit :=
  do task <- gets (fun s => _tasks s !! tid);
  match task with
  | None => lift_world (log WARNING (EvTaskNotFound tid))
  | Some task =>
      lift_world (log INFO (EvSemaphoreAcquired tid));;
      run_registered tid task;;
      cleanup_old_jobs now
  end.

End TaskManager.
End TaskManager.
Import TaskManager.

(* ===================================================================== *)
(** * transcriber.py *)
(* ===================================================================== *)

Module Transcriber.

(** How the command line of [extract_audio] ends.  When the shell runs
    [ffmpeg] on the two paths as they are: with exit status 0 and the
    audio file written, or with another status, possibly a partial file
    left at the audio path, and an error output that is valid UTF-8 or
    not.  The line is an f-string with the two paths between double
    quotes and nothing escaped: a path that holds a dollar sign, a
    backquote, a double quote or a backslash makes the shell run
    something else, which may change any file and any row of the index
    before it ends with status 0 or another one. *)
Inductive FfmpegResult :=
| FfmpegDone (audio : bytes)
| FfmpegFailed (leftover : option bytes) (stderr_decodes : bool)
| ShellExpanded (effect : World -> World) (status_zero stderr_decodes : bool).

(** What [extract_audio] raises when the command fails: its
    [RuntimeError], unless [stderr.decode()] raises first. *)
Definition ffmpeg_error (stderr_decodes : bool) : exn :=
  ExternalError (if stderr_decodes then U "RuntimeError"
                 else U "UnicodeDecodeError").

(** The two programs the transcriber runs.  [ffmpeg] is given the video
    path and what is stored there; [whisper] is given what is stored at
    the path it is called with and returns the joined text of the
    segments or raises. *)
Record Asr := mkAsr {
  ffmpeg : Path -> option FileData -> FfmpegResult;
  whisper : option FileData -> res str;
}.

Definition mp3 : str := U ".mp3".
Definition txt : str := U ".txt".

(** The log records of this module are not kept. *)
Section Transcriber.
Context (env : Env) (asr : Asr).

(** What [ffmpeg] leaves at the audio path; it writes the file itself. *)
Definition put_file (p : Path) (d : FileData) : M unit :=
  modify (fun w => mkWorld (<[p := d]> (files w)) (video_index w)
                            (requests w) (logs w)).

(** What another process can change: the files and the index, not the
    requests this process sent or its log. *)
Definition shell_effect (effect : World -> World) (w : World) : World :=
  mkWorld (files (effect w)) (video_index (effect w)) (requests w) (logs w).

Definition extract_audio (video_path : Path) : M Path :=
  do audio_path <- of_res (with_suffix video_path mp3);
  do present <- path_exists audio_path;
  if present : bool then ret audio_path
  else
    do video <- read_file video_path;
    match ffmpeg asr video_path video with
    | FfmpegDone audio => put_file audio_path (FBytes audio);; ret audio_path
    | FfmpegFailed leftover stderr_decodes =>
        match leftover with
        | Some partial => put_file audio_path (FBytes partial)
        | None => ret tt
        end;;
        raise (ffmpeg_error stderr_decodes)
    | ShellExpanded effect status_zero stderr_decodes =>
        modify (shell_effect effect);;
        if status_zero then ret audio_path
        else raise (ffmpeg_error stderr_decodes)
    end.

Definition _run_inference (audio_path : Path) : M str :=
  do audio <- read_file audio_path;
  of_res (whisper asr audio).

(** [open(txt_path, "w", encoding="utf-8")] and [f.write(text)]: the file
    is created empty before the text is encoded. *)
Definition write_text (p : Path) (text : str) : M unit :=
  match utf8_encode text with
  | Some b => write_file env p (FBytes b)
  | None => write_file env p (FBytes []);;
            raise (ExternalError (U "UnicodeEncodeError"))
  end.

Definition needs_audio (file_path : Path) : bool :=
  bool_decide (lower (suffix file_path)
               ∈ [U ".mp4"; U ".mov"; U ".mkv"; U ".avi"]).

(** Steps 2 and 3 of [transcribe], with [process_file] decided. *)
Definition infer_and_save (file_path process_file : Path) : M str :=
  do text <- _run_inference process_file;
  if negb (truthy (JStr text)) then ret []
  else
    try_except
      (do txt_path <- of_res (with_suffix file_path txt);
       write_text txt_path text)
      (fun _ => ret tt);;
    ret text.

(** The [finally] block, entered with [temp_audio_created] set. *)
Definition cleanup_audio (file_path process_file : Path) : M unit :=
  do present <- path_exists process_file;
  if (present : bool) && negb (bool_decide (process_file = file_path))
  then unlink process_file
  else ret tt.

(** An exception of the extraction leaves [temp_audio_created] unset and
    [process_file] the file itself: the [finally] block does nothing. *)
Definition transcribe (file_path : Path) : M str :=
  do present <- path_exists file_path;
  if negb present then raise (ExternalError (U "FileNotFoundError"))
  else if needs_audio file_path then
    do process_file <- extract_audio file_path;
    do outcome <- capture (infer_and_save file_path process_file);
    cleanup_audio file_path process_file;;
    of_res outcome
  else infer_and_save file_path file_path.

End Transcriber.
End Transcriber.
Import Transcriber.

(* ===================================================================== *)
(** * main.py: submitting a job and polling it *)
(* ===================================================================== *)

Module Main.

Record TaskResponse := mkTaskResponse {
  response_status : str;
  response_task_id : str;
  response_message : str;
}.

(** What a route answers: a body, or an [HTTPException]. *)
Inductive Reply (A : Type) :=
| Served (body : A)
| Refused (status_code : nat) (detail : str).
Arguments Served {A} body.
Arguments Refused {A} status_code detail.

(** [JobInfo(task_id=..., status=PENDING, video_id=...)]; [created_at] is
    the reading of the clock. *)
Definition new_job (tid vid : str) (now : Z) : JobInfo :=
  mkJobInfo tid PENDING vid None [] None now None.

(** [task.set_message(code)] on a task that is not registered yet. *)
Definition with_task_message (code : MessageCode) (task : Task) : TM Task :=
  fun s =>
    let (r, ts) := set_message code
                     (mkTaskState (task_job task) (mworld s) []) in
    (match r with
     | Ok _ => Ok (mkTask (kind task) (job ts) (task_video_id task))
     | Raise e => Raise e
     end,
     mkManagerState (_tasks s) (world ts)).

(** The two messages are plain literals, not f-strings: the braces and
    the name between them are part of the text. *)
Definition download_submitted : str :=
  [19979; 36733; 20219; 21153; 24050; 25552; 20132; 65292; 35831; 20351;
   29992; 32; 71; 69; 84; 32; 47; 116; 97; 115; 107; 47]%N
  ++ U "{task_id}" ++ [32; 26597; 35810; 29366; 24577]%N.

Definition transcribe_submitted : str :=
  [20219; 21153; 24050; 25552; 20132; 65292; 35831; 20351; 29992; 32; 71;
   69; 84; 32; 47; 116; 97; 115; 107; 47]%N
  ++ U "{task_id}" ++ [32; 26597; 35810; 29366; 24577]%N.

(** [tid] is the identifier [uuid.uuid4()] mints.  The run of the task is
    handed to the background tasks; it happens after the response. *)
Definition handle_download_request (tid vid : str) (now : Z)
  : TM TaskResponse :=
  do task <- with_task_message MC_DOWNLOAD_PENDING
               (mkTask DownloadOnly (new_job tid vid now) vid);
  register task;;
  ret (mkTaskResponse (U "queued") tid download_submitted).

Definition handle_download_and_transcribe_request (tid vid : str) (now : Z)
  : TM TaskResponse :=
  do task <- with_task_message MC_DOWNLOAD_PENDING
               (mkTask DownloadAndTranscribe (new_job tid vid now) vid);
  register task;;
  ret (mkTaskResponse (U "queued") tid transcribe_submitted).

Definition get_task_status (tid : str) : TM (Reply JobInfo) :=
  do found <- get_job tid;
  match found with
  | Some job => ret (Served job)
  | None => ret (Refused 404 (U "Task not found or expired"))
  end.

End Main.
Import Main.

(* ===================================================================== *)
(** * What the specification talks about *)
(* ===================================================================== *)

Module Spec.

(** What [download] leaves behind when [_parse_input] raises [e]: the
    world as it was, with the two log records of the handler. *)
Definition after_swallowed (text : str) (e : exn) (w : World) : World :=
  mkWorld (files w) (video_index w) (requests w)
          ((DEBUG, EvTraceback) :: (ERROR, EvDownloadException text e)
           :: logs w).

(** ** The job a task leaves behind *)

(** The job after [set_message c]. *)
Definition with_message (c : MessageCode) (j : JobInfo) : JobInfo :=
  set_message_text (match MESSAGE_TEMPLATES c with
                    | Some template => template
                    | None => MessageCode_value c
                    end)
                   (set_message_code c j).

(** The job after [fail code msg_code detail]. *)
Definition failed_with (code : ErrorCode) (msg_code : MessageCode)
  (detail : option str) (j : JobInfo) : JobInfo :=
  let j' := with_message msg_code (set_status FAILED j) in
  set_error (mkErrorInfo code (message j') detail) j'.

(** The job when the download phase starts. *)
Definition started (j : JobInfo) : JobInfo :=
  with_message MC_DOWNLOAD_RUNNING (set_status PROCESSING j).

(** The job is Failed with a structured error under the given code: the
    error carries the code, the human message of the job, and the detail. *)
Definition failed_as (code : ErrorCode) (detail : option str) (j : JobInfo)
  : Prop :=
  status j = FAILED /\
  error j = Some (mkErrorInfo code (message j) detail) /\
  exists mc, message_code j = Some mc /\
             MESSAGE_TEMPLATES mc = Some (message j).

(** The world after one more log record. *)
Definition with_log (l : Level) (e : Event) (w : World) : World :=
  mkWorld (files w) (video_index w) (requests w) ((l, e) :: logs w).

Section Outcomes.
Context (repr : exn -> str).
Context (downloader_download : str -> M (list Path)).
Context (transcriber_transcribe : Path -> M str).

(** The state in which [DownloadTask.run] ends. *)
Definition DownloadTask_final (vid : str) (s : TaskState) : TaskState :=
  match downloader_download vid (world s) with
  | (Ok [], w1) =>
      mkTaskState (failed_with DOWNLOAD_FAILED MC_DOWNLOAD_FAILED None
                               (started (job s)))
                  w1 (transcribed s)
  | (Ok files, w1) =>
      mkTaskState (with_message MC_DOWNLOAD_SUCCESS
                     (set_result (ResultFiles (map to_str files))
                        (set_status COMPLETED (started (job s)))))
                  w1 (transcribed s)
  | (Raise e, w1) =>
      mkTaskState (failed_with INTERNAL_ERROR MC_INTERNAL_ERROR
                               (Some (repr e)) (started (job s)))
                  (with_log ERROR (EvTaskFailed (task_id (job s))) w1)
                  (transcribed s)
  end.

(** The state in which the transcription phase of the composite task
    ends, entered in state [s] with the files the download returned. *)
Definition transcription_final (files : list Path) (s : TaskState)
  : TaskState :=
  match find is_video_file files with
  | None =>
      mkTaskState (failed_with TRANSCRIBE_EMPTY MC_TRANSCRIBE_EMPTY None
                               (job s))
                  (world s) (transcribed s)
  | Some p =>
      match transcriber_transcribe p (world s) with
      | (Ok [], w1) =>
          mkTaskState (failed_with TRANSCRIBE_EMPTY MC_TRANSCRIBE_EMPTY None
                                   (job s))
                      w1 (p :: transcribed s)
      | (Ok text, w1) =>
          mkTaskState (with_message MC_TRANSCRIBE_SUCCESS
                         (set_result (ResultText text)
                            (set_status COMPLETED (job s))))
                      w1 (p :: transcribed s)
      | (Raise e, w1) =>
          mkTaskState (failed_with TRANSCRIBE_FAILED MC_TRANSCRIBE_FAILED
                                   (Some (repr e)) (job s))
                      (with_log ERROR (EvTranscribeError (task_id (job s))) w1)
                      (p :: transcribed s)
      end
  end.

(** The state in which [DownloadAndTranscribeTask.run] ends. *)
Definition DownloadAndTranscribeTask_final (vid : str) (s : TaskState)
  : TaskState :=
  match downloader_download vid (world s) with
  | (Ok [], w1) =>
      mkTaskState (failed_with NO_VIDEO_FOUND MC_DOWNLOAD_FAILED None
                               (started (job s)))
                  w1 (transcribed s)
  | (Ok files, w1) =>
      transcription_final files
        (mkTaskState (with_message MC_TRANSCRIBE_RUNNING (started (job s)))
                     w1 (transcribed s))
  | (Raise e, w1) =>
      mkTaskState (failed_with INTERNAL_ERROR MC_INTERNAL_ERROR
                               (Some (repr e)) (started (job s)))
                  (with_log ERROR (EvTaskFailed (task_id (job s))) w1)
                  (transcribed s)
  end.

(** The two variants of a task. *)
Definition is_task_run (vid : str) (run : T unit) : Prop :=
  run = DownloadTask_run repr downloader_download vid \/
  run = DownloadAndTranscribeTask_run repr downloader_download
          transcriber_transcribe vid.

End Outcomes.

(** ** The retrieval pipeline *)

Section Pipeline.
Context (env : Env) (self : DouyinDownloader).

(** Steps 1 and 2 of [download] succeed on [text] in world [w]: the input
    parses to [key], the document is fetched or read from the cache, which
    leaves the world [w1], and it holds the non-empty detail
    [aweme_detail]. *)
Definition resolves_to (text : str) (w : World) (key : str)
  (aweme_detail : json) (w1 : World) : Prop :=
  exists api_url params data payload,
    _parse_input env text = Ok (api_url, params, key) /\
    _fetch_aweme_data env self api_url params key w = (Ok data, w1) /\
    get data (U "data") (JObj []) = Ok payload /\
    get payload (U "aweme_detail") JNull = Ok aweme_detail /\
    truthy aweme_detail = true.

(** The pairs of a job: what the strategy [download] picks for the
    document hands to [_batch_download]. *)
Definition download_tasks (aweme_detail : json) : res (list (json * Path)) :=
  do '(_, strategy) <- route aweme_detail;
  match strategy with
  | GalleryImages =>
      do '(_, tasks) <- gallery_tasks env aweme_detail false; Ok tasks
  | GalleryMixed =>
      do '(_, tasks) <- gallery_tasks env aweme_detail true; Ok tasks
  | SingleVideo => single_video_tasks env aweme_detail
  | Unsupported => Ok []
  end.

End Pipeline.

(** The JPEG that [_download_with_retry] looks for next to a HEIC file is
    there. *)
Definition jpg_sibling_present (w : World) (p : Path) : bool :=
  match with_suffix p jpg with
  | Ok j => bool_decide (is_Some (files w !! j))
  | Raise _ => false
  end.


(** A destination that awaits its conversion: a HEIC file on disk whose
    JPEG is missing. *)
Definition awaiting (w : World) (p : Path) : Prop :=
  is_Some (files w !! p) /\ is_heic p = true /\
  jpg_sibling_present w p = false.

(** The JPEG that [heic_to_jpg] writes for the file [p]. *)
Definition converted_path (p : Path) : Path :=
  div (parent p) (stem p ++ jpg).

Section Conversion.
Context (env : Env).

(** The body of the first mirror that answers. *)
Fixpoint first_body (links : list json) : option bytes :=
  match links with
  | [] => None
  | JStr u :: links' =>
      match http_body env u with
      | Some body => Some body
      | None => first_body links'
      end
  | _ :: links' => first_body links'
  end.

(** Whether the download of a pair succeeds: the mirror list is not
    empty, some mirror answers and the destination can be written. *)
Definition answers (t : json * Path) : bool :=
  truthy (fst t) && writable env (snd t) &&
  match iter (fst t) with
  | Ok links => bool_decide (is_Some (first_body links))
  | Raise _ => false
  end.

(** The outcome [gather] keeps for a pair: the download returned, or it
    raised. *)
Definition outcome_of (t : json * Path) (r : res unit) : Prop :=
  if answers t then r = Ok tt else exists e, r = Raise e.




End Conversion.

(** The later world differs from the earlier one in its log only. *)
Definition quiet (w w' : World) : Prop :=
  files w' = files w /\ video_index w' = video_index w /\
  requests w' = requests w.

(** The later world has sent the requests of the earlier one and then
    possibly more. *)
Definition requests_grow (w w' : World) : Prop :=
  exists newer, requests w' = newer ++ requests w.


(** The later world has sent the same media downloads. *)
Definition same_downloads (w w' : World) : Prop :=
  downloads w' = downloads w.

(** A computation keeps a relation between the world it starts in and
    the world it ends in, whether it returns or raises. *)
Definition keeps (R : World -> World -> Prop) {A} (m : M A) : Prop :=
  forall w r w', m w = (r, w') -> R w w'.

Section Shapes.
Context (env : Env).

(** A bare numeric identifier: 18 to 20 decimal digits and nothing else. *)
Definition is_numeric_id (s : str) : Prop :=
  Forall (fun c => isdecimal env c = true) s /\
  (18 <= length s)%nat /\ (length s <= 20)%nat.

(** Text that holds a short link: [v.douyin.com/] followed by at least one
    letter or digit. *)
Definition has_short_code (s : str) : Prop :=
  exists before code after,
    s = before ++ short_link_host ++ code ++ after /\
    code <> [] /\ Forall (fun c => is_alnum c = true) code.

End Shapes.
Section Mirrors.
Context (env : Env).

(** The requests the loop over the mirrors sends for the destination [p]:
    one to each mirror that is a str, in order, up to and including the
    first that answers with a file that can be written. *)
Fixpoint attempted (p : Path) (links : list json) : list Request :=
  match links with
  | [] => []
  | JStr u :: links' =>
      ReqGet (JStr u)
      :: (if bool_decide (is_Some (http_body env u)) && writable env p
          then [] else attempted p links')
  | _ :: links' => attempted p links'
  end.

(** Whether the loop over the mirrors ends with a download. *)
Fixpoint some_link_works (p : Path) (links : list json) : bool :=
  match links with
  | [] => false
  | JStr u :: links' =>
      (bool_decide (is_Some (http_body env u)) && writable env p)
      || some_link_works p links'
  | _ :: links' => some_link_works p links'
  end.

(** The JPEG bytes [heic_to_jpg] writes for [p] in the world [w], when it
    converts at all: [p] is a HEIC file on disk that the decoder accepts
    and the JPEG can be written. *)
Definition conversion (w : World) (p : Path) : option bytes :=
  if is_heic p && writable env (converted_path p) then
    match files w !! p with
    | Some (FBytes b) => heif_to_jpeg env b
    | _ => None
    end
  else None.

End Mirrors.

(** Every path a computation returns is on disk when it returns. *)
Definition yields_existing (m : M (list Path)) : Prop :=
  forall w found w', m w = (Ok found, w') ->
                     Forall (fun p => is_Some (files w' !! p)) found.

(** ** Asking the API *)

(** Whether the answer of the API passes the check on its [code] and
    [status_code]. *)
Definition accepted (data : json) : res bool :=
  do code <- get data (U "code") JNull;
  if eq_int code 200 then Ok true
  else do status_code <- get data (U "status_code") JNull;
       Ok (eq_int status_code 0).

Section Answers.
Context (env : Env) (self : DouyinDownloader).

(** The part of [_fetch_aweme_data] that asks the API. *)
Definition ask_api (api_url : str) (params : json) (cache_key : str)
  : M json :=
  try_except
    (do data <- api_get env api_url params;
     do code <- of_res (get data (U "code") JNull);
     do ok <- (if eq_int code 200 then ret true
               else do status_code <- of_res (get data (U "status_code") JNull);
                    ret (eq_int status_code 0));
     if ok : bool then
       do payload <- of_res (get data (U "data") JNull);
       (if truthy payload
        then do _ <- save_new_data env (data_manager self) cache_key data;
             ret tt
        else ret tt);;
       ret data
     else
       do message <- of_res (get data (U "message") JNull);
       raise (ValueError_api message))
    (fun e => log ERROR (EvFetchFailed e);; raise e).

End Answers.

(** ** The plan of a gallery *)

(** The number a run of decimal digits denotes, read onto [a]. *)
Definition read_digits (s : str) (a : nat) : nat :=
  fold_left (fun a c => 10 * a + (N.to_nat c - 48)) s a.

(** The file name of item [j] of a gallery: [video_NN.mp4] for a video of
    a mixed gallery, [image_NN.heic] otherwise. *)
Definition item_name (video : bool) (j : nat) : str :=
  (if video then U "video_" else U "image_") ++ format_02d j
  ++ (if video then U ".mp4" else U ".heic").

(** The pair [t] is what the item at position [j] of the media list,
    counted from zero, gives: in a mixed gallery an item whose video has
    a mirror list gives that list and the name [video_NN.mp4]; any other
    item gives its own [url_list], when that is not empty, and the name
    [image_NN.heic]; [NN] is [j + 1]. *)
Definition pair_of_item (is_mixed : bool) (save_dir : Path)
  (items : list json) (j : nat) (t : json * Path) : Prop :=
  exists item video_urls,
    items !! j = Some item /\
    item_video_urls item = Ok video_urls /\
    truthy (fst t) = true /\
    if is_mixed && truthy video_urls
    then t = (video_urls, div save_dir (item_name true (j + 1)))
    else get item (U "url_list") JNull = Ok (fst t) /\
         snd t = div save_dir (item_name false (j + 1)).

(** An item that gives no pair: no video mirror list that counts, and no
    [url_list] of its own. *)
Definition item_without_links (is_mixed : bool) (item : json) : Prop :=
  exists video_urls img_urls,
    item_video_urls item = Ok video_urls /\
    (is_mixed && truthy video_urls) = false /\
    get item (U "url_list") JNull = Ok img_urls /\
    truthy img_urls = false.

(** ** Settled jobs *)

(** A job that has reached one of its two final states, with the field
    that goes with it and not the other. *)
Definition settled (j : JobInfo) : Prop :=
  (status j = COMPLETED /\ is_Some (result j) /\ error j = None) \/
  (status j = FAILED /\ result j = None /\ is_Some (error j)).

(** What no step of a run changes. *)
Definition same_identity (j j' : JobInfo) : Prop :=
  task_id j' = task_id j /\ video_id j' = video_id j /\
  created_at j' = created_at j.

Section Registry.
Context (repr : exn -> str).
Context (downloader_download : str -> M (list Path)).
Context (transcriber_transcribe : Path -> M str).

(** The task state in which the run of a registered task ends. *)
Definition run_of (task : Task) (w : World) : TaskState :=
  let s := mkTaskState (task_job task) w [] in
  match kind task with
  | DownloadOnly =>
      DownloadTask_final repr downloader_download (task_video_id task) s
  | DownloadAndTranscribe =>
      DownloadAndTranscribeTask_final repr downloader_download
        transcriber_transcribe (task_video_id task) s
  end.

End Registry.

(** The route behind [POST /download] or [POST /download_and_transcribe]. *)
Definition submit (transcribe : bool) : str -> str -> Z -> TM TaskResponse :=
  if transcribe then handle_download_and_transcribe_request
  else handle_download_request.

(** ** The text file of a transcription *)

Section Saving.
Context (env : Env).

(** The files after step 3 of [transcribe], which saves the text [outcome]
    next to [file_path]: a non-empty text is written to the [.txt]
    sibling when that file can be opened; it is left empty when the text
    cannot be encoded. *)
Definition after_saving (fs : gmap Path FileData) (file_path : Path)
  (outcome : res str) : gmap Path FileData :=
  match outcome, with_suffix file_path txt with
  | Ok (c :: text), Ok txt_path =>
      if writable env txt_path
      then <[txt_path := FBytes (default [] (utf8_encode (c :: text)))]> fs
      else fs
  | _, _ => fs
  end.

End Saving.

(** ** Calls of the metadata API *)

(** The calls of the metadata API among the requests sent, the latest
    first. *)
Definition api_requests (w : World) : list (str * json) :=
  omap (fun r => match r with
                 | ReqApi url params => Some (url, params)
                 | ReqGet _ => None
                 end) (requests w).

(** The later world has called the metadata API no more. *)
Definition same_api (w w' : World) : Prop :=
  api_requests w' = api_requests w.

Section ApiUse.
Context (env : Env) (self : DouyinDownloader).

(** What [download] does with the document once it is fetched. *)
Definition after_fetch (cache_key : str) (data : json) : M (list Path) :=
  do payload <- of_res (get data (U "data") (JObj []));
  do aweme_detail <- of_res (get payload (U "aweme_detail") JNull);
  if negb (truthy aweme_detail)
  then log WARNING (EvNoDetail cache_key);; ret []
  else dispatch env cache_key aweme_detail.

(** The calls of the metadata API a fetch of [key] may add in the world
    [w]: none when the lookup of the key hits, the one call of the
    endpoint otherwise. *)
Definition fetch_calls (api_url : str) (params : json) (key : str)
  (w w' : World) : Prop :=
  match fst (get_data_path env (data_manager self) key w) with
  | Ok (Some _) => api_requests w' = api_requests w
  | _ => api_requests w' = (api_url, params) :: api_requests w
  end.

End ApiUse.

End Spec.
Import Spec.

(* ===================================================================== *)
(** * Concrete settings, worlds and documents *)
(* ===================================================================== *)

Module Examples.

Definition example_settings (names : gmap str str) : AppSettings :=
  mkSettings (of_str (U "data/json")) (of_str (U "data/videos"))
             (of_str (U "data/images"))
             (U "https://api.tikhub.io/api/v1/douyin/app/v3/fetch_one_video")
             (U "https://api.tikhub.io/api/v1/douyin/app/v3/fetch_one_video_by_share_url")
             names 86400.

(** A network in which the mirrors under [https://cdn/] answer with two
    bytes and every other request fails; the decoder answers as given. *)
Definition example_env (names : gmap str str)
  (decoder : bytes -> option bytes) : Env :=
  mkEnv (example_settings names)
        (in_range 48 57)
        (fun _ => U "[...]")
        (fun _ _ => None)
        (fun u => if starts_with (U "https://cdn/") u
                  then Some [104%N; 105%N] else None)
        decoder
        true
        (fun _ => true).

Definition decoder_ok : bytes -> option bytes := fun b => Some (255%N :: b).

Definition empty_world : World := mkWorld ∅ ∅ [] [].

Definition example_manager : DataManager := mkDataManager (of_str (U "data/json")).
Definition example_downloader : DouyinDownloader := mkDownloader example_manager.

Definition example_repr (e : exn) : str :=
  match e with
  | ExternalError what => what
  | _ => U "Exception()"
  end.

Definition example_job : JobInfo :=
  mkJobInfo (U "job-1") PENDING (U "hello") None [] None (seconds 1000) None.

Definition a_url_list : json := JArr [JStr (U "https://cdn/1")].

(** Tagged as a single video (media type 4), with both a video and an
    image list. *)
Definition tagged_video_with_images : json :=
  JObj [(U "media_type", JInt 4);
        (U "video", JObj [(U "play_addr", JObj [(U "url_list", a_url_list)])]);
        (U "images", JArr [JObj [(U "url_list", a_url_list)]])].

(** Tagged as a single video, with an image list and no video. *)
Definition tagged_video_images_only : json :=
  JObj [(U "media_type", JInt 4);
        (U "images", JArr [JObj [(U "url_list", a_url_list)]])].

Definition old_task : Task :=
  mkTask DownloadOnly
         (mkJobInfo (U "old") COMPLETED (U "hello") None [] None (seconds 1000) None)
         (U "hello").

Definition young_task : Task :=
  mkTask DownloadOnly
         (mkJobInfo (U "young") PROCESSING (U "hello") None [] None (seconds 90000) None)
         (U "hello").

Definition example_registry : ManagerState :=
  mkManagerState (<[U "old" := old_task]> (<[U "young" := young_task]> ∅))
                 empty_world.

(** The doubles written [0.1] and [86400.1]. *)
Definition tenth : Z := dyadic 3602879701896397 (-55).
Definition day_and_tenth : Z := dyadic 2968684830969037 (-35).

(** A job created at [0.1]. *)
Definition early_task : Task :=
  mkTask DownloadOnly
         (mkJobInfo (U "early") COMPLETED (U "hello") None [] None tenth None)
         (U "hello").

Definition early_registry : ManagerState :=
  mkManagerState (<[U "early" := early_task]> ∅) empty_world.

(** The document and the key of the self-test at the end of
    [json_manager.py]. *)
Definition mock_key : str := U "73105678912345".

Definition mock_data : json :=
  JObj [(U "data",
         JObj [(U "aweme_detail",
                JObj [(U "aweme_id", JStr mock_key);
                      (U "desc", JStr (U "test"));
                      (U "author", JObj [(U "uid", JStr (U "10086"));
                                         (U "nickname", JStr (U "tester"))])])])].

(** A remapping table that gives author 10086 the empty folder name, and
    one that names the author Alice. *)
Definition names_empty : gmap str str := {[ U "10086" := [] ]}.
Definition names_alice : gmap str str := {[ U "10086" := U "Alice" ]}.

Definition raising_download : str -> M (list Path) :=
  fun _ => raise (ExternalError (U "boom")).

Definition silent_transcriber : Path -> M str := fun _ => ret [].

Definition example_task_state : TaskState :=
  mkTaskState example_job empty_world [].

(** A numeric work identifier and cached documents for it. *)
Definition example_id : str := U "7310567891234567890".

Definition example_author : json :=
  JObj [(U "uid", JStr (U "10086")); (U "nickname", JStr (U "tester"))].

Definition response_with (aweme_detail : json) : json :=
  JObj [(U "code", JInt 200);
        (U "data", JObj [(U "aweme_detail", aweme_detail)])].

(** A single video whose mirror list is empty. *)
Definition video_without_mirrors : json :=
  JObj [(U "aweme_id", JStr example_id); (U "desc", JStr (U "clip"));
        (U "media_type", JInt 4); (U "author", example_author);
        (U "video", JObj [(U "play_addr", JObj [(U "url_list", JArr [])])])].

(** A single video with one mirror. *)
Definition video_with_mirror : json :=
  JObj [(U "aweme_id", JStr example_id); (U "desc", JStr (U "clip"));
        (U "media_type", JInt 4); (U "author", example_author);
        (U "video", JObj [(U "play_addr", JObj [(U "url_list", a_url_list)])])].

(** An image gallery of two images. *)
Definition gallery_of_two : json :=
  JObj [(U "aweme_id", JStr example_id); (U "desc", JStr (U "album"));
        (U "media_type", JInt 2); (U "author", example_author);
        (U "images", JArr [JObj [(U "url_list", a_url_list)];
                           JObj [(U "url_list", a_url_list)]])].

Definition example_cache_path : Path :=
  of_str (U "data/json/10086/7310567891234567890.json").

(** A world whose cache holds the document for [example_id], with the
    given media files on disk. *)
Definition cached_world (aweme_detail : json) (media : gmap Path FileData)
  : World :=
  mkWorld (<[example_cache_path := FJson (response_with aweme_detail)]> media)
          {[ example_id := U "10086" ]} [] [].

Definition task_state_in (w : World) : TaskState :=
  mkTaskState example_job w [].

(** A mirror that never answers, and the two destinations of a gallery of
    two images. *)
Definition dead_url_list : json := JArr [JStr (U "https://down/2")].

Definition image_01 : Path :=
  of_str (U "data/images/tester/album/image_01.heic").
Definition image_02 : Path :=
  of_str (U "data/images/tester/album/image_02.heic").
Definition image_01_jpg : Path :=
  of_str (U "data/images/tester/album/image_01.jpg").

(** A metadata API that answers every request with [answer]. *)
Definition answering_env (answer : json) : Env :=
  mkEnv (example_settings ∅) (in_range 48 57) (fun _ => U "[...]")
        (fun _ _ => Some answer)
        (fun u => if starts_with (U "https://cdn/") u
                  then Some [104%N; 105%N] else None)
        decoder_ok true (fun _ => true).

(** An answer the API marks as failed, and an accepted one without a
    payload. *)
Definition refusal : json :=
  JObj [(U "code", JInt 500); (U "status_code", JInt 1);
        (U "message", JStr (U "quota exceeded"))].

Definition answer_without_payload : json :=
  JObj [(U "code", JInt 200); (U "data", JObj [])].

(** A mirror list whose first entry is down and whose second is no str. *)
Definition mixed_mirrors : json :=
  JArr [JStr (U "https://down/2"); JInt 7; JStr (U "https://cdn/1");
        JStr (U "https://cdn/3")].

Definition clip : Path := of_str (U "data/videos/tester/clip.mp4").
Definition clip_2 : Path := of_str (U "data/videos/tester/clip_2.mp4").
Definition clip_3 : Path := of_str (U "data/videos/tester/clip_3.mp4").
Definition clip_audio : Path := of_str (U "data/videos/tester/clip.mp3").
Definition talk : Path := of_str (U "data/audio/talk.wav").

(** A disk that holds a HEIC file without its JPEG, one that holds a
    video, and one that holds an audio file. *)
Definition residue_world : World :=
  mkWorld {[ image_01 := FBytes [1%N] ]} ∅ [] [].
Definition video_world : World :=
  mkWorld {[ clip := FBytes [1%N; 2%N] ]} ∅ [] [].
Definition talk_world : World :=
  mkWorld {[ talk := FBytes [3%N] ]} ∅ [] [].

(** An [ffmpeg] that extracts the audio of what is stored as bytes, with
    an inference that hears [hello] in any audio; and an [ffmpeg] that
    fails and leaves one byte behind. *)
Definition example_asr : Asr :=
  mkAsr (fun _ video => match video with
                        | Some (FBytes b) => FfmpegDone (109%N :: b)
                        | _ => FfmpegFailed None true
                        end)
        (fun audio => match audio with
                      | Some (FBytes _) => Ok (U "hello")
                      | _ => Raise (ExternalError (U "no audio"))
                      end).

Definition failing_asr : Asr :=
  mkAsr (fun _ _ => FfmpegFailed (Some [0%N]) true) (whisper example_asr).

(** A download that finds the video. *)
Definition found_clip : str -> M (list Path) := fun _ => ret [clip].

(** A video whose name is in capitals, the transcript written next to
    it, a disk that holds the video and a download that finds it. *)
Definition loud_clip : Path := of_str (U "data/videos/tester/CLIP.MP4").
Definition loud_clip_text : Path := of_str (U "data/videos/tester/CLIP.txt").
Definition loud_world : World :=
  mkWorld {[ loud_clip := FBytes [1%N; 2%N] ]} ∅ [] [].
Definition found_loud_clip : str -> M (list Path) :=
  fun _ => ret [loud_clip].

End Examples.
Import Examples.

(* ===================================================================== *)
(** * Parsing the work identifier *)
(* ===================================================================== *)

Section ParseInput.
Context (env : Env).

Lemma fullmatch_id_spec (s : str) :
  fullmatch_id env s = true <-> is_numeric_id env s.
Proof.
  unfold fullmatch_id, is_numeric_id.
  rewrite !andb_true_iff, forallb_forall, Forall_forall.
  rewrite !Nat.leb_le.
  split.
  - intros [[Hd Hlo] Hhi]. repeat split; try assumption.
    intros c Hc. apply Hd. now apply list_elem_of_In.
  - intros (Hd & Hlo & Hhi). repeat split; try assumption.
    intros c Hc. apply Hd. now apply list_elem_of_In.
Qed.

Lemma starts_with_app (p s : str) : starts_with p (p ++ s) = true.
Proof.
  induction p as [|a p IH]; simpl; [reflexivity|].
  now rewrite N.eqb_refl.
Qed.

Lemma starts_with_split (p s : str) :
  starts_with p s = true -> s = p ++ drop (length p) s.
Proof.
  revert s. induction p as [|a p IH]; intros s H; simpl in *.
  - now rewrite drop_0.
  - destruct s as [|b s]; [discriminate|].
    apply andb_true_iff in H as [Hab Hps].
    apply N.eqb_eq in Hab. subst b. simpl. f_equal. now apply IH.
Qed.

Lemma take_while_split (P : N -> bool) (s : str) :
  exists rest, s = take_while P s ++ rest /\
               Forall (fun c => P c = true) (take_while P s).
Proof.
  induction s as [|c s (rest & Hs & Hall)]; simpl.
  - exists []. split; [reflexivity|constructor].
  - destruct (P c) eqn:Hc.
    + exists rest. split; [simpl; congruence|]. now constructor.
    + exists (c :: s). split; [reflexivity|constructor].
Qed.

Lemma match_here_sound (s code : str) :
  match_short_code_here s = Some code ->
  exists after, s = short_link_host ++ code ++ after /\
                code <> [] /\ Forall (fun c => is_alnum c = true) code.
Proof.
  unfold match_short_code_here.
  destruct (starts_with short_link_host s) eqn:Hp; [|discriminate].
  apply starts_with_split in Hp.
  destruct (take_while_split is_alnum (drop (length short_link_host) s))
    as (rest & Hsplit & Hall).
  destruct (take_while is_alnum (drop (length short_link_host) s))
    as [|c run] eqn:Hrun; [discriminate|].
  intros [= <-]. exists rest. split; [|split].
  - rewrite Hp at 1. now rewrite Hsplit at 1.
  - discriminate.
  - exact Hall.
Qed.

Lemma match_here_complete (code after : str) :
  code <> [] -> Forall (fun c => is_alnum c = true) code ->
  is_Some (match_short_code_here (short_link_host ++ code ++ after)).
Proof.
  intros Hne Hall. unfold match_short_code_here.
  rewrite starts_with_app, drop_app_length.
  destruct code as [|c code]; [congruence|].
  inversion Hall as [|? ? Hc _]; subst. simpl. rewrite Hc. eauto.
Qed.

Lemma search_short_code_unfold (s : str) :
  search_short_code s =
  match match_short_code_here s with
  | Some code => Some code
  | None => match s with
            | [] => None
            | _ :: s' => search_short_code s'
            end
  end.
Proof. destruct s; reflexivity. Qed.

(** The search finds a code exactly on the texts that hold a short link. *)
Lemma search_short_code_spec (s : str) :
  is_Some (search_short_code s) <-> has_short_code s.
Proof.
  split.
  - induction s as [|c s IH].
    + intros [code Hs]. vm_compute in Hs. discriminate.
    + simpl. destruct (match_short_code_here (c :: s)) as [code|] eqn:Hm.
      * intros _. apply match_here_sound in Hm as (after & Hs & Hne & Hall).
        exists [], code, after. auto.
      * intros H. destruct (IH H) as (before & code & after & Hs & Hne & Hall).
        exists (c :: before), code, after. split; [|auto].
        simpl. now rewrite Hs.
  - intros (before & code & after & -> & Hne & Hall).
    induction before as [|c before IH].
    + rewrite app_nil_l, search_short_code_unfold.
      destruct (match_here_complete code after Hne Hall) as [found Hm].
      rewrite Hm. eauto.
    + rewrite <- app_comm_cons, search_short_code_unfold.
      destruct (match_short_code_here _); [eauto|exact IH].
Qed.

Lemma search_short_code_nonempty (s code : str) :
  search_short_code s = Some code -> code <> [].
Proof.
  induction s as [|c s IH].
  - intros Hs. vm_compute in Hs. discriminate.
  - simpl. destruct (match_short_code_here (c :: s)) eqn:Hm; [|exact IH].
    intros [= <-]. now apply match_here_sound in Hm as (_ & _ & Hne & _).
Qed.

(** [_parse_input] fails exactly on the inputs of neither shape, and then
    with the [ValueError] of its last line. *)
Lemma parse_input_unrecognised (text : str) :
  ~ is_numeric_id env (strip isspace text) ->
  ~ has_short_code (strip isspace text) ->
  _parse_input env text = Raise (ValueError_parse (strip isspace text)).
Proof.
  intros Hid Hcode. unfold _parse_input.
  destruct (fullmatch_id env (strip isspace text)) eqn:Hf.
  - exfalso. apply Hid. now apply fullmatch_id_spec.
  - unfold _extract_douyin_code_regex.
    destruct (search_short_code (strip isspace text)) eqn:Hs; [|reflexivity].
    exfalso. apply Hcode. apply search_short_code_spec. eauto.
Qed.

Lemma parse_input_recognised (text : str) :
  is_numeric_id env (strip isspace text) \/ has_short_code (strip isspace text) ->
  exists api_url params key, _parse_input env text = Ok (api_url, params, key).
Proof.
  intros H. unfold _parse_input.
  destruct (fullmatch_id env (strip isspace text)) eqn:Hf; [eauto|].
  destruct H as [H|H].
  - apply fullmatch_id_spec in H. congruence.
  - apply search_short_code_spec in H as [code Hs].
    unfold _extract_douyin_code_regex. rewrite Hs.
    pose proof (search_short_code_nonempty _ _ Hs) as Hne.
    destruct code; [congruence|]. simpl. eauto.
Qed.

End ParseInput.

(* ===================================================================== *)
(** * The entry point and an input it cannot parse *)
(* ===================================================================== *)

Section DownloadParseError.


Lemma download_parse_raises (env : Env) (self : DouyinDownloader)
  (text : str) (e : exn) (w : World) :
  _parse_input env text = Raise e ->
  download env self text w = (Ok [], after_swallowed text e w).
Proof.
  intros Hp. unfold download, try_except, of_res. simpl. rewrite Hp.
  reflexivity.
Qed.

Lemma hello_unrecognised :
  let env := example_env ∅ decoder_ok in
  ~ is_numeric_id env (strip isspace (U "hello")) /\
  ~ has_short_code (strip isspace (U "hello")).
Proof.
  split.
  - intros H. apply fullmatch_id_spec in H. vm_compute in H. discriminate.
  - intros H. apply search_short_code_spec in H as [code H].
    vm_compute in H. discriminate.
Qed.

(** C1, as the specification states it, fails: on the input [hello],
    which is neither a numeric identifier nor text with a short link,
    [download] raises nothing; it returns the empty list. *)
Lemma download_swallows_parse_error :
  let env := example_env ∅ decoder_ok in
  let text := U "hello" in
  ~ is_numeric_id env (strip isspace text) /\
  ~ has_short_code (strip isspace text) /\
  fst (download env example_downloader text empty_world) = Ok [] /\
  ~ (exists e, fst (download env example_downloader text empty_world) = Raise e).
Proof.
  cbv zeta. pose proof hello_unrecognised as H. cbv zeta in H.
  destruct H as [Hid Hcode].
  split; [exact Hid|]. split; [exact Hcode|]. split; [reflexivity|].
  intros [e He]. vm_compute in He. discriminate.
Qed.

(** C1, amended: for every input that, once stripped, is neither an 18 to
    20 digit identifier nor text holding a [v.douyin.com] short code,
    [_parse_input] raises its [ValueError], and [download] catches it:
    it logs the error and returns the empty list, with no request sent
    and nothing written. *)
Theorem download_unrecognised_input (env : Env) (self : DouyinDownloader)
  (text : str) (w : World) :
  ~ is_numeric_id env (strip isspace text) ->
  ~ has_short_code (strip isspace text) ->
  _parse_input env text = Raise (ValueError_parse (strip isspace text)) /\
  download env self text w =
    (Ok [], after_swallowed text (ValueError_parse (strip isspace text)) w).
Proof.
  intros Hid Hcode.
  pose proof (parse_input_unrecognised env text Hid Hcode) as Hp.
  split; [exact Hp|]. now apply download_parse_raises.
Qed.

Lemma download_unrecognised_input_witness :
  download (example_env ∅ decoder_ok) example_downloader (U "hello")
           empty_world =
    (Ok [], after_swallowed (U "hello") (ValueError_parse (U "hello"))
                            empty_world).
Proof.
  exact (proj2 (download_unrecognised_input
                  (example_env ∅ decoder_ok) example_downloader (U "hello")
                  empty_world
                  (proj1 hello_unrecognised) (proj2 hello_unrecognised))).
Defined.

End DownloadParseError.

(* ===================================================================== *)
(** * Routing a document to a download strategy *)
(* ===================================================================== *)

Section Routing.


(** C4 at two documents: the tag says single video (4), the branch taken
    is a gallery, because the structural tests are or-ed into the tests
    of the tag and the gallery branches come first. *)
Theorem route_ignores_video_tag :
  route tagged_video_with_images = Ok (JInt 4, GalleryMixed) /\
  route tagged_video_images_only = Ok (JInt 4, GalleryImages).
Proof. split; reflexivity. Qed.

(** Where the tag does decide: a document tagged 4 with no image list is
    routed to the single video strategy, whatever else it holds. *)
Lemma route_video_tag_without_images (aweme_detail images video : json) :
  get aweme_detail (U "media_type") JNull = Ok (JInt 4) ->
  get aweme_detail (U "images") JNull = Ok images ->
  get aweme_detail (U "video") JNull = Ok video ->
  truthy images = false ->
  route aweme_detail = Ok (JInt 4, SingleVideo).
Proof.
  intros Hm Hi Hv Hf. unfold route. rewrite Hm. simpl. rewrite Hi. simpl.
  rewrite Hv. simpl. rewrite Hf. simpl. reflexivity.
Qed.

End Routing.

(* ===================================================================== *)
(** * Rounding to a double *)
(* ===================================================================== *)

Section Doubles.
Local Open Scope Z_scope.

Lemma round_half_even_bounds (a s : Z) :
  a / 2 ^ s <= round_half_even a s <= a / 2 ^ s + 1.
Proof.
  unfold round_half_even.
  destruct (_ <? _); [lia|]. destruct (_ <? _); [lia|].
  destruct (Z.even _); lia.
Qed.

Lemma round_half_even_mono (a b s : Z) :
  0 <= s -> a <= b -> round_half_even a s <= round_half_even b s.
Proof.
  intros Hs Hab.
  assert (Hp : 0 < 2 ^ s) by (apply Z.pow_pos_nonneg; lia).
  pose proof (Z.div_le_mono a b (2 ^ s) Hp Hab) as Hq.
  destruct (Z.eq_dec (a / 2 ^ s) (b / 2 ^ s)) as [Heq|Hne].
  - assert (Hr : a mod 2 ^ s <= b mod 2 ^ s).
    { pose proof (Z.div_mod a (2 ^ s)). pose proof (Z.div_mod b (2 ^ s)).
      nia. }
    unfold round_half_even. rewrite <- Heq.
    destruct (2 * (a mod 2 ^ s) <? 2 ^ s) eqn:Ha1;
      destruct (2 * (b mod 2 ^ s) <? 2 ^ s) eqn:Hb1;
      destruct (2 ^ s <? 2 * (a mod 2 ^ s)) eqn:Ha2;
      destruct (2 ^ s <? 2 * (b mod 2 ^ s)) eqn:Hb2;
      destruct (Z.even (a / 2 ^ s)); lia.
  - pose proof (round_half_even_bounds a s).
    pose proof (round_half_even_bounds b s). lia.
Qed.

Lemma round_units_upper (a : Z) :
  0 < a -> round_units a <= 2 ^ (Z.log2 a + 1).
Proof.
  intros Ha. unfold round_units.
  set (s := Z.max 0 (Z.log2 a - 52)).
  pose proof (Z.log2_nonneg a) as Hl.
  assert (Hs : 0 <= s <= Z.log2 a) by lia.
  pose proof (round_half_even_bounds a s) as [_ Hup].
  assert (Hp : 0 < 2 ^ s) by (apply Z.pow_pos_nonneg; lia).
  assert (Hsplit : 2 ^ (Z.log2 a + 1) = 2 ^ (Z.log2 a + 1 - s) * 2 ^ s).
  { rewrite <- Z.pow_add_r by lia. f_equal. lia. }
  rewrite Hsplit. apply Z.mul_le_mono_nonneg_r; [lia|].
  assert (Hlt : a / 2 ^ s < 2 ^ (Z.log2 a + 1 - s)).
  { apply Z.div_lt_upper_bound; [lia|]. rewrite Z.mul_comm, <- Hsplit.
    apply Z.log2_spec. lia. }
  lia.
Qed.

Lemma round_units_lower (a : Z) :
  0 < a -> 2 ^ Z.log2 a <= round_units a.
Proof.
  intros Ha. unfold round_units.
  set (s := Z.max 0 (Z.log2 a - 52)).
  pose proof (Z.log2_nonneg a) as Hl.
  assert (Hs : 0 <= s <= Z.log2 a) by lia.
  pose proof (round_half_even_bounds a s) as [Hlow _].
  assert (Hp : 0 < 2 ^ s) by (apply Z.pow_pos_nonneg; lia).
  assert (Hsplit : 2 ^ Z.log2 a = 2 ^ (Z.log2 a - s) * 2 ^ s).
  { rewrite <- Z.pow_add_r by lia. f_equal. lia. }
  rewrite Hsplit. apply Z.mul_le_mono_nonneg_r; [lia|].
  transitivity (a / 2 ^ s); [|exact Hlow].
  apply Z.div_le_lower_bound; [lia|]. rewrite Z.mul_comm, <- Hsplit.
  apply Z.log2_spec. lia.
Qed.

Lemma round_units_mono (a b : Z) :
  0 <= a -> a <= b -> round_units a <= round_units b.
Proof.
  intros Ha Hab.
  destruct (Z.eq_dec a 0) as [->|Hne].
  - destruct (Z.eq_dec b 0) as [->|Hb]; [lia|].
    transitivity (2 ^ Z.log2 b); [|apply round_units_lower; lia].
    change (round_units 0) with 0. apply Z.pow_nonneg. lia.
  - pose proof (Z.log2_le_mono a b Hab) as Hl.
    destruct (Z.eq_dec (Z.max 0 (Z.log2 a - 52)) (Z.max 0 (Z.log2 b - 52)))
      as [Hs|Hs].
    + unfold round_units. rewrite <- Hs.
      apply Z.mul_le_mono_nonneg_r; [apply Z.pow_nonneg; lia|].
      apply round_half_even_mono; lia.
    + transitivity (2 ^ (Z.log2 a + 1)); [apply round_units_upper; lia|].
      transitivity (2 ^ Z.log2 b); [|apply round_units_lower; lia].
      apply Z.pow_le_mono_r; lia.
Qed.

Lemma round_units_nonneg (a : Z) : 0 <= a -> 0 <= round_units a.
Proof.
  intros Ha. change 0 with (round_units 0) at 1. now apply round_units_mono.
Qed.

Lemma fround_mono (d d' : Z) : d <= d' -> fround d <= fround d'.
Proof.
  intros Hd. unfold fround.
  destruct (Z.lt_trichotomy d 0) as [Hn|[->|Hp]];
    destruct (Z.lt_trichotomy d' 0) as [Hn'|[->|Hp']]; try lia.
  - rewrite !Z.sgn_neg by lia.
    pose proof (round_units_mono (Z.abs d') (Z.abs d) ltac:(lia) ltac:(lia)). lia.
  - rewrite Z.sgn_neg by lia. pose proof (round_units_nonneg (Z.abs d) ltac:(lia)).
    change (Z.sgn 0) with 0. lia.
  - rewrite Z.sgn_neg, Z.sgn_pos by lia.
    pose proof (round_units_nonneg (Z.abs d) ltac:(lia)).
    pose proof (round_units_nonneg (Z.abs d') ltac:(lia)). lia.
  - rewrite (Z.sgn_pos d') by lia.
    pose proof (round_units_nonneg (Z.abs d') ltac:(lia)).
    change (Z.sgn 0) with 0. lia.
  - rewrite !Z.sgn_pos by lia.
    pose proof (round_units_mono (Z.abs d) (Z.abs d') ltac:(lia) ltac:(lia)). lia.
Qed.

Lemma fsub_gt_mono (x x' c n : Z) :
  x <= x' -> double_gt_int (fsub x c) n = true ->
  double_gt_int (fsub x' c) n = true.
Proof.
  intros Hx. unfold fsub.
  pose proof (fround_mono (x - c) (x' - c) ltac:(lia)) as Hr.
  set (r := fround (x - c)) in *. set (r' := fround (x' - c)) in *.
  assert (Hbig : 0 < 2 ^ 2098) by (apply Z.pow_pos_nonneg; lia).
  generalize dependent (2 ^ 2098). intros big Hbig.
  destruct (big <=? Z.abs r) eqn:H1; destruct (big <=? Z.abs r') eqn:H2;
    simpl; rewrite ?negb_true_iff, ?Z.ltb_lt, ?Z.ltb_ge, ?Z.leb_le, ?Z.leb_gt in *;
    lia.
Qed.



End Doubles.

(* ===================================================================== *)
(** * Retention: the cleanup sweep of the task manager *)
(* ===================================================================== *)

Section Retention.
Context (env : Env).

Lemma lookup_fold_delete (ids : list str) (m : gmap str Task) (k : str) :
  fold_left (fun m tid => delete tid m) ids m !! k =
  if decide (k ∈ ids) then None else m !! k.
Proof.
  revert m. induction ids as [|i ids IH]; intros m; simpl.
  - destruct (decide (k ∈ [])) as [H|_]; [inversion H|reflexivity].
  - rewrite IH.
    destruct (decide (k ∈ ids)) as [Hin|Hnin].
    + rewrite decide_True; [reflexivity|now right].
    + destruct (decide (k = i)) as [->|Hne].
      * rewrite decide_True by left. apply lookup_delete_eq.
      * rewrite decide_False.
        -- now apply lookup_delete_ne.
        -- intros H. apply elem_of_cons in H as [?|?]; contradiction.
Qed.

(** The ids the sweep collects are those of the expired entries. *)
Lemma expired_ids_spec (now : Z) (m : gmap str Task) (k : str) :
  k ∈ map fst (filter (fun kv => is_expired env now (snd kv) = true)
                      (map_to_list m))
  <-> exists task, m !! k = Some task /\ is_expired env now task = true.
Proof.
  rewrite list_elem_of_In, in_map_iff. split.
  - intros ([k' task] & <- & Hin). apply list_elem_of_In in Hin.
    apply list_elem_of_filter in Hin as [Hexp Hin].
    apply elem_of_map_to_list in Hin. eauto.
  - intros (task & Hk & Hexp). exists (k, task). split; [reflexivity|].
    apply list_elem_of_In, list_elem_of_filter. split; [exact Hexp|].
    now apply elem_of_map_to_list.
Qed.

(** The registry after a sweep: the expired entries are gone, the others
    are as they were. *)
Lemma cleanup_old_jobs_tasks (now : Z) (s : ManagerState) (k : str) :
  fst (cleanup_old_jobs env now s) = Ok tt /\
  _tasks (snd (cleanup_old_jobs env now s)) !! k =
  match _tasks s !! k with
  | Some task => if is_expired env now task then None else Some task
  | None => None
  end.
Proof.
  unfold cleanup_old_jobs. simpl. unfold gets, modify. simpl.
  set (ids := map fst (filter _ (map_to_list (_tasks s)))).
  assert (Hlook : fold_left (fun m tid => delete tid m) ids (_tasks s) !! k =
                  match _tasks s !! k with
                  | Some task => if is_expired env now task then None else Some task
                  | None => None
                  end).
  { rewrite lookup_fold_delete. subst ids.
    destruct (decide _) as [Hin|Hnin].
    - apply expired_ids_spec in Hin as (task & -> & ->). reflexivity.
    - destruct (_tasks s !! k) as [task|] eqn:Hk; [|reflexivity].
      destruct (is_expired env now task) eqn:Hexp; [|reflexivity].
      exfalso. apply Hnin, expired_ids_spec. eauto. }
  destruct ids; simpl; (split; [reflexivity|exact Hlook]).
Qed.


End Retention.

(** A job created at [0.1] and swept at [86400.1], the window being
    86400 seconds: the exact age of the job exceeds the window, the
    difference of the two doubles is 86400 exactly, and the job is
    kept. *)
Lemma job_past_the_window_is_kept :
  let env := example_env ∅ decoder_ok in
  is_double tenth = true /\ is_double day_and_tenth = true /\
  JOB_RETENTION_SECONDS (settings env) = 86400%Z /\
  early_registry.(_tasks) !! U "early" = Some early_task /\
  (seconds 86400 < day_and_tenth - created_at (task_job early_task))%Z /\
  fst (get_job (U "early")
               (snd (cleanup_old_jobs env day_and_tenth early_registry)))
  = Ok (Some (task_job early_task)).
Proof.
  vm_compute. repeat split; reflexivity.
Qed.


(* ===================================================================== *)
(** * The cache index: save, then look up *)
(* ===================================================================== *)

Section CacheIndex.



(** A lookup reads the folder from the index row and nothing from the
    settings: with the store reachable, a row with a non-empty folder and
    the file present, it returns the path under that folder. *)
Lemma get_data_path_hit (env : Env) (self : DataManager) (key folder : str)
  (w : World) :
  db_up env = true ->
  video_index w !! key = Some folder ->
  folder <> [] ->
  is_Some (files w !! div (div (base_dir self) folder) (key ++ U ".json")) ->
  get_data_path env self key w =
    (Ok (Some (div (div (base_dir self) folder) (key ++ U ".json"))), w).
Proof.
  intros Hdb Hrow Hne Hfile.
  unfold get_data_path, try_except, select_file_id. rewrite Hdb. simpl.
  unfold gets. rewrite Hrow. simpl.
  destruct folder as [|c folder]; [congruence|]. simpl.
  rewrite bool_decide_true by exact Hfile. reflexivity.
Qed.


(** C2 at a remapping table that gives the author the empty folder name:
    the save succeeds and writes the document, the index row is there,
    and the lookup that follows returns [None]. *)
Theorem lookup_misses_empty_folder :
  let env := example_env names_empty decoder_ok in
  let saved := save_new_data env example_manager mock_key mock_data
                             empty_world in
  let path := of_str (U "data/json/73105678912345.json") in
  fst saved = Ok path /\
  files (snd saved) !! path = Some (FJson mock_data) /\
  video_index (snd saved) !! mock_key = Some [] /\
  fst (get_data_path env example_manager mock_key (snd saved)) = Ok None.
Proof. cbv zeta. repeat split; vm_compute; reflexivity. Qed.

(** The scenario of the specification: with author 10086 named Alice, the
    document is cached under [Alice], and a lookup made after the table
    has changed still finds it there. *)
Lemma save_then_lookup_alice :
  let env := example_env names_alice decoder_ok in
  let env' := example_env names_empty decoder_ok in
  let saved := save_new_data env example_manager mock_key mock_data
                             empty_world in
  let path := of_str (U "data/json/Alice/73105678912345.json") in
  fst saved = Ok path /\
  fst (get_data_path env' example_manager mock_key (snd saved)) = Ok (Some path).
Proof. cbv zeta. split; vm_compute; reflexivity. Qed.

End CacheIndex.

(* ===================================================================== *)
(** * The task boundary *)
(* ===================================================================== *)

Section TaskRuns.
Context (repr : exn -> str).
Context (dl : str -> M (list Path)) (tr : Path -> M str).

Lemma set_message_eq (c : MessageCode) (s : TaskState) :
  set_message c s =
    (Ok tt, mkTaskState (with_message c (job s)) (world s) (transcribed s)).
Proof. destruct c; reflexivity. Qed.

Lemma fail_eq (code : ErrorCode) (mc : MessageCode) (exc : option exn)
  (s : TaskState) :
  fail repr code mc exc s =
    (Ok tt, mkTaskState
              (failed_with code mc
                 (match exc with Some e => Some (repr e) | None => None end)
                 (job s))
              (world s) (transcribed s)).
Proof. destruct mc; reflexivity. Qed.

Lemma failed_with_failed_as code mc detail j :
  failed_as code detail (failed_with code mc detail j).
Proof.
  unfold failed_as, failed_with. simpl. repeat split.
  exists mc. destruct mc; split; reflexivity.
Qed.

Lemma DownloadTask_run_eq vid s :
  DownloadTask_run repr dl vid s = (Ok tt, DownloadTask_final repr dl vid s).
Proof.
  unfold DownloadTask_run, DownloadTask_final, try_except. simpl.
  unfold lift. simpl.
  destruct (dl vid (world s)) as [[files|e] w1]; simpl.
  - destruct files; reflexivity.
  - reflexivity.
Qed.

(** The loop hands to the transcriber the first video file and nothing
    else. *)
Lemma transcribe_loop_eq (files : list Path) (s : TaskState) :
  transcribe_loop repr tr files s =
  match find is_video_file files with
  | None => (Ok (Some []), s)
  | Some p =>
      match tr p (world s) with
      | (Ok text, w1) =>
          (Ok (Some text), mkTaskState (job s) w1 (p :: transcribed s))
      | (Raise e, w1) =>
          (Ok None,
           mkTaskState (failed_with TRANSCRIBE_FAILED MC_TRANSCRIBE_FAILED
                                    (Some (repr e)) (job s))
                       (with_log ERROR (EvTranscribeError (task_id (job s))) w1)
                       (p :: transcribed s))
      end
  end.
Proof.
  induction files as [|f files IH]; simpl; [reflexivity|].
  destruct (is_video_file f) eqn:Hf; [|exact IH].
  unfold try_except, note_transcribed, lift. simpl.
  destruct (tr f (world s)) as [[text|e] w1]; reflexivity.
Qed.

Lemma DownloadAndTranscribeTask_run_eq vid s :
  DownloadAndTranscribeTask_run repr dl tr vid s =
    (Ok tt, DownloadAndTranscribeTask_final repr dl tr vid s).
Proof.
  unfold DownloadAndTranscribeTask_run, DownloadAndTranscribeTask_final,
    try_except.
  simpl. unfold lift. simpl.
  destruct (dl vid (world s)) as [[files|e] w1]; simpl; [|reflexivity].
  destruct files as [|f files]; [reflexivity|].
  rewrite transcribe_loop_eq. unfold transcription_final.
  destruct (find is_video_file (f :: files)) as [p|]; simpl; [|reflexivity].
  destruct (tr p w1) as [[text|e] w2]; simpl; [|reflexivity].
  destruct text; reflexivity.
Qed.

Lemma find_is_first {A} (P : A -> bool) (l : list A) (x : A) :
  find P l = Some x ->
  exists before after,
    l = before ++ x :: after /\ P x = true /\
    Forall (fun y => P y = false) before.
Proof.
  induction l as [|y l IH]; simpl; [discriminate|].
  destruct (P y) eqn:Hy.
  - intros [= ->]. exists [], l. auto.
  - intros H. destruct (IH H) as (before & after & -> & Hx & Hall).
    exists (y :: before), after. auto.
Qed.

(** C3: for both task variants, whatever the collaborators do, [run]
    returns without raising, and the job it leaves is decided by what
    they did.  An exception of the download is captured under
    INTERNAL_ERROR with its [repr] as detail.  An empty download fails
    the job under DOWNLOAD_FAILED (DownloadTask) or NO_VIDEO_FOUND (the
    composite task), without detail.  In the composite task a download
    with no video file fails it under TRANSCRIBE_EMPTY, an exception of
    the transcriber under TRANSCRIBE_FAILED with its [repr] as detail,
    an empty transcript under TRANSCRIBE_EMPTY.  The job is Completed,
    with the files or the transcript as result, on the remaining paths
    only.  Every failure is a structured error: a code, the human
    message of the job, and a detail that is absent or the [repr] of an
    exception. *)
Theorem run_captures_every_failure (vid : str) (run : T unit)
  (s : TaskState) :
  is_task_run repr dl tr vid run ->
  exists s',
    run s = (Ok tt, s') /\
    (status (job s') = COMPLETED \/
     exists code detail,
       failed_as code detail (job s') /\
       (detail = None \/ exists e, detail = Some (repr e))) /\
    (forall e w1, dl vid (world s) = (Raise e, w1) ->
                  failed_as INTERNAL_ERROR (Some (repr e)) (job s')) /\
    (run = DownloadTask_run repr dl vid ->
     forall files w1, dl vid (world s) = (Ok files, w1) ->
       match files with
       | [] => failed_as DOWNLOAD_FAILED None (job s')
       | _ :: _ =>
           status (job s') = COMPLETED /\
           result (job s') = Some (ResultFiles (map to_str files))
       end) /\
    (run = DownloadAndTranscribeTask_run repr dl tr vid ->
     forall files w1, dl vid (world s) = (Ok files, w1) ->
       match files, find is_video_file files with
       | [], _ => failed_as NO_VIDEO_FOUND None (job s')
       | _ :: _, None => failed_as TRANSCRIBE_EMPTY None (job s')
       | _ :: _, Some p =>
           match tr p w1 with
           | (Raise e, _) =>
               failed_as TRANSCRIBE_FAILED (Some (repr e)) (job s')
           | (Ok [], _) => failed_as TRANSCRIBE_EMPTY None (job s')
           | (Ok text, _) =>
               status (job s') = COMPLETED /\
               result (job s') = Some (ResultText text)
           end
       end).
Proof.
  intros Hrun. exists (snd (run s)).
  assert (Hsimple : run = DownloadTask_run repr dl vid ->
                    run s = (Ok tt, DownloadTask_final repr dl vid s)).
  { intros ->. apply DownloadTask_run_eq. }
  assert (Hcomposite :
            run = DownloadAndTranscribeTask_run repr dl tr vid ->
            run s = (Ok tt, DownloadAndTranscribeTask_final repr dl tr vid s)).
  { intros ->. apply DownloadAndTranscribeTask_run_eq. }
  split; [|split; [|split; [|split]]].
  - destruct Hrun as [H|H]; [rewrite (Hsimple H)|rewrite (Hcomposite H)];
      reflexivity.
  - destruct Hrun as [H|H]; [rewrite (Hsimple H)|rewrite (Hcomposite H)];
      cbn [snd].
    + unfold DownloadTask_final.
      destruct (dl vid (world s)) as [[files|e] w1]; simpl.
      * destruct files; [right|left; reflexivity].
        eexists _, _. split; [apply failed_with_failed_as|auto].
      * right. eexists _, _. split; [apply failed_with_failed_as|eauto].
    + unfold DownloadAndTranscribeTask_final.
      destruct (dl vid (world s)) as [[files|e] w1]; simpl.
      * destruct files as [|f files].
        { right. eexists _, _. split; [apply failed_with_failed_as|auto]. }
        unfold transcription_final.
        destruct (find is_video_file (f :: files)) as [p|]; simpl.
        -- destruct (tr p w1) as [[text|e] w2]; simpl.
           ++ destruct text; [right|left; reflexivity].
              eexists _, _. split; [apply failed_with_failed_as|auto].
           ++ right. eexists _, _.
              split; [apply failed_with_failed_as|eauto].
        -- right. eexists _, _. split; [apply failed_with_failed_as|auto].
      * right. eexists _, _. split; [apply failed_with_failed_as|eauto].
  - intros e w1 Hdl.
    destruct Hrun as [H|H]; [rewrite (Hsimple H)|rewrite (Hcomposite H)];
      cbn [snd];
      unfold DownloadTask_final, DownloadAndTranscribeTask_final;
      rewrite Hdl; apply failed_with_failed_as.
  - intros H files w1 Hdl. rewrite (Hsimple H). cbn [snd].
    unfold DownloadTask_final. rewrite Hdl.
    destruct files; [apply failed_with_failed_as|split; reflexivity].
  - intros H files w1 Hdl. rewrite (Hcomposite H). cbn [snd].
    unfold DownloadAndTranscribeTask_final. rewrite Hdl.
    destruct files as [|f files]; [apply failed_with_failed_as|].
    unfold transcription_final. cbn [world job].
    destruct (find is_video_file (f :: files)) as [p|];
      [|apply failed_with_failed_as].
    destruct (tr p w1) as [[text|e] w2]; [|apply failed_with_failed_as].
    destruct text; [apply failed_with_failed_as|split; reflexivity].
Qed.


End TaskRuns.

Lemma run_captures_every_failure_witness :
  exists s',
    DownloadTask_run example_repr raising_download (U "hello")
                     example_task_state = (Ok tt, s') /\
    failed_as INTERNAL_ERROR (Some (U "boom")) (job s').
Proof.
  destruct (run_captures_every_failure example_repr raising_download
              silent_transcriber (U "hello")
              (DownloadTask_run example_repr raising_download (U "hello"))
              example_task_state (or_introl eq_refl))
    as (s' & Hrun & _ & Hraise & _).
  exists s'. split; [exact Hrun|].
  exact (Hraise (ExternalError (U "boom")) empty_world eq_refl).
Defined.

(** C10, as stated, fails on a file named [CLIP.MP4]: its suffix is none
    of .mp4, .mov and .mkv, yet the loop lower-cases it, the transcriber
    runs on the file (it leaves the transcript next to it) and the job
    ends Completed, not Failed under TRANSCRIBE_EMPTY. *)
Lemma upper_case_suffix_is_transcribed :
  let env := example_env ∅ decoder_ok in
  let s' := snd (DownloadAndTranscribeTask_run example_repr found_loud_clip
                   (transcribe env example_asr) (U "hello")
                   (task_state_in loud_world)) in
  fst (found_loud_clip (U "hello") loud_world) = Ok [loud_clip] /\
  suffix loud_clip = U ".MP4" /\
  (suffix loud_clip ∉ [U ".mp4"; U ".mov"; U ".mkv"]) /\
  files loud_world !! loud_clip_text = None /\
  files (world s') !! loud_clip_text
    = Some (FBytes [104; 101; 108; 108; 111]%N) /\
  status (job s') = COMPLETED /\
  result (job s') = Some (ResultText (U "hello")) /\
  ~ (exists detail, failed_as TRANSCRIBE_EMPTY detail (job s')).
Proof.
  cbv zeta. split; [reflexivity|]. split; [vm_compute; reflexivity|].
  split; [apply (proj1 (bool_decide_eq_false _)); vm_compute; reflexivity|].
  split; [vm_compute; reflexivity|].
  split; [vm_compute; reflexivity|].
  split; [vm_compute; reflexivity|].
  split; [vm_compute; reflexivity|].
  intros (detail & Hst & _). vm_compute in Hst. discriminate.
Qed.


(* ===================================================================== *)
(** * What a computation leaves untouched *)
(* ===================================================================== *)

Section Frames.
Context (R : World -> World -> Prop) `{!PreOrder R}.

Lemma keeps_ret {A} (a : A) : keeps R (ret a : M A).
Proof. intros w r w' [= _ <-]. reflexivity. Qed.

Lemma keeps_raise {A} (e : exn) : keeps R (raise e : M A).
Proof. intros w r w' [= _ <-]. reflexivity. Qed.

Lemma keeps_of_res {A} (x : res A) : keeps R (of_res x : M A).
Proof. intros w r w' [= _ <-]. reflexivity. Qed.

Lemma keeps_gets {A} (f : World -> A) : keeps R (gets f).
Proof. intros w r w' [= _ <-]. reflexivity. Qed.

Lemma keeps_modify (f : World -> World) :
  (forall w, R w (f w)) -> keeps R (modify f).
Proof. intros Hf w r w' [= _ <-]. apply Hf. Qed.

Lemma keeps_bind {A B} (m : M A) (k : A -> M B) :
  keeps R m -> (forall a, keeps R (k a)) -> keeps R (bind m k).
Proof.
  intros Hm Hk w r w'. simpl.
  destruct (m w) as [[a|e] w1] eqn:Hmw.
  - intros Hka. transitivity w1; [eapply Hm|eapply Hk]; eassumption.
  - intros [= _ <-]. eapply Hm; eassumption.
Qed.

Lemma keeps_try_except {A} (m : M A) (h : exn -> M A) :
  keeps R m -> (forall e, keeps R (h e)) -> keeps R (try_except m h).
Proof.
  intros Hm Hh w r w'. unfold try_except.
  destruct (m w) as [[a|e] w1] eqn:Hmw.
  - intros [= _ <-]. eapply Hm; eassumption.
  - intros Hhe. transitivity w1; [eapply Hm|eapply Hh]; eassumption.
Qed.

Lemma keeps_capture {A} (m : M A) : keeps R m -> keeps R (capture m).
Proof.
  intros Hm w r w'. unfold capture.
  destruct (m w) as [r1 w1] eqn:Hmw. intros [= _ <-].
  eapply Hm; eassumption.
Qed.

End Frames.

Ltac frame_step :=
  first
    [ apply keeps_ret | apply keeps_raise | apply keeps_of_res
    | apply keeps_gets
    | apply keeps_capture
    | apply keeps_bind; [..|intros ?]
    | apply keeps_try_except; [..|intros ?]
    | match goal with
      | |- PreOrder _ => typeclasses eauto
      | |- keeps _ (match ?x with _ => _ end) => destruct x
      end
    | solve [auto with frames] ].

Ltac frame := repeat frame_step.

#[global] Instance requests_grow_preorder : PreOrder requests_grow.
Proof.
  split.
  - intros w. now exists [].
  - intros w1 w2 w3 [l1 H1] [l2 H2]. exists (l2 ++ l1).
    now rewrite H2, H1, app_assoc.
Qed.

#[global] Instance same_downloads_preorder : PreOrder same_downloads.
Proof.
  split.
  - intros w. reflexivity.
  - intros w1 w2 w3 H1 H2. unfold same_downloads in *. congruence.
Qed.

Lemma keeps_log_grow l e : keeps requests_grow (log l e).
Proof. apply keeps_modify. intros w. now exists []. Qed.
Lemma keeps_log_same l e : keeps same_downloads (log l e).
Proof. apply keeps_modify. intros w. reflexivity. Qed.
Lemma keeps_unlink_grow p : keeps requests_grow (unlink p).
Proof. apply keeps_modify. intros w. now exists []. Qed.
Lemma keeps_unlink_same p : keeps same_downloads (unlink p).
Proof. apply keeps_modify. intros w. reflexivity. Qed.
Lemma keeps_send_grow r : keeps requests_grow (send r).
Proof. apply keeps_modify. intros w. now exists [r]. Qed.
Lemma keeps_send_api_same u p : keeps same_downloads (send (ReqApi u p)).
Proof. apply keeps_modify. intros w. reflexivity. Qed.
Lemma keeps_write_grow env p d : keeps requests_grow (write_file env p d).
Proof.
  intros w r w'. unfold write_file. destruct (writable env p); intros [= _ <-];
    now exists [].
Qed.
Lemma keeps_write_same env p d : keeps same_downloads (write_file env p d).
Proof.
  intros w r w'. unfold write_file. destruct (writable env p); intros [= _ <-];
    reflexivity.
Qed.
Lemma keeps_path_exists R `{!PreOrder R} p : keeps R (path_exists p).
Proof. apply keeps_gets; assumption. Qed.
Lemma keeps_read_file R `{!PreOrder R} p : keeps R (read_file p).
Proof. apply keeps_gets; assumption. Qed.

Lemma keeps_select R `{!PreOrder R} env key : keeps R (select_file_id env key).
Proof. unfold select_file_id. destruct (db_up env); frame. Qed.
Lemma keeps_upsert_grow env key folder : keeps requests_grow (upsert env key folder).
Proof.
  unfold upsert. destruct (db_up env); [|frame].
  destruct (varchar255 key); [|frame]. destruct (varchar255 folder); [|frame].
  apply keeps_modify. intros w. now exists [].
Qed.
Lemma keeps_upsert_same env key folder : keeps same_downloads (upsert env key folder).
Proof.
  unfold upsert. destruct (db_up env); [|frame].
  destruct (varchar255 key); [|frame]. destruct (varchar255 folder); [|frame].
  apply keeps_modify. intros w. reflexivity.
Qed.

Create HintDb frames.
#[global] Hint Resolve keeps_log_grow keeps_log_same keeps_unlink_grow
  keeps_unlink_same keeps_send_grow keeps_send_api_same keeps_write_grow
  keeps_write_same keeps_path_exists keeps_read_file keeps_select
  keeps_upsert_grow keeps_upsert_same requests_grow_preorder
  same_downloads_preorder : frames.

Lemma keeps_json_dump_grow env p d : keeps requests_grow (json_dump env p d).
Proof. unfold json_dump. frame. Qed.
Lemma keeps_json_dump_same env p d : keeps same_downloads (json_dump env p d).
Proof. unfold json_dump. frame. Qed.

#[global] Hint Resolve keeps_json_dump_grow keeps_json_dump_same : frames.


Section FrameFacts.
Context (env : Env).

Lemma keeps_get_data_path R `{!PreOrder R} self key :
  (forall l e, keeps R (log l e)) -> keeps R (get_data_path env self key).
Proof. intros Hlog. unfold get_data_path. frame. Qed.

Lemma keeps_save_same self key doc :
  keeps same_downloads (save_new_data env self key doc).
Proof. unfold save_new_data, folder_name_of. frame. Qed.



Lemma keeps_heic_to_jpg_grow p : keeps requests_grow (heic_to_jpg env p).
Proof. unfold heic_to_jpg. frame. Qed.

Lemma keeps_download_file_grow url p :
  keeps requests_grow (_download_file env url p).
Proof. unfold _download_file, http_get, heic_to_jpg. frame. Qed.


End FrameFacts.

(* ===================================================================== *)
(** * Retrieval: from the document to the files *)
(* ===================================================================== *)

Section Retrieval.
Context (env : Env) (self : DouyinDownloader).

(** Once the document is at hand, [download] is its routing step under
    the top-level handler. *)
Lemma download_resolved (text : str) (w : World) (key : str)
  (detail : json) (w1 : World) :
  resolves_to env self text w key detail w1 ->
  download env self text w =
    match dispatch env key detail w1 with
    | (Ok found, w2) => (Ok found, w2)
    | (Raise e, w2) => (Ok [], after_swallowed text e w2)
    end.
Proof.
  intros (api_url & params & data & payload & Hp & Hf & Hd & Ha & Ht).
  unfold download, try_except, of_res. simpl.
  rewrite Hp. simpl. rewrite Hf. rewrite Hd. simpl. rewrite Ha. simpl.
  rewrite Ht. simpl.
  destruct (dispatch env key detail w1) as [[found|e] w2]; reflexivity.
Qed.


Lemma single_video_no_mirror (detail : json) (urls : json) :
  video_url_list detail = Ok urls -> truthy urls = false ->
  exists e, single_video_tasks env detail = Raise e /\
            (e = ValueError_no_play_addr \/
             _extract_metadata env detail = Raise e).
Proof.
  intros Hu Hf. unfold single_video_tasks.
  destruct (_extract_metadata env detail) as [[author_name desc]|e] eqn:Hm;
    simpl.
  - rewrite Hu. simpl. rewrite Hf. simpl. eauto.
  - eauto.
Qed.

Lemma dispatch_single_video_raises key detail mt e w1 :
  route detail = Ok (mt, SingleVideo) ->
  single_video_tasks env detail = Raise e ->
  dispatch env key detail w1 =
    (Raise e, with_log INFO (EvProcessing key mt) w1).
Proof.
  intros Hr Hs. unfold dispatch, _process_single_video, of_res. simpl.
  rewrite Hr. simpl. rewrite Hs. reflexivity.
Qed.

(** C7: for a document routed to the single-video strategy whose video
    mirror list is empty, retrieval yields no file: [_process_single_video]
    raises before any pair is downloaded, [download] logs the exception
    and returns the empty list, no request is sent and no file written
    once the document is at hand, and the job of a [DownloadTask] run on
    that input ends Failed under DOWNLOAD_FAILED. *)
Theorem empty_mirror_list_fails_the_job (repr : exn -> str) (text : str)
  (s : TaskState) (key : str) (detail mt : json) (w1 : World) :
  resolves_to env self text (world s) key detail w1 ->
  route detail = Ok (mt, SingleVideo) ->
  video_url_list detail = Ok (JArr []) ->
  exists e w2 s',
    download env self text (world s) = (Ok [], w2) /\
    (e = ValueError_no_play_addr \/ _extract_metadata env detail = Raise e) /\
    In (ERROR, EvDownloadException text e) (logs w2) /\
    files w2 = files w1 /\ requests w2 = requests w1 /\
    DownloadTask_run repr (download env self) text s = (Ok tt, s') /\
    failed_as DOWNLOAD_FAILED None (job s').
Proof.
  intros Hres Hroute Hurls.
  destruct (single_video_no_mirror detail (JArr []) Hurls eq_refl)
    as (e & Htasks & He).
  pose proof (download_resolved text (world s) key detail w1 Hres) as Hd.
  rewrite (dispatch_single_video_raises key detail mt e w1 Hroute Htasks) in Hd.
  exists e. eexists. eexists. split; [exact Hd|].
  split; [exact He|]. split; [simpl; auto|].
  split; [reflexivity|]. split; [reflexivity|].
  rewrite DownloadTask_run_eq. split; [reflexivity|].
  unfold DownloadTask_final. rewrite Hd. apply failed_with_failed_as.
Qed.

End Retrieval.

(** Steps 1 and 2 of [download] on a warm cache, by evaluation. *)
Ltac resolve_cached detail :=
  exists (id_api_url (example_settings ∅)),
         (JObj [(U "aweme_id", JStr example_id)]),
         (response_with detail),
         (JObj [(U "aweme_detail", detail)]);
  repeat split; vm_compute; reflexivity.

Lemma empty_mirror_list_fails_the_job_witness :
  exists s',
    DownloadTask_run example_repr
      (download (example_env ∅ decoder_ok) example_downloader) example_id
      (task_state_in (cached_world video_without_mirrors ∅)) = (Ok tt, s') /\
    failed_as DOWNLOAD_FAILED None (job s').
Proof.
  assert (Hres : resolves_to (example_env ∅ decoder_ok) example_downloader
                   example_id
                   (world (task_state_in (cached_world video_without_mirrors ∅)))
                   example_id video_without_mirrors
                   (with_log INFO (EvCacheHit example_cache_path)
                      (cached_world video_without_mirrors ∅))).
  { resolve_cached video_without_mirrors. }
  destruct (empty_mirror_list_fails_the_job
              (example_env ∅ decoder_ok) example_downloader example_repr
              example_id (task_state_in (cached_world video_without_mirrors ∅))
              example_id video_without_mirrors (JInt 4) _ Hres
              eq_refl eq_refl)
    as (e & w2 & s' & _ & _ & _ & _ & _ & Hrun & Hfailed).
  exists s'. split; assumption.
Defined.

(* ===================================================================== *)
(** * Destinations already on disk *)
(* ===================================================================== *)

Lemma quiet_trans (w1 w2 w3 : World) : quiet w1 w2 -> quiet w2 w3 -> quiet w1 w3.
Proof.
  intros (Hf1 & Hi1 & Hr1) (Hf2 & Hi2 & Hr2). repeat split; congruence.
Qed.

#[global] Instance quiet_preorder : PreOrder quiet.
Proof.
  split.
  - intros w. repeat split.
  - exact quiet_trans.
Qed.

Lemma keeps_log_quiet l e : keeps quiet (log l e).
Proof. apply keeps_modify. intros w. repeat split. Qed.

#[global] Hint Resolve quiet_preorder keeps_log_quiet : frames.

Section Rerun.
Context (env : Env).

Lemma is_heic_name (p : Path) : is_heic p = true -> name p <> [].
Proof.
  unfold is_heic, suffix. intros H Hn. rewrite Hn in H. discriminate.
Qed.

Lemma with_suffix_heic (p : Path) :
  is_heic p = true -> exists j, with_suffix p jpg = Ok j.
Proof.
  intros H. apply is_heic_name in H. unfold with_suffix.
  destruct (name p); [congruence|eauto].
Qed.






Lemma batch_download_unfold (pairs : list (json * Path)) (w : World) :
  pairs <> [] ->
  _batch_download env pairs w =
  match gather (map (fun t => _download_with_retry env (fst t) (snd t)) pairs) w
  with
  | (Ok results, w1) =>
      match report_failures (zip (map snd pairs) results) w1 with
      | (Ok _, w2) => existing (map snd pairs) w2
      | (Raise e, w2) => (Raise e, w2)
      end
  | (Raise e, w1) => (Raise e, w1)
  end.
Proof. destruct pairs; [congruence|reflexivity]. Qed.













End Rerun.

(* ===================================================================== *)
(** * Running a job again *)
(* ===================================================================== *)

Section RerunJob.
Context (env : Env) (self : DouyinDownloader).


End RerunJob.


(* ===================================================================== *)
(** * HEIC files and their conversion *)
(* ===================================================================== *)

Section PathFacts.

Lemma split_on_no_sep (sep : N) (s : str) :
  sep ∉ s -> split_on sep s = [s].
Proof.
  induction s as [|c s IH]; intros Hs; simpl; [reflexivity|].
  apply not_elem_of_cons in Hs as [Hc Hs].
  destruct (N.eqb_spec c sep) as [->|_]; [congruence|].
  now rewrite IH.
Qed.

(** Appending text without a separator only lengthens the last field. *)
Lemma split_on_app_last (sep : N) (a b : str) :
  sep ∉ b ->
  exists init seg,
    split_on sep a = init ++ [seg] /\
    split_on sep (a ++ b) = init ++ [seg ++ b].
Proof.
  intros Hb. induction a as [|c a (init & seg & Ha & Hab)].
  - exists [], []. split; [reflexivity|]. now apply split_on_no_sep.
  - simpl. destruct (c =? sep)%N.
    + exists ([] :: init), seg. rewrite Ha, Hab. split; reflexivity.
    + rewrite Ha, Hab. destruct init as [|h t]; simpl.
      * exists [], (c :: seg). split; reflexivity.
      * exists ((c :: h) :: t), seg. split; reflexivity.
Qed.

Lemma rfind_dot_app (a b : str) (i : nat) :
  rfind_dot b = Some i -> rfind_dot (a ++ b) = Some (length a + i)%nat.
Proof.
  intros Hb. induction a as [|c a IH]; simpl; [exact Hb|].
  now rewrite IH.
Qed.

(** The suffix of a name made of [seg] and an extension [ext] that starts
    with its only dot. *)
Lemma name_suffix_ext (seg ext : str) :
  rfind_dot ext = Some 0%nat -> (2 <= length ext)%nat ->
  name_suffix (seg ++ ext) = match seg with [] => [] | _ => ext end.
Proof.
  intros Hdot Hlen. unfold name_suffix.
  rewrite (rfind_dot_app seg ext 0 Hdot), Nat.add_0_r, length_app.
  destruct seg as [|c seg]; [reflexivity|].
  replace (0 <? length (c :: seg))%nat with true
    by (symmetry; apply Nat.ltb_lt; simpl; lia).
  replace (length (c :: seg) <? length (c :: seg) + length ext - 1)%nat
    with true by (symmetry; apply Nat.ltb_lt; lia).
  simpl andb. cbv iota. now rewrite drop_app_length.
Qed.

Lemma is_part_long (s : str) : (2 <= length s)%nat -> is_part s = true.
Proof.
  intros Hlen. unfold is_part, str_eqb.
  rewrite andb_true_iff, !negb_true_iff, !bool_decide_eq_false.
  split; intros ->; simpl in Hlen; lia.
Qed.

Lemma name_join_path (p q : Path) :
  parts q <> [] -> name (join_path p q) = name q.
Proof.
  intros Hq. unfold join_path, name.
  destruct (root q); [|reflexivity]. simpl.
  destruct (parts q) as [|x l] using rev_ind; [congruence|].
  now rewrite app_assoc, !last_last.
Qed.

(** The name of [d / s] when [s] ends in an extension without a slash:
    the last field of [s], which is [s] itself when it has no slash. *)
Lemma name_div_ext (d : Path) (a ext : str) :
  slash ∉ ext -> (2 <= length ext)%nat ->
  exists seg, name (div d (a ++ ext)) = seg ++ ext /\
              (slash ∉ a -> seg = a).
Proof.
  intros Hs Hlen.
  destruct (split_on_app_last slash a ext Hs) as (init & seg & Ha & Hab).
  exists seg.
  assert (Hpart : is_part (seg ++ ext) = true).
  { apply is_part_long. rewrite length_app. lia. }
  assert (Hparts : parts (of_str (a ++ ext)) =
                   filter (fun p => is_part p = true) init ++ [seg ++ ext]).
  { unfold of_str. simpl. rewrite Hab, filter_app.
    rewrite filter_cons_True by exact Hpart. reflexivity. }
  split.
  - unfold div. rewrite name_join_path.
    + unfold name. rewrite Hparts. apply last_last.
    + rewrite Hparts. intros H. now apply app_eq_nil in H as [_ [=]].
  - intros Hno. rewrite (split_on_no_sep slash a Hno) in Ha.
    destruct init as [|x init].
    + now injection Ha.
    + injection Ha as _ Ha. now destruct init.
Qed.



End PathFacts.

Section Converting.
Context (env : Env).


(** A mirror that does not answer leaves an absent destination absent. *)
Lemma download_file_fails (url : json) (p : Path) (w : World) :
  files w !! p = None ->
  match url with JStr u => http_body env u = None | _ => True end ->
  exists e w',
    _download_file env url p w = (Raise e, w') /\ files w' = files w.
Proof.
  intros Hp Hu. unfold _download_file, try_except, http_get.
  destruct url; simpl; try rewrite Hu; simpl; rewrite Hp;
    rewrite bool_decide_false by (intros [? [=]]); simpl;
    eexists _, _; split; reflexivity.
Qed.








End Converting.

Section GalleryNames.

Lemma digits_fuel_digits (fuel n : nat) (acc : str) :
  Forall (fun c => in_range 48 57 c = true) acc ->
  Forall (fun c => in_range 48 57 c = true) (digits_fuel fuel n acc).
Proof.
  revert n acc. induction fuel as [|fuel IH]; intros n acc Hacc;
    cbn [digits_fuel]; [exact Hacc|].
  assert (Hd : in_range 48 57 (48 + N.of_nat (n mod 10)) = true).
  { pose proof (Nat.mod_upper_bound n 10 ltac:(lia)) as Hlt.
    unfold in_range. apply andb_true_iff. split; apply N.leb_le; lia. }
  destruct (n / 10 =? 0)%nat; [|apply IH]; now constructor.
Qed.

Lemma format_02d_digits (n : nat) :
  Forall (fun c => in_range 48 57 c = true) (format_02d n).
Proof.
  unfold format_02d, str_of_nat.
  pose proof (digits_fuel_digits (S n) n [] (Forall_nil_2 _)) as Hd.
  destruct (_ <? 2)%nat; [constructor|]; [reflexivity|exact Hd|exact Hd].
Qed.

Lemma numbered_name_no_slash (prefix : str) (n : nat) :
  slash ∉ prefix -> slash ∉ prefix ++ format_02d n.
Proof.
  intros Hp Hin. apply elem_of_app in Hin as [Hin|Hin]; [contradiction|].
  pose proof (format_02d_digits n) as Hd. rewrite Forall_forall in Hd.
  specialize (Hd _ Hin). vm_compute in Hd. discriminate.
Qed.





End GalleryNames.

Section ConvertedGallery.
Context (env : Env) (self : DouyinDownloader).


End ConvertedGallery.



(** C5 at a gallery of two images, the first of which downloads and
    converts while the only mirror of the second fails: the first
    download succeeds, the second raises, the failure is logged and
    nothing is raised to the caller, but the list returned is empty,
    where the claim has the one successful destination. *)
Theorem batch_omits_converted_image :
  let env := example_env ∅ decoder_ok in
  let batch := [(a_url_list, image_01); (dead_url_list, image_02)] in
  let out := _batch_download env batch empty_world in
  fst (_download_with_retry env a_url_list image_01 empty_world) = Ok tt /\
  fst (_download_with_retry env dead_url_list image_02 empty_world)
    = Raise (ConnectionError_all_failed (U "image_02.heic")) /\
  fst out = Ok [] /\
  In (ERROR, EvBatchItemFailed (U "image_02.heic")
               (ConnectionError_all_failed (U "image_02.heic")))
     (logs (snd out)) /\
  is_Some (files (snd out) !! image_01_jpg) /\
  files (snd out) !! image_01 = None.
Proof.
  cbv zeta. repeat split; try (vm_compute; reflexivity).
  - vm_compute. auto.
  - vm_compute. eauto.
Qed.

(* ===================================================================== *)
(** * The batch where no conversion is involved *)
(* ===================================================================== *)

Section Resilience.
Context (env : Env).

Lemma download_file_plain (u : str) (p : Path) (body : bytes) (w : World) :
  is_heic p = false -> http_body env u = Some body -> writable env p = true ->
  exists w', _download_file env (JStr u) p w = (Ok tt, w') /\
             files w' = <[p := FBytes body]> (files w).
Proof.
  intros Hh Hb Hw.
  unfold _download_file, http_get, write_file, try_except.
  simpl. rewrite Hb. simpl. rewrite Hw. simpl. rewrite Hh.
  eexists. split; reflexivity.
Qed.

(** A mirror whose file cannot be written leaves an absent destination
    absent. *)
Lemma download_file_unwritable (url : json) (p : Path) (w : World) :
  files w !! p = None -> writable env p = false ->
  exists e w',
    _download_file env url p w = (Raise e, w') /\ files w' = files w.
Proof.
  intros Hp Hw. unfold _download_file, http_get, write_file, try_except.
  destruct url as [| | |u| |]; simpl;
    try (rewrite Hp; rewrite bool_decide_false by (intros [? [=]]); simpl;
         eexists _, _; split; reflexivity).
  destruct (http_body env u); simpl; try rewrite Hw; simpl; rewrite Hp;
    rewrite bool_decide_false by (intros [? [=]]); simpl;
    eexists _, _; split; reflexivity.
Qed.

Lemma try_links_step_failed (url : json) (links : list json) (i n : nat)
  (p : Path) (w : World) (e : exn) (w1 : World) :
  _download_file env url p (with_log INFO (EvTryLink (i + 1) n (name p)) w)
    = (Raise e, w1) ->
  try_links env (url :: links) i n p w =
  try_links env links (S i) n p
            (with_log WARNING (EvLinkFailed (i + 1) url e) w1).
Proof.
  intros Hrun. cbn [try_links]. unfold try_except. simpl.
  unfold with_log in Hrun. rewrite Hrun. reflexivity.
Qed.

Lemma try_links_step_done (url : json) (links : list json) (i n : nat)
  (p : Path) (w : World) (w1 : World) :
  _download_file env url p (with_log INFO (EvTryLink (i + 1) n (name p)) w)
    = (Ok tt, w1) ->
  try_links env (url :: links) i n p w = (Ok tt, w1).
Proof.
  intros Hrun. cbn [try_links]. unfold try_except. simpl.
  unfold with_log in Hrun. rewrite Hrun. reflexivity.
Qed.

(** With no mirror that answers, or a destination that cannot be written,
    the loop ends in the [ConnectionError] and the disk is as it was. *)
Lemma try_links_exhausted (links : list json) (i n : nat) (p : Path)
  (w : World) :
  writable env p = false \/ first_body env links = None ->
  files w !! p = None ->
  exists w',
    try_links env links i n p w
    = (Raise (ConnectionError_all_failed (name p)), w') /\
    files w' = files w.
Proof.
  revert i w. induction links as [|url links IH]; intros i w Hwhy Hp.
  - eexists. split; reflexivity.
  - assert (Hfail : exists e w1,
              _download_file env url p
                (with_log INFO (EvTryLink (i + 1) n (name p)) w) = (Raise e, w1)
              /\ files w1 = files w).
    { destruct Hwhy as [Hw|Hnone].
      - exact (download_file_unwritable url p
                 (with_log INFO (EvTryLink (i + 1) n (name p)) w) Hp Hw).
      - refine (download_file_fails env url p
                  (with_log INFO (EvTryLink (i + 1) n (name p)) w) Hp _).
        destruct url as [| | |u| |]; trivial. simpl in Hnone.
        destruct (http_body env u); [discriminate|reflexivity]. }
    destruct Hfail as (e & w1 & Hrun & Hfiles).
    rewrite (try_links_step_failed url links i n p w e w1 Hrun).
    destruct (IH (S i) (with_log WARNING (EvLinkFailed (i + 1) url e) w1))
      as (w' & Hloop & Hfiles').
    + destruct Hwhy as [Hw|Hnone]; [now left|right].
      destruct url as [| | |u| |]; trivial. simpl in Hnone.
      destruct (http_body env u); [discriminate|exact Hnone].
    + simpl. now rewrite Hfiles.
    + exists w'. split; [exact Hloop|]. rewrite Hfiles'. exact Hfiles.
Qed.

Lemma try_links_plain (links : list json) (i n : nat) (p : Path)
  (body : bytes) (w : World) :
  is_heic p = false -> writable env p = true ->
  first_body env links = Some body -> files w !! p = None ->
  exists w', try_links env links i n p w = (Ok tt, w') /\
             files w' = <[p := FBytes body]> (files w).
Proof.
  intros Hh Hw. revert i w.
  induction links as [|url links IH]; intros i w Hfirst Hp; [discriminate|].
  assert (Hnext : first_body env links = Some body ->
                  match url with
                  | JStr u => http_body env u = None
                  | _ => True
                  end ->
                  exists w', try_links env (url :: links) i n p w = (Ok tt, w')
                             /\ files w' = <[p := FBytes body]> (files w)).
  { intros Hrest Hu.
    destruct (download_file_fails env url p
                (with_log INFO (EvTryLink (i + 1) n (name p)) w) Hp Hu)
      as (e & w1 & Hrun & Hfiles).
    rewrite (try_links_step_failed url links i n p w e w1 Hrun).
    destruct (IH (S i) (with_log WARNING (EvLinkFailed (i + 1) url e) w1)
                 Hrest) as (w' & Hloop & Hfiles').
    { simpl. now rewrite Hfiles. }
    exists w'. split; [exact Hloop|]. rewrite Hfiles'. simpl.
    now rewrite Hfiles. }
  destruct url as [| | |u| |]; simpl in Hfirst;
    try (apply Hnext; [exact Hfirst|exact I]).
  destruct (http_body env u) as [b|] eqn:Hb;
    [|apply Hnext; [exact Hfirst|reflexivity]].
  injection Hfirst as ->.
  destruct (download_file_plain u p body
              (with_log INFO (EvTryLink (i + 1) n (name p)) w) Hh Hb Hw)
    as (w1 & Hrun & Hfiles).
  rewrite (try_links_step_done (JStr u) links i n p w w1 Hrun).
  exists w1. split; [reflexivity|exact Hfiles].
Qed.

(** The download of a pair whose destination is no HEIC file and is not
    on disk: it succeeds and writes the file when the pair answers, it
    raises and writes nothing when it does not. *)
Lemma download_with_retry_plain (t : json * Path) (w : World) :
  is_heic (snd t) = false -> files w !! snd t = None ->
  exists r w',
    _download_with_retry env (fst t) (snd t) w = (r, w') /\
    if answers env t
    then r = Ok tt /\ exists body, files w' = <[snd t := FBytes body]> (files w)
    else (exists e, r = Raise e) /\ files w' = files w.
Proof.
  destruct t as [urls p]. simpl. intros Hh Hp.
  unfold _download_with_retry, answers. simpl.
  rewrite Hp. rewrite bool_decide_false by (intros [? [=]]). simpl.
  destruct (truthy urls); simpl; [|eexists _, _; split; [reflexivity|eauto]].
  destruct (iter urls) as [links|e]; simpl;
    [|rewrite andb_false_r; eexists _, _; split; [reflexivity|eauto]].
  destruct (writable env p) eqn:Hw; simpl.
  - destruct (first_body env links) as [body|] eqn:Hfirst.
    + destruct (try_links_plain links 0 (length links) p body w Hh Hw Hfirst Hp)
        as (w' & Hloop & Hfiles).
      rewrite bool_decide_true by eauto.
      eexists _, _. split; [exact Hloop|]. eauto.
    + destruct (try_links_exhausted links 0 (length links) p w
                  (or_intror Hfirst) Hp) as (w' & Hloop & Hfiles).
      rewrite bool_decide_false by (intros [? [=]]).
      eexists _, _. split; [exact Hloop|]. eauto.
  - destruct (try_links_exhausted links 0 (length links) p w
                (or_introl Hw) Hp) as (w' & Hloop & Hfiles).
    eexists _, _. split; [exact Hloop|]. eauto.
Qed.


Lemma gather_plain (pairs : list (json * Path)) (w : World) :
  NoDup (map snd pairs) ->
  Forall (fun t => is_heic (snd t) = false) pairs ->
  Forall (fun t => files w !! snd t = None) pairs ->
  exists results w',
    gather (map (fun t => _download_with_retry env (fst t) (snd t)) pairs) w
    = (Ok results, w') /\
    Forall2 (outcome_of env) pairs results /\
    (forall q, is_Some (files w' !! q) <->
               is_Some (files w !! q) \/
               exists t, In t pairs /\ answers env t = true /\ snd t = q).
Proof.
  revert w. induction pairs as [|t pairs IH]; intros w Hnd Hplain Habsent.
  - exists [], w. split; [reflexivity|]. split; [constructor|].
    intros q. split; [auto|]. intros [H|(t & [] & _)]. exact H.
  - simpl in Hnd. apply NoDup_cons in Hnd as [Hfresh Hnd].
    inversion Hplain as [|? ? Hh Hplain']; subst.
    inversion Habsent as [|? ? Hp Habsent']; subst.
    destruct (download_with_retry_plain t w Hh Hp) as (r & w1 & Hrun & Hout).
    assert (Hfiles1 : forall q, snd t <> q -> files w1 !! q = files w !! q).
    { intros q Hq. destruct (answers env t).
      - destruct Hout as (_ & body & ->). now apply lookup_insert_ne.
      - destruct Hout as (_ & ->). reflexivity. }
    destruct (IH w1 Hnd Hplain') as (results & w' & Hg & Hall & Hchar).
    { rewrite Forall_forall in *. intros t' Ht'. rewrite Hfiles1; [auto|].
      intros Heq. apply Hfresh. rewrite Heq. apply list_elem_of_In, in_map.
      now apply list_elem_of_In. }
    exists (r :: results), w'. split; [|split].
    + cbn [map gather]. unfold capture at 1. simpl. rewrite Hrun. simpl.
      rewrite Hg. reflexivity.
    + constructor; [|exact Hall]. unfold outcome_of.
      destruct (answers env t); [apply Hout|apply Hout].
    + intros q. rewrite Hchar. split.
      * intros [H1|(t' & Hin & Ha & Hq)].
        -- destruct (decide (snd t = q)) as [Heq|Hne].
           ++ destruct (answers env t) eqn:Ha.
              ** right. exists t. simpl. auto.
              ** destruct Hout as (_ & Hf). left. now rewrite <- Hf.
           ++ left. now rewrite <- Hfiles1.
        -- right. exists t'. simpl. auto.
      * intros [H0|(t' & [<-|Hin] & Ha & Hq)].
        -- destruct (decide (snd t = q)) as [Heq|Hne].
           ++ subst q. rewrite Hp in H0. now destruct H0.
           ++ left. now rewrite Hfiles1.
        -- left. subst q. rewrite Ha in Hout. destruct Hout as (_ & body & ->).
           rewrite lookup_insert_eq. eauto.
        -- right. exists t'. auto.
Qed.

Lemma report_failures_spec (pairs : list (json * Path))
  (results : list (res unit)) (w : World) :
  Forall2 (outcome_of env) pairs results ->
  exists w',
    report_failures (zip (map snd pairs) results) w = (Ok tt, w') /\
    files w' = files w /\
    (forall x, In x (logs w) -> In x (logs w')) /\
    Forall (fun t => answers env t = false ->
                     exists e, In (ERROR, EvBatchItemFailed (name (snd t)) e)
                                  (logs w')) pairs.
Proof.
  intros Hall. revert w. induction Hall as [|t r pairs results Hout Hall IH];
    intros w.
  - exists w. repeat split; auto.
  - unfold outcome_of in Hout. simpl.
    destruct (answers env t) eqn:Ha.
    + subst r. destruct (IH w) as (w' & Hrun & Hf & Hlogs & Hrep).
      exists w'. repeat split; auto. constructor; [congruence|exact Hrep].
    + destruct Hout as [e ->].
      destruct (IH (with_log ERROR (EvBatchItemFailed (name (snd t)) e) w))
        as (w' & Hrun & Hf & Hlogs & Hrep).
      exists w'. split; [exact Hrun|]. split; [exact Hf|]. split.
      * intros x Hx. apply Hlogs. simpl. auto.
      * constructor; [|exact Hrep]. intros _. exists e. apply Hlogs.
        simpl. auto.
Qed.

Lemma snd_inj_of_NoDup (pairs : list (json * Path)) (t t' : json * Path) :
  NoDup (map snd pairs) -> In t pairs -> In t' pairs -> snd t = snd t' ->
  t = t'.
Proof.
  induction pairs as [|x pairs IH]; simpl; [contradiction|].
  intros Hnd. apply NoDup_cons in Hnd as [Hfresh Hnd].
  intros [->|Ht] [->|Ht'] Heq; auto.
  - exfalso. apply Hfresh. rewrite Heq. now apply list_elem_of_In, in_map.
  - exfalso. apply Hfresh. rewrite <- Heq. now apply list_elem_of_In, in_map.
Qed.

Lemma filter_destinations (pairs : list (json * Path)) (P : Path -> Prop)
  `{!forall q, Decision (P q)} :
  (forall t, In t pairs -> P (snd t) <-> answers env t = true) ->
  filter P (map snd pairs) =
  map snd (filter (fun t => answers env t = true) pairs).
Proof.
  induction pairs as [|t pairs IH]; intros Hiff; [reflexivity|].
  simpl map.
  assert (Hrest : forall t', In t' pairs ->
                             P (snd t') <-> answers env t' = true)
    by (intros t' Ht'; apply Hiff; now right).
  destruct (answers env t) eqn:Ha.
  - rewrite !filter_cons_True; [|exact Ha|apply Hiff; [now left|exact Ha]].
    simpl. now rewrite IH.
  - rewrite !filter_cons_False; [now apply IH|congruence|].
    intros HP. apply Hiff in HP; [congruence|now left].
Qed.

(** The batch is resilient where no conversion is involved: over pairs
    with distinct destinations, none a HEIC file and none on disk, it
    raises nothing, returns the destinations of exactly the pairs whose
    download succeeds, in order, and logs a failure for each other pair. *)
Lemma batch_download_resilient (pairs : list (json * Path)) (w : World) :
  NoDup (map snd pairs) ->
  Forall (fun t => is_heic (snd t) = false) pairs ->
  Forall (fun t => files w !! snd t = None) pairs ->
  exists w',
    _batch_download env pairs w
    = (Ok (map snd (filter (fun t => answers env t = true) pairs)), w') /\
    Forall (fun t => answers env t = false ->
                     exists e, In (ERROR, EvBatchItemFailed (name (snd t)) e)
                                  (logs w')) pairs.
Proof.
  intros Hnd Hplain Habsent. destruct pairs as [|t0 pairs].
  { exists w. split; [reflexivity|constructor]. }
  destruct (gather_plain (t0 :: pairs) w Hnd Hplain Habsent)
    as (results & w1 & Hg & Hall & Hchar).
  destruct (report_failures_spec (t0 :: pairs) results w1 Hall)
    as (w2 & Hrep & Hfiles & _ & Hlogged).
  exists w2. split; [|exact Hlogged].
  rewrite batch_download_unfold by discriminate. rewrite Hg, Hrep.
  unfold existing, gets. f_equal. f_equal.
  apply filter_destinations. intros t Ht. rewrite Hfiles, Hchar. split.
  - intros [H0|(t' & Ht' & Ha & Heq)].
    + rewrite Forall_forall in Habsent.
      rewrite (Habsent t) in H0 by now apply list_elem_of_In.
      now destruct H0.
    + now rewrite <- (snd_inj_of_NoDup (t0 :: pairs) t' t Hnd Ht' Ht Heq).
  - intros Ha. right. exists t. auto.
Qed.

(** X8: where no conversion is involved (distinct destinations, none a
    HEIC file, none on disk), a batch of [N] pairs of which exactly one
    has its mirrors exhausted raises nothing, returns the [N - 1] other
    destinations in the order of the pairs, and logs the failure. *)
Lemma batch_download_one_failure (before after : list (json * Path))
  (bad : json * Path) (w : World) :
  NoDup (map snd (before ++ bad :: after)) ->
  Forall (fun t => is_heic (snd t) = false) (before ++ bad :: after) ->
  Forall (fun t => files w !! snd t = None) (before ++ bad :: after) ->
  Forall (fun t => answers env t = true) (before ++ after) ->
  answers env bad = false ->
  exists w' e,
    _batch_download env (before ++ bad :: after) w
    = (Ok (map snd (before ++ after)), w') /\
    In (ERROR, EvBatchItemFailed (name (snd bad)) e) (logs w').
Proof.
  intros Hnd Hplain Habsent Hgood Hbad.
  destruct (batch_download_resilient _ w Hnd Hplain Habsent)
    as (w' & Hrun & Hlogged).
  apply Forall_app in Hgood as [Hb Ha].
  rewrite Forall_app, Forall_cons in Hlogged.
  destruct Hlogged as (_ & Hlog & _). destruct (Hlog Hbad) as [e He].
  exists w', e. split; [|exact He]. rewrite Hrun. do 2 f_equal.
  rewrite filter_app, filter_cons_False by congruence.
  rewrite !map_app. f_equal; f_equal.
  - clear -Hb. induction Hb as [|t l Ht Hl IH]; [reflexivity|].
    now rewrite filter_cons_True, IH.
  - clear -Ha. induction Ha as [|t l Ht Hl IH]; [reflexivity|].
    now rewrite filter_cons_True, IH.
Qed.

End Resilience.

(* ========================================================================= *)
(** * Input shapes and file names *)

Section ParseShapes.
Context (env : Env).

(** The run [take_while] returns is the longest one. *)
Lemma take_while_maximal (P : N -> bool) (s : str) :
  exists rest, s = take_while P s ++ rest /\
               match rest with [] => True | c :: _ => P c = false end.
Proof.
  induction s as [|c s (rest & Hs & Hrest)]; simpl.
  - exists []. split; [reflexivity|exact I].
  - destruct (P c) eqn:Hc.
    + exists rest. split; [simpl; congruence|exact Hrest].
    + exists (c :: s). split; [reflexivity|exact Hc].
Qed.

Lemma match_here_maximal (s code : str) :
  match_short_code_here s = Some code ->
  exists after, s = short_link_host ++ code ++ after /\
                match after with [] => True | c :: _ => is_alnum c = false end.
Proof.
  unfold match_short_code_here.
  destruct (starts_with short_link_host s) eqn:Hp; [|discriminate].
  apply starts_with_split in Hp.
  destruct (take_while_maximal is_alnum (drop (length short_link_host) s))
    as (rest & Hsplit & Hrest).
  destruct (take_while is_alnum (drop (length short_link_host) s))
    as [|c run] eqn:Hrun; [discriminate|].
  intros [= <-]. exists rest. split; [|exact Hrest].
  rewrite Hp at 1. now rewrite Hsplit at 1.
Qed.

(** What the search returns is the code of the leftmost match. *)
Lemma search_short_code_leftmost (s code : str) :
  search_short_code s = Some code ->
  exists before after,
    s = before ++ short_link_host ++ code ++ after /\
    match_short_code_here (short_link_host ++ code ++ after) = Some code /\
    (forall b1 b2, before = b1 ++ b2 -> b2 <> [] ->
       match_short_code_here (b2 ++ short_link_host ++ code ++ after) = None).
Proof.
  induction s as [|c s IH].
  - intros H. vm_compute in H. discriminate.
  - rewrite search_short_code_unfold.
    destruct (match_short_code_here (c :: s)) as [found|] eqn:Hm.
    + intros [= ->].
      destruct (match_here_maximal _ _ Hm) as (after & Hs & _).
      exists [], after. split; [exact Hs|]. split; [now rewrite <- Hs|].
      intros b1 b2 Hb Hne. symmetry in Hb.
      apply app_eq_nil in Hb as [_ ->]. congruence.
    + intros H. destruct (IH H) as (before & after & Hs & Hhere & Hleft).
      exists (c :: before), after.
      split; [rewrite <- app_comm_cons; f_equal; exact Hs|].
      split; [exact Hhere|].
      intros b1 b2 Hb Hne. destruct b1 as [|c' b1].
      * rewrite app_nil_l in Hb. subst b2.
        rewrite <- app_comm_cons, <- Hs. exact Hm.
      * injection Hb as -> Hb. now apply Hleft with b1.
Qed.

(** X1: a bare identifier of 18 to 20 decimal digits, surrounded by any
    whitespace, is parsed to the by-id endpoint, with the stripped text as
    the [aweme_id] parameter and as the cache key. *)
Theorem parse_input_numeric_id (text : str) :
  is_numeric_id env (strip isspace text) ->
  _parse_input env text =
    Ok (id_api_url (settings env),
        JObj [(U "aweme_id", JStr (strip isspace text))],
        strip isspace text).
Proof.
  intros H. apply fullmatch_id_spec in H. unfold _parse_input. now rewrite H.
Qed.

(** X2: text that is no bare identifier and holds a short link is parsed
    to the by-share-url endpoint, with the whole stripped text as the
    [share_url] parameter.  The cache key is the short code of the
    leftmost link: a non-empty run of ASCII letters and digits, the
    longest one after the host, with no link starting before it. *)
Theorem parse_input_short_link (text : str) :
  ~ is_numeric_id env (strip isspace text) ->
  has_short_code (strip isspace text) ->
  exists code before after,
    _parse_input env text =
      Ok (url_api_url (settings env),
          JObj [(U "share_url", JStr (strip isspace text))], code) /\
    strip isspace text = before ++ short_link_host ++ code ++ after /\
    code <> [] /\ Forall (fun c => is_alnum c = true) code /\
    match after with [] => True | c :: _ => is_alnum c = false end /\
    (forall b1 b2, before = b1 ++ b2 -> b2 <> [] ->
       match_short_code_here (b2 ++ short_link_host ++ code ++ after) = None).
Proof.
  intros Hid Hlink. apply search_short_code_spec in Hlink as [code Hs].
  destruct (search_short_code_leftmost _ _ Hs)
    as (before & after & Htext & Hhere & Hleft).
  destruct (match_here_sound _ _ Hhere) as (after' & Heq & Hne & Halnum).
  destruct (match_here_maximal _ _ Hhere) as (after'' & Heq' & Hmax).
  apply app_inv_head, app_inv_head in Heq'. subst after''.
  exists code, before, after. split; [|auto 6].
  unfold _parse_input, _extract_douyin_code_regex.
  destruct (fullmatch_id env (strip isspace text)) eqn:Hf.
  - exfalso. apply Hid. now apply fullmatch_id_spec.
  - rewrite Hs. destruct code; [congruence|reflexivity].
Qed.

End ParseShapes.

Section SafeFilename.

Lemma lstrip_Forall (P : N -> bool) (Q : N -> Prop) (s : str) :
  Forall Q s -> Forall Q (lstrip P s).
Proof.
  induction 1 as [|c s Hc Hs IH]; simpl; [constructor|].
  destruct (P c); [exact IH|now constructor].
Qed.

Lemma strip_Forall (P : N -> bool) (Q : N -> Prop) (s : str) :
  Forall Q s -> Forall Q (strip P s).
Proof.
  intros H. unfold strip, rstrip.
  apply Forall_rev, lstrip_Forall, Forall_rev, lstrip_Forall, H.
Qed.

Lemma lstrip_head (P : N -> bool) (s : str) :
  match lstrip P s with [] => True | c :: _ => P c = false end.
Proof.
  induction s as [|c s IH]; simpl; [exact I|].
  destruct (P c) eqn:Hc; [exact IH|exact Hc].
Qed.

Lemma lstrip_app_stop (P : N -> bool) (a : str) (c : N) :
  P c = false -> lstrip P (a ++ [c]) = lstrip P a ++ [c].
Proof.
  intros Hc. induction a as [|x a IH]; simpl.
  - now rewrite Hc.
  - destruct (P x); [exact IH|reflexivity].
Qed.

Lemma rstrip_cons_stop (P : N -> bool) (c : N) (s : str) :
  P c = false -> rstrip P (c :: s) = c :: rstrip P s.
Proof.
  intros Hc. unfold rstrip. simpl rev.
  rewrite lstrip_app_stop by exact Hc. now rewrite rev_app_distr.
Qed.

(** What [strip] returns does not start with a stripped character. *)
Lemma strip_head (P : N -> bool) (s : str) :
  match strip P s with [] => True | c :: _ => P c = false end.
Proof.
  unfold strip. pose proof (lstrip_head P s) as H.
  destruct (lstrip P s) as [|c l]; [exact I|].
  rewrite rstrip_cons_stop by exact H. exact H.
Qed.

(** X3: the name [_get_safe_filename] returns has at most 60 characters,
    holds none of the characters the pattern replaces, and does not start
    with a dot. *)
Theorem safe_filename_is_safe (text : json) (name : str) :
  _get_safe_filename text = Ok name ->
  (length name <= 60)%nat /\
  Forall (fun c => c ∉ unsafe_chars) name /\
  match name with [] => True | c :: _ => is_dot c = false end.
Proof.
  unfold _get_safe_filename.
  destruct (truthy text) eqn:Ht; simpl.
  - destruct text as [| | |s| |]; try discriminate. intros [= <-].
    split; [|split].
    + rewrite length_take. lia.
    + apply Forall_take. do 3 apply strip_Forall.
      apply Forall_map, Forall_forall. intros c _. simpl.
      destruct (bool_decide (c ∈ unsafe_chars)) eqn:Hc.
      * vm_compute. intros H.
        repeat (apply elem_of_cons in H as [H|H]; [discriminate|]).
        inversion H.
      * now apply bool_decide_eq_false in Hc.
    + pose proof (strip_head is_dot
                    (strip isspace (strip isspace
                       (map (fun c => if bool_decide (c ∈ unsafe_chars)
                                      then underscore else c) s)))) as H.
      destruct (strip is_dot _); [exact I|exact H].
  - intros [= <-]. split; [vm_compute; lia|]. split; [|reflexivity].
    apply Forall_forall. intros c Hc Hin. revert Hc. vm_compute.
    intros Hc.
    repeat (apply elem_of_cons in Hc as [Hc|Hc];
            [subst c;
             repeat (apply elem_of_cons in Hin as [Hin|Hin]; [discriminate|]);
             inversion Hin|]).
    inversion Hc.
Qed.

End SafeFilename.

(* ========================================================================= *)
(** * One file, its mirrors, and the whole download *)

Section DownloadFile.
Context (env : Env).

(** [heic_to_jpg] never raises, and converts exactly when [conversion]
    says so. *)
Lemma heic_to_jpg_spec (p : Path) (w : World) :
  exists w',
    heic_to_jpg env p w = (Ok tt, w') /\
    requests w' = requests w /\ video_index w' = video_index w /\
    files w' = match conversion env w p with
               | Some image =>
                   delete p (<[converted_path p := FBytes image]> (files w))
               | None => files w
               end.
Proof.
  unfold heic_to_jpg, conversion, try_except, write_file.
  fold (converted_path p). simpl.
  assert (Hdone : forall w' : World,
            requests w' = requests w -> video_index w' = video_index w ->
            files w' = files w ->
            exists w'', (Ok tt, w') = (Ok tt, w'') /\
              requests w'' = requests w /\ video_index w'' = video_index w /\
              files w'' = files w) by (intros; eauto 6).
  destruct (files w !! p) as [d|] eqn:Hp.
  - rewrite bool_decide_true by eauto. simpl.
    destruct (is_heic p); simpl; [|now apply Hdone].
    rewrite Hp.
    destruct (writable env (converted_path p)) eqn:Hw;
      destruct d as [doc|doc|b]; simpl; try (now apply Hdone);
      destruct (heif_to_jpeg env b) as [image|]; simpl; try rewrite Hw;
      simpl; try (now apply Hdone).
    eexists. split; [reflexivity|]. split; [reflexivity|].
    split; reflexivity.
  - rewrite bool_decide_false by (intros [? [=]]). simpl.
    destruct (is_heic p && _); now apply Hdone.
Qed.

(** The handler of [_download_file] removes whatever is at the
    destination before it raises again. *)
Lemma download_file_raise (url : json) (p : Path) (w : World) (e : exn)
  (w' : World) :
  _download_file env url p w = (Raise e, w') -> files w' !! p = None.
Proof.
  unfold _download_file, try_except.
  lazymatch goal with
  | |- (match ?x with _ => _ end) = _ -> _ => destruct x as [[[]|e0] w1]
  end; [discriminate|]. simpl.
  destruct (files w1 !! p) eqn:Hp.
  - rewrite bool_decide_true by eauto. simpl. intros [= _ <-]. simpl.
    apply lookup_delete_eq.
  - rewrite bool_decide_false by (intros [? [=]]). simpl.
    intros [= _ <-]. exact Hp.
Qed.

(** The requests one attempt sends, and when it succeeds. *)
Lemma download_file_requests (url : json) (p : Path) (w : World) :
  exists r w',
    _download_file env url p w = (r, w') /\
    requests w' = match url with
                  | JStr _ => ReqGet url :: requests w
                  | _ => requests w
                  end /\
    (r = Ok tt <->
     match url with
     | JStr u => bool_decide (is_Some (http_body env u)) && writable env p
                 = true
     | _ => False
     end).
Proof.
  unfold _download_file, http_get, try_except, write_file.
  assert (Hraise : forall (e : exn) (w1 w' : World) (rq : list Request),
            requests w' = rq ->
            exists r w'', (Raise e, w') = (r, w'') /\ requests w'' = rq /\
                          (r = Ok tt <-> False)).
  { intros e w1 w' rq Hrq. exists (Raise e), w'.
    split; [reflexivity|]. split; [exact Hrq|]. split; [discriminate|tauto]. }
  assert (Hraise' : forall (e : exn) (w1 w' : World) (rq : list Request) b,
            requests w' = rq -> b = false ->
            exists r w'', (Raise e, w') = (r, w'') /\ requests w'' = rq /\
                          (r = Ok tt <-> b = true)).
  { intros e w1 w' rq b Hrq ->. exists (Raise e), w'.
    split; [reflexivity|]. split; [exact Hrq|]. split; discriminate. }
  destruct url as [| | |u| |]; simpl;
    try (destruct (bool_decide _); simpl; now apply Hraise).
  destruct (http_body env u) as [body|] eqn:Hb; simpl.
  - try rewrite bool_decide_true by eauto. simpl.
    destruct (writable env p) eqn:Hw; simpl.
    + destruct (is_heic p).
      * destruct (heic_to_jpg_spec p
                    {| files := <[p:=FBytes body]> (files w);
                       video_index := video_index w;
                       requests := ReqGet (JStr u) :: requests w;
                       logs := (INFO, EvFileSaved p) :: logs w |})
          as (w' & Hrun & Hreq & _).
        rewrite Hrun. exists (Ok tt), w'. split; [reflexivity|].
        split; [exact Hreq|]. split; reflexivity.
      * eexists (Ok tt), _. split; [reflexivity|]. split; [reflexivity|].
        split; reflexivity.
    + destruct (bool_decide _); simpl; now apply Hraise'.
  - try rewrite (bool_decide_false (is_Some None)) by (intros [? [=]]).
    simpl. destruct (bool_decide _); simpl; now apply Hraise'.
Qed.

Lemma try_links_requests (links : list json) (i n : nat) (p : Path)
  (w : World) :
  exists r w',
    try_links env links i n p w = (r, w') /\
    requests w' = rev (attempted env p links) ++ requests w /\
    (r = Ok tt <-> some_link_works env p links = true) /\
    (some_link_works env p links = false ->
     r = Raise (ConnectionError_all_failed (name p))).
Proof.
  revert i w. induction links as [|url links IH]; intros i w.
  - eexists _, _. split; [reflexivity|]. split; [reflexivity|].
    split; [split; discriminate|reflexivity].
  - destruct (download_file_requests url p
                (with_log INFO (EvTryLink (i + 1) n (name p)) w))
      as (r1 & w1 & Hrun & Hreq & Hok).
    destruct r1 as [[]|e].
    + rewrite (try_links_step_done env url links i n p w w1 Hrun).
      eexists _, _. split; [reflexivity|].
      destruct url as [| | |u| |]; try (exfalso; now apply Hok).
      assert (Hb : bool_decide (is_Some (http_body env u)) && writable env p
                   = true) by now apply Hok.
      simpl. rewrite Hb. simpl. split; [exact Hreq|].
      split; [split; reflexivity|discriminate].
    + rewrite (try_links_step_failed env url links i n p w e w1 Hrun).
      destruct (IH (S i) (with_log WARNING (EvLinkFailed (i + 1) url e) w1))
        as (r & w' & Hloop & Hreq' & Hok' & Hexn).
      exists r, w'. split; [exact Hloop|].
      assert (Hnot : match url with
                     | JStr u => bool_decide (is_Some (http_body env u))
                                 && writable env p = false
                     | _ => True
                     end).
      { destruct url as [| | |u| |]; trivial.
        destruct (bool_decide _ && _) eqn:Hb; [|reflexivity].
        destruct Hok as [_ Hok]. now specialize (Hok eq_refl). }
      destruct url as [| | |u| |]; simpl; try rewrite Hnot; simpl;
        rewrite Hreq'; simpl; rewrite Hreq;
        try (split; [reflexivity|split; [exact Hok'|exact Hexn]]).
      split; [now rewrite <- app_assoc|split; [exact Hok'|exact Hexn]].
Qed.


Lemma try_links_raise_absent (links : list json) (i n : nat) (p : Path)
  (w : World) (e : exn) (w' : World) :
  links <> [] ->
  try_links env links i n p w = (Raise e, w') -> files w' !! p = None.
Proof.
  revert i w. induction links as [|url links IH]; intros i w Hne;
    [congruence|].
  destruct (_download_file env url p
              (with_log INFO (EvTryLink (i + 1) n (name p)) w))
    as [[[]|e1] w1] eqn:Hrun.
  - rewrite (try_links_step_done env url links i n p w w1 Hrun). discriminate.
  - rewrite (try_links_step_failed env url links i n p w e1 w1 Hrun).
    apply download_file_raise in Hrun.
    destruct links as [|url' links].
    + simpl. intros [= _ <-]. exact Hrun.
    + apply IH. discriminate.
Qed.

(** X4: when every mirror of a destination fails, [_download_with_retry]
    raises its [ConnectionError] and the destination is not on disk
    afterwards, even when it was before: each failed [_download_file]
    removes what is at the destination, so a HEIC file that was awaiting
    its conversion is lost. *)
Theorem failed_download_leaves_no_file (urls : json) (links : list json)
  (p : Path) (w : World) (e : exn) (w' : World) :
  truthy urls = true -> iter urls = Ok links ->
  files w !! p = None \/ awaiting w p ->
  _download_with_retry env urls p w = (Raise e, w') ->
  files w' !! p = None /\ e = ConnectionError_all_failed (name p).
Proof.
  intros Ht Hi Hstart.
  assert (Hloop : _download_with_retry env urls p w =
                  try_links env links 0 (length links) p w \/
                  exists l ev l' ev',
                    _download_with_retry env urls p w =
                    try_links env links 0 (length links) p
                      (with_log l ev (with_log l' ev' w))).
  { unfold _download_with_retry, awaits_conversion. simpl.
    destruct Hstart as [Hp|(Hp & Hh & Hj)].
    - left. rewrite Hp. rewrite bool_decide_false by (intros [? [=]]).
      simpl. rewrite Ht. simpl. now rewrite Hi.
    - right. unfold jpg_sibling_present in Hj.
      destruct (with_suffix_heic p Hh) as [j Hw]. rewrite Hw in Hj.
      rewrite bool_decide_true by exact Hp. rewrite Hh, Hw. simpl.
      rewrite Hj. simpl. rewrite Ht. simpl. rewrite Hi.
      eexists _, _, _, _. reflexivity. }
  assert (Hne : links <> []).
  { intros ->. destruct urls as [| | |s|l|kv]; simpl in *; try discriminate.
    - destruct s; [discriminate|]. simpl in Hi. discriminate.
    - injection Hi as ->. discriminate.
    - destruct kv as [|[k v] kv]; [discriminate|]. simpl in Hi.
      discriminate. }
  intros Hrun.
  assert (Hexn : forall w0 r0 w1,
            try_links env links 0 (length links) p w0 = (r0, w1) ->
            r0 = Raise e -> e = ConnectionError_all_failed (name p)).
  { intros w0 r0 w1 H0 ->.
    destruct (try_links_requests links 0 (length links) p w0)
      as (r & w2 & Hr & _ & Hok & Hexn).
    rewrite H0 in Hr. injection Hr as <- <-.
    destruct (some_link_works env p links) eqn:Hs.
    - destruct Hok as [_ Hok]. now specialize (Hok eq_refl).
    - specialize (Hexn eq_refl). congruence. }
  destruct Hloop as [Heq|(l & ev & l' & ev' & Heq)]; rewrite Heq in Hrun.
  - split; [eapply try_links_raise_absent; eassumption|].
    eapply Hexn; [exact Hrun|reflexivity].
  - split; [eapply try_links_raise_absent; eassumption|].
    eapply Hexn; [exact Hrun|reflexivity].
Qed.

(** X5: the mirrors of a destination that is not on disk are requested in
    the order of the list, one request for each mirror that is a str, up
    to and including the first that answers with a file that can be
    written; no mirror after that one is requested, and the download
    succeeds exactly when there is such a mirror. *)
Theorem mirrors_tried_in_order (urls : json) (links : list json) (p : Path)
  (w : World) :
  files w !! p = None -> truthy urls = true -> iter urls = Ok links ->
  exists r w',
    _download_with_retry env urls p w = (r, w') /\
    requests w' = rev (attempted env p links) ++ requests w /\
    (r = Ok tt <-> some_link_works env p links = true).
Proof.
  intros Hp Ht Hi.
  destruct (try_links_requests links 0 (length links) p w)
    as (r & w' & Hrun & Hreq & Hok & _).
  exists r, w'. split; [|auto].
  unfold _download_with_retry. simpl. rewrite Hp.
  rewrite bool_decide_false by (intros [? [=]]). simpl.
  rewrite Ht. simpl. rewrite Hi. exact Hrun.
Qed.

(** X6: [heic_to_jpg] never raises, sends no request and leaves the index
    alone.  It converts exactly when the path is a HEIC file on disk whose
    bytes the decoder accepts and the JPEG can be written: the JPEG is
    then written next to it and the HEIC file deleted.  In every other
    case the files are as they were. *)
Theorem heic_to_jpg_never_raises (p : Path) (w : World) :
  exists w',
    heic_to_jpg env p w = (Ok tt, w') /\
    requests w' = requests w /\ video_index w' = video_index w /\
    files w' = match conversion env w p with
               | Some image =>
                   delete p (<[converted_path p := FBytes image]> (files w))
               | None => files w
               end.
Proof. apply heic_to_jpg_spec. Qed.

Lemma gather_returns (tasks : list (M unit)) (w : World) :
  exists results w', gather tasks w = (Ok results, w').
Proof.
  revert w. induction tasks as [|t tasks IH]; intros w; [eauto|].
  cbn [gather]. unfold capture at 1. simpl.
  destruct (t w) as [r w1]. destruct (IH w1) as (results & w' & ->). eauto.
Qed.

Lemma report_failures_files (items : list (Path * res unit)) (w : World) :
  exists w', report_failures items w = (Ok tt, w') /\ files w' = files w.
Proof.
  revert w. induction items as [|[p [[]|e]] items IH]; intros w; simpl;
    [eauto|apply IH|].
  destruct (IH (with_log ERROR (EvBatchItemFailed (name p) e) w))
    as (w' & Hrun & Hfiles).
  exists w'. split; [exact Hrun|exact Hfiles].
Qed.

(** The batch never raises, and returns the destinations that are on
    disk when it ends, in the order of the pairs. *)
Lemma batch_download_returns (pairs : list (json * Path)) (w : World) :
  exists w',
    _batch_download env pairs w =
      (Ok (filter (fun p => is_Some (files w' !! p)) (map snd pairs)), w').
Proof.
  destruct pairs as [|t pairs]; [exists w; reflexivity|].
  rewrite batch_download_unfold by discriminate.
  destruct (gather_returns
              (map (fun t => _download_with_retry env (fst t) (snd t))
                   (t :: pairs)) w) as (results & w1 & ->).
  destruct (report_failures_files (zip (map snd (t :: pairs)) results) w1)
    as (w2 & -> & Hfiles).
  exists w2. reflexivity.
Qed.

End DownloadFile.

Section DownloadTotal.
Context (env : Env) (self : DouyinDownloader).

Lemma yields_existing_bind {A} (m : M A) (k : A -> M (list Path)) :
  (forall a, yields_existing (k a)) -> yields_existing (bind m k).
Proof.
  intros Hk w found w'. simpl.
  destruct (m w) as [[a|e] w1]; [apply Hk|discriminate].
Qed.

Lemma yields_existing_nil : yields_existing (ret []).
Proof. intros w found w' [= <- _]. constructor. Qed.

Lemma yields_existing_batch (pairs : list (json * Path)) :
  yields_existing (_batch_download env pairs).
Proof.
  intros w found w' Hrun.
  destruct (batch_download_returns env pairs w) as (w2 & Hb).
  rewrite Hb in Hrun. injection Hrun as <- <-.
  apply Forall_forall. intros p Hp.
  now apply list_elem_of_filter in Hp as [Hp _].
Qed.

Lemma yields_existing_dispatch (key : str) (detail : json) :
  yields_existing (dispatch env key detail).
Proof.
  unfold dispatch, _process_gallery, _process_single_video.
  apply yields_existing_bind. intros [mt strategy].
  apply yields_existing_bind. intros _.
  destruct strategy.
  - apply yields_existing_bind. intros [folder tasks].
    apply yields_existing_bind. intros _. apply yields_existing_batch.
  - apply yields_existing_bind. intros [folder tasks].
    apply yields_existing_bind. intros _. apply yields_existing_batch.
  - apply yields_existing_bind. intros tasks. apply yields_existing_batch.
  - apply yields_existing_bind. intros _. apply yields_existing_nil.
Qed.

(** [download] never raises, and every path it returns is on disk when it
    returns. *)
Lemma download_returns (text : str) (w : World) :
  exists found w',
    download env self text w = (Ok found, w') /\
    Forall (fun p => is_Some (files w' !! p)) found.
Proof.
  unfold download, try_except.
  lazymatch goal with
  | |- context [match ?x with _ => _ end] =>
      lazymatch x with
      | ?m w => assert (Hbody : yields_existing m); [|destruct x as [[found|e] w1] eqn:Hrun]
      end
  end.
  - apply yields_existing_bind. intros [[api_url params] cache_key].
    apply yields_existing_bind. intros data.
    apply yields_existing_bind. intros payload.
    apply yields_existing_bind. intros detail.
    destruct (negb (truthy detail)).
    + apply yields_existing_bind. intros _. apply yields_existing_nil.
    + apply yields_existing_dispatch.
  - exists found, w1. split; [reflexivity|]. eapply Hbody. exact Hrun.
  - eexists [], _. split; [reflexivity|constructor].
Qed.


End DownloadTotal.

(* ========================================================================= *)
(** * The cache and the metadata API *)

Section CacheFacts.
Context (env : Env).

(** A lookup never raises and changes nothing but the log; the path it
    returns is that of a file on disk, under the folder the index row
    holds; with the store out of reach it is a miss. *)
Lemma get_data_path_spec (self : DataManager) (key : str) (w : World) :
  exists r w',
    get_data_path env self key w = (Ok r, w') /\ quiet w w' /\
    (db_up env = false -> r = None) /\
    (forall p, r = Some p ->
       w' = w /\ db_up env = true /\ is_Some (files w !! p) /\
       exists folder, video_index w !! key = Some folder /\ folder <> [] /\
         p = div (div (base_dir self) folder) (key ++ U ".json")).
Proof.
  unfold get_data_path, try_except, select_file_id.
  destruct (db_up env) eqn:Hdb; simpl.
  - unfold gets. destruct (video_index w !! key) as [folder|] eqn:Hrow; simpl.
    + destruct folder as [|c folder]; simpl.
      * exists None, w. repeat split; discriminate.
      * destruct (files w !! div (div (base_dir self) (c :: folder))
                                 (key ++ U ".json")) as [d|] eqn:Hfile.
        -- rewrite bool_decide_true by eauto. simpl.
           eexists _, w. split; [reflexivity|]. split; [reflexivity|].
           split; [discriminate|]. intros p [= <-].
           rewrite Hfile. repeat split; eauto.
        -- rewrite bool_decide_false by (intros [? [=]]). simpl.
           eexists None, _. split; [reflexivity|].
           repeat split; discriminate.
    + exists None, w. repeat split; discriminate.
  - eexists None, _. split; [reflexivity|]. repeat split; discriminate.
Qed.

(** X9: a lookup never raises and changes nothing but the log.  The path
    it returns is that of a file on disk, under the folder the index row
    of the key holds, and then not even the log has changed; with the
    store out of reach the lookup is a miss. *)
Theorem lookup_never_raises (self : DataManager) (key : str) (w : World) :
  exists r w',
    get_data_path env self key w = (Ok r, w') /\ quiet w w' /\
    (db_up env = false -> r = None) /\
    (forall p, r = Some p ->
       w' = w /\ db_up env = true /\ is_Some (files w !! p) /\
       exists folder, video_index w !! key = Some folder /\ folder <> [] /\
         p = div (div (base_dir self) folder) (key ++ U ".json")).
Proof. apply get_data_path_spec. Qed.

(** The lookup reads the index and the files only. *)
Lemma get_data_path_hit_inv (self : DataManager) (key : str) (w w0 : World)
  (p : Path) :
  get_data_path env self key w = (Ok (Some p), w0) ->
  forall w1, files w1 = files w -> video_index w1 = video_index w ->
             get_data_path env self key w1 = (Ok (Some p), w1).
Proof.
  intros Hrun w1 Hf Hi.
  destruct (get_data_path_spec self key w) as (r & w' & Hspec & _ & _ & Hhit).
  rewrite Hrun in Hspec. injection Hspec as <- <-.
  destruct (Hhit p eq_refl) as (_ & Hdb & Hfile & folder & Hrow & Hne & ->).
  apply get_data_path_hit; rewrite ?Hf, ?Hi; assumption.
Qed.




End CacheFacts.

Section FetchFacts.
Context (env : Env) (self : DouyinDownloader).

Lemma get_data_path_congr (dm : DataManager) (key : str) (w w1 : World) :
  files w1 = files w -> video_index w1 = video_index w ->
  fst (get_data_path env dm key w1) = fst (get_data_path env dm key w).
Proof.
  intros Hf Hi. unfold get_data_path, try_except, select_file_id.
  destruct (db_up env); simpl; [|reflexivity].
  unfold gets. rewrite Hi.
  destruct (video_index w !! key) as [folder|]; simpl; [|reflexivity].
  destruct (negb (str_eqb folder [])); [|reflexivity]. rewrite Hf.
  destruct (bool_decide _); reflexivity.
Qed.


Lemma fetch_miss (api_url : str) (params : json) (key : str) (w w0 : World) :
  get_data_path env (data_manager self) key w = (Ok None, w0) ->
  _fetch_aweme_data env self api_url params key w =
    ask_api env self api_url params key (with_log INFO (EvCacheMiss key) w0).
Proof.
  intros H. unfold _fetch_aweme_data. simpl. rewrite H. reflexivity.
Qed.

Lemma fetch_hit (api_url : str) (params : json) (key : str) (w : World)
  (p : Path) :
  get_data_path env (data_manager self) key w = (Ok (Some p), w) ->
  is_Some (files w !! p) ->
  _fetch_aweme_data env self api_url params key w =
    json_load p (with_log INFO (EvCacheHit p) w).
Proof.
  intros H Hp. unfold _fetch_aweme_data. simpl. rewrite H. simpl.
  rewrite bool_decide_true by exact Hp. reflexivity.
Qed.


Lemma accepted_get (data : json) (b : bool) (k : str) (d : json) :
  accepted data = Ok b -> exists v, get data k d = Ok v.
Proof.
  destruct data; try discriminate. intros _. simpl. eauto.
Qed.

(** X11: on a cache miss, an answer whose [code] is not 200 and whose
    [status_code] is not 0 makes [_fetch_aweme_data] raise a [ValueError]
    that carries the [message] of the answer: the one request has been
    sent, the error is logged, and neither a file nor an index row has
    been written. *)
Theorem refused_answer_is_raised (api_url : str) (params : json) (key : str)
  (w : World) (data : json) :
  fst (get_data_path env (data_manager self) key w) = Ok None ->
  api_response env api_url params = Some data ->
  accepted data = Ok false ->
  exists message w',
    get data (U "message") JNull = Ok message /\
    _fetch_aweme_data env self api_url params key w =
      (Raise (ValueError_api message), w') /\
    files w' = files w /\ video_index w' = video_index w /\
    requests w' = ReqApi api_url params :: requests w /\
    In (ERROR, EvFetchFailed (ValueError_api message)) (logs w').
Proof.
  intros Hmiss Hresp Hacc.
  destruct (get_data_path_spec env (data_manager self) key w)
    as (r & w0 & Hrun & (Hf & Hi & Hr) & _).
  rewrite Hrun in Hmiss. simpl in Hmiss. injection Hmiss as ->.
  destruct (accepted_get data false (U "message") JNull Hacc) as [message Hm].
  exists message. rewrite (fetch_miss _ _ _ _ _ Hrun).
  unfold ask_api, try_except, api_get, send, of_res. simpl. rewrite Hresp.
  simpl. revert Hacc. unfold accepted. simpl.
  destruct (get data (U "code") JNull) as [code|]; [|discriminate].
  destruct (eq_int code 200); [discriminate|].
  destruct (get data (U "status_code") JNull) as [sc|]; [|discriminate].
  simpl. intros [= ->]. rewrite Hm. simpl.
  eexists. split; [reflexivity|]. split; [reflexivity|]. simpl.
  rewrite Hr. auto 6.
Qed.

(** X12: on a cache miss, an accepted answer whose [data] is falsy is
    returned as it is and not cached: no file and no index row is
    written, so that fetching the same key again sends the request
    again. *)
Theorem empty_payload_is_not_cached (api_url : str) (params : json)
  (key : str) (w : World) (data payload : json) :
  fst (get_data_path env (data_manager self) key w) = Ok None ->
  api_response env api_url params = Some data ->
  accepted data = Ok true ->
  get data (U "data") JNull = Ok payload -> truthy payload = false ->
  exists w' w'',
    _fetch_aweme_data env self api_url params key w = (Ok data, w') /\
    files w' = files w /\ video_index w' = video_index w /\
    requests w' = ReqApi api_url params :: requests w /\
    _fetch_aweme_data env self api_url params key w' = (Ok data, w'') /\
    requests w'' = ReqApi api_url params :: ReqApi api_url params :: requests w.
Proof.
  intros Hmiss Hresp Hacc Hpay Hfalsy.
  assert (Hask : forall w1,
            ask_api env self api_url params key w1 =
              (Ok data, mkWorld (files w1) (video_index w1)
                                (ReqApi api_url params :: requests w1)
                                (logs w1))).
  { intros w1. unfold ask_api, try_except, api_get, send, of_res. simpl.
    rewrite Hresp. simpl. revert Hacc. unfold accepted. simpl.
    destruct (get data (U "code") JNull) as [code|]; [|discriminate].
    destruct (eq_int code 200).
    - intros _. simpl. rewrite Hpay. simpl. now rewrite Hfalsy.
    - destruct (get data (U "status_code") JNull) as [sc|]; [|discriminate].
      simpl. intros [= ->]. rewrite Hpay. simpl. now rewrite Hfalsy. }
  destruct (get_data_path_spec env (data_manager self) key w)
    as (r & w0 & Hrun & (Hf & Hi & Hr) & _).
  rewrite Hrun in Hmiss. simpl in Hmiss. injection Hmiss as ->.
  rewrite (fetch_miss _ _ _ _ _ Hrun), Hask.
  match goal with
  | |- exists w' w'', (_, ?w1) = _ /\ _ =>
      destruct (get_data_path_spec env (data_manager self) key w1)
        as (r1 & w2 & Hrun1 & (Hf1 & Hi1 & Hr1) & _);
      pose proof (get_data_path_congr (data_manager self) key w w1 Hf Hi)
        as Hsame
  end.
  rewrite Hrun1, Hrun in Hsame. simpl in Hsame. injection Hsame as ->.
  eexists _, _. split; [reflexivity|]. simpl.
  split; [exact Hf|]. split; [exact Hi|]. split; [now rewrite Hr|].
  rewrite (fetch_miss _ _ _ _ _ Hrun1), Hask.
  split; [reflexivity|]. simpl. rewrite Hr1. simpl. now rewrite Hr.
Qed.





End FetchFacts.

(* ========================================================================= *)
(** * The plan of a job: destinations and routing *)

Section Numbering.


Lemma read_digits_fuel (fuel n : nat) (acc : str) :
  (n < fuel)%nat ->
  read_digits (digits_fuel fuel n acc) 0 = read_digits acc n.
Proof.
  revert n acc. induction fuel as [|fuel IH]; intros n acc Hlt; [lia|].
  cbn [digits_fuel].
  assert (Hstep : read_digits ((48 + N.of_nat (n mod 10))%N :: acc) (n / 10)
                  = read_digits acc n).
  { unfold read_digits. cbn [fold_left]. f_equal.
    pose proof (Nat.div_mod_eq n 10). lia. }
  destruct (n / 10 =? 0)%nat eqn:Hq.
  - apply Nat.eqb_eq in Hq. rewrite <- Hstep, Hq. reflexivity.
  - apply Nat.eqb_neq in Hq. rewrite IH; [exact Hstep|].
    pose proof (Nat.div_lt n 10). assert (0 < n)%nat by (destruct n; [easy|lia]).
    lia.
Qed.

Lemma read_format_02d (n : nat) : read_digits (format_02d n) 0 = n.
Proof.
  unfold format_02d, str_of_nat.
  destruct (_ <? 2)%nat.
  - change (read_digits (48%N :: ?d) 0) with (read_digits d 0).
    now rewrite read_digits_fuel by lia.
  - now rewrite read_digits_fuel by lia.
Qed.

Lemma format_02d_inj (n m : nat) : format_02d n = format_02d m -> n = m.
Proof.
  intros H. rewrite <- (read_format_02d n), <- (read_format_02d m).
  now rewrite H.
Qed.

End Numbering.


Section GalleryPlan.
Context (env : Env).

Lemma slash_not_in (s : str) :
  forallb (fun c => negb (c =? slash)%N) s = true -> slash ∉ s.
Proof.
  intros H Hin. rewrite forallb_forall in H.
  apply list_elem_of_In, H in Hin. now rewrite N.eqb_refl in Hin.
Qed.

Lemma name_item (d : Path) (video : bool) (j : nat) :
  name (div d (item_name video j)) = item_name video j.
Proof.
  unfold item_name. rewrite app_assoc.
  match goal with
  | |- name (div d (?a ++ ?e)) = _ =>
      destruct (name_div_ext d a e) as (seg & Hn & Hseg)
  end.
  - apply slash_not_in. now destruct video.
  - destruct video; vm_compute; lia.
  - rewrite Hn, Hseg; [reflexivity|].
    apply numbered_name_no_slash, slash_not_in. now destruct video.
Qed.

Lemma item_name_inj (v v' : bool) (j j' : nat) :
  item_name v j = item_name v' j' -> v = v' /\ j = j'.
Proof.
  intros H.
  assert (Hv : v = v').
  { apply (f_equal (hd 0%N)) in H. destruct v, v'; try reflexivity;
      vm_compute in H; discriminate. }
  subst v'. split; [reflexivity|]. unfold item_name in H.
  apply app_inv_head, app_inv_tail in H. now apply format_02d_inj.
Qed.

(** What one round of the loop appends: nothing, or one pair with a
    non-empty mirror list whose destination is numbered [i + 1]. *)
Lemma gallery_item_plan (is_mixed : bool) (d : Path) (i : nat) (item : json)
  (here : list (json * Path)) :
  gallery_item_tasks is_mixed d i item = Ok here ->
  here = [] \/
  exists urls video,
    here = [(urls, div d (item_name video (i + 1)))] /\
    truthy urls = true /\ (video = true -> is_mixed = true).
Proof.
  unfold gallery_item_tasks, item_video_urls. simpl.
  destruct (get item (U "video") (JObj [])) as [video_item|]; simpl;
    [|discriminate].
  destruct (get video_item (U "play_addr_h264") (JObj [])) as [h264|]; simpl;
    [|discriminate].
  destruct (get h264 (U "url_list") JNull) as [h264_urls|]; simpl;
    [|discriminate].
  destruct (if truthy h264_urls then _ else _) as [video_urls|]; simpl;
    [|discriminate].
  destruct (is_mixed && truthy video_urls) eqn:Hv; simpl.
  - intros [= <-]. right. exists video_urls, true.
    apply andb_prop in Hv as [-> ->]. auto.
  - destruct (get item (U "url_list") JNull) as [img_urls|]; simpl;
      [|discriminate].
    destruct (truthy img_urls) eqn:Hi; intros [= <-]; [right|now left].
    exists img_urls, false. repeat split; [exact Hi|discriminate].
Qed.

Lemma gallery_loop_plan (is_mixed : bool) (d : Path) (items : list json)
  (i : nat) (tasks : list (json * Path)) :
  gallery_loop is_mixed d i items = Ok tasks ->
  (length tasks <= length items)%nat /\
  NoDup (map snd tasks) /\
  Forall (fun t =>
            truthy (fst t) = true /\
            exists video j,
              (i < j <= i + length items)%nat /\
              snd t = div d (item_name video j) /\
              (video = true -> is_mixed = true)) tasks.
Proof.
  revert i tasks. induction items as [|item items IH]; intros i tasks; simpl.
  - intros [= <-]. split; [reflexivity|]. split; constructor.
  - destruct (gallery_item_tasks is_mixed d i item) as [here|] eqn:Hh;
      simpl; [|discriminate].
    destruct (gallery_loop is_mixed d (S i) items) as [rest|] eqn:Hr;
      simpl; [|discriminate].
    intros [= <-]. destruct (IH _ _ Hr) as (Hlen & Hnd & Hall).
    assert (Hall' : Forall (fun t =>
              truthy (fst t) = true /\
              exists video j,
                (i < j <= i + S (length items))%nat /\
                snd t = div d (item_name video j) /\
                (video = true -> is_mixed = true)) rest).
    { eapply Forall_impl; [exact Hall|]. intros t (Ht & video & j & Hj & Hp).
      split; [exact Ht|]. exists video, j. split; [lia|exact Hp]. }
    destruct (gallery_item_plan _ _ _ _ _ Hh)
      as [->|(urls & video & -> & Hurls & Hmixed)]; simpl.
    + split; [lia|]. split; [exact Hnd|exact Hall'].
    + split; [lia|]. split; [|constructor].
      * constructor; [|exact Hnd]. intros Hin.
        apply list_elem_of_fmap in Hin as (t & Heq & Hin).
        rewrite Forall_forall in Hall.
        destruct (Hall t Hin) as (_ & video' & j & Hj & Hp & _).
        rewrite Hp in Heq. apply (f_equal name) in Heq.
        rewrite !name_item in Heq. apply item_name_inj in Heq as [_ Heq].
        lia.
      * split; [exact Hurls|]. exists video, (i + 1)%nat.
        split; [lia|]. auto.
      * exact Hall'.
Qed.

Lemma safe_filename_chars (text : json) (name : str) :
  _get_safe_filename text = Ok name -> Forall (fun c => c ∉ unsafe_chars) name.
Proof.
  unfold _get_safe_filename.
  destruct (truthy text) eqn:Ht; simpl.
  - destruct text as [| | |s| |]; try discriminate. intros [= <-].
    apply Forall_take.
    assert (Hstrip : forall P (Q : N -> Prop) s, Forall Q s ->
                                                 Forall Q (strip P s)).
    { intros P Q l H. unfold strip, rstrip.
      assert (Hl : forall l, Forall Q l -> Forall Q (lstrip P l)).
      { induction 1 as [|c l' Hc Hl' IH]; simpl; [constructor|].
        destruct (P c); [exact IH|now constructor]. }
      apply Forall_rev, Hl, Forall_rev, Hl, H. }
    do 3 apply Hstrip.
    apply Forall_map, Forall_forall. intros c _. simpl.
    destruct (bool_decide (c ∈ unsafe_chars)) eqn:Hc.
    + vm_compute. intros H.
      repeat (apply elem_of_cons in H as [H|H]; [discriminate|]).
      inversion H.
    + now apply bool_decide_eq_false in Hc.
  - intros [= <-]. apply Forall_forall. intros c Hc Hin. revert Hc.
    vm_compute. intros Hc.
    repeat (apply elem_of_cons in Hc as [Hc|Hc];
            [subst c;
             repeat (apply elem_of_cons in Hin as [Hin|Hin]; [discriminate|]);
             inversion Hin|]).
    inversion Hc.
Qed.

Lemma safe_filename_no_slash (text : json) (name : str) :
  _get_safe_filename text = Ok name -> slash ∉ name.
Proof.
  intros H Hin. apply safe_filename_chars in H. rewrite Forall_forall in H.
  apply (H _ Hin). vm_compute. right. now left.
Qed.

(** One round of the loop, read off the item. *)
Lemma gallery_item_pair (is_mixed : bool) (d : Path) (i : nat) (item : json)
  (here : list (json * Path)) :
  gallery_item_tasks is_mixed d i item = Ok here ->
  exists video_urls,
    item_video_urls item = Ok video_urls /\
    if is_mixed && truthy video_urls
    then here = [(video_urls, div d (item_name true (i + 1)))]
    else exists img_urls,
           get item (U "url_list") JNull = Ok img_urls /\
           here = if truthy img_urls
                  then [(img_urls, div d (item_name false (i + 1)))]
                  else [].
Proof.
  unfold gallery_item_tasks.
  destruct (item_video_urls item) as [video_urls|]; simpl; [|discriminate].
  intros Hhere. exists video_urls. split; [reflexivity|]. revert Hhere.
  destruct (is_mixed && truthy video_urls).
  - now intros [= <-].
  - destruct (get item (U "url_list") JNull) as [img_urls|]; simpl;
      [|discriminate].
    intros Hhere. exists img_urls. split; [reflexivity|]. revert Hhere.
    destruct (truthy img_urls); now intros [= <-].
Qed.

(** The loop, item by item: the pairs are those of the items that have
    links, in the order of the media list. *)
Lemma gallery_loop_items (is_mixed : bool) (d : Path) (all : list json)
  (items : list json) (i : nat) (tasks : list (json * Path)) :
  drop i all = items ->
  gallery_loop is_mixed d i items = Ok tasks ->
  exists positions,
    StronglySorted lt positions /\
    Forall (fun j => (i <= j)%nat) positions /\
    Forall2 (pair_of_item is_mixed d all) positions tasks /\
    (forall j item, (i <= j)%nat -> all !! j = Some item ->
                    j ∉ positions -> item_without_links is_mixed item).
Proof.
  revert i tasks. induction items as [|item items IH]; intros i tasks Hdrop.
  - simpl. intros [= <-]. exists []. split; [constructor|].
    split; [constructor|]. split; [constructor|].
    intros j item Hj Hlook _. exfalso.
    apply lookup_lt_Some in Hlook.
    assert (Hlen : length (drop i all) = 0%nat) by now rewrite Hdrop.
    rewrite length_drop in Hlen. lia.
  - assert (Hhead : all !! i = Some item).
    { pose proof (lookup_drop all i 0) as H. rewrite Hdrop in H.
      rewrite Nat.add_0_r in H. now rewrite <- H. }
    assert (Htail : drop (S i) all = items).
    { replace (S i) with (i + 1)%nat by lia.
      rewrite <- drop_drop, Hdrop. reflexivity. }
    cbn [gallery_loop].
    destruct (gallery_item_tasks is_mixed d i item) as [here|] eqn:Hh;
      simpl; [|discriminate].
    destruct (gallery_loop is_mixed d (S i) items) as [rest|] eqn:Hr;
      simpl; [|discriminate].
    intros [= <-].
    destruct (IH (S i) rest Htail Hr) as (ps & Hsorted & Hlow & Hmade & Hskip).
    destruct (gallery_item_pair _ _ _ _ _ Hh) as (video_urls & Hv & Hshape).
    assert (Hothers : forall j item', (i <= j)%nat -> all !! j = Some item' ->
                        j <> i -> j ∉ ps -> item_without_links is_mixed item').
    { intros j item' Hj Hlook Hne Hnot. apply (Hskip j); [lia|assumption..]. }
    assert (Hlow' : Forall (fun j => (i <= j)%nat) ps).
    { eapply Forall_impl; [exact Hlow|]. intros; simpl in *; lia. }
    assert (Hcons : StronglySorted lt (i :: ps)).
    { constructor; [exact Hsorted|].
      eapply Forall_impl; [exact Hlow|]. intros; simpl in *; lia. }
    assert (Hfresh : i ∉ ps).
    { intros Hin. rewrite Forall_forall in Hlow. specialize (Hlow i Hin).
      simpl in Hlow. lia. }
    destruct (is_mixed && truthy video_urls) eqn:Hmix.
    + subst here. exists (i :: ps). split; [exact Hcons|].
      split; [constructor; [lia|exact Hlow']|]. split.
      * constructor; [|exact Hmade]. exists item, video_urls.
        split; [exact Hhead|]. split; [exact Hv|]. rewrite Hmix.
        split; [|reflexivity]. simpl. now apply andb_prop in Hmix.
      * intros j item' Hj Hlook Hnot. apply (Hothers j); try assumption.
        -- intros ->. apply Hnot. left.
        -- intros Hin. apply Hnot. now right.
    + destruct Hshape as (img_urls & Himg & ->).
      destruct (truthy img_urls) eqn:Htr.
      * exists (i :: ps). split; [exact Hcons|].
        split; [constructor; [lia|exact Hlow']|]. split.
        -- constructor; [|exact Hmade]. exists item, video_urls.
           split; [exact Hhead|]. split; [exact Hv|]. rewrite Hmix.
           split; [exact Htr|]. split; [exact Himg|reflexivity].
        -- intros j item' Hj Hlook Hnot. apply (Hothers j); try assumption.
           ++ intros ->. apply Hnot. left.
           ++ intros Hin. apply Hnot. now right.
      * exists ps. split; [exact Hsorted|]. split; [exact Hlow'|].
        split; [exact Hmade|].
        intros j item' Hj Hlook Hnot.
        destruct (decide (j = i)) as [->|Hne].
        -- rewrite Hhead in Hlook. injection Hlook as <-.
           exists video_urls, img_urls. auto.
        -- now apply (Hothers j).
Qed.

(** X14: the pairs of a gallery, item by item.  The pairs are listed in
    the order of the media list, at most one for each item: the pair of
    the item at position [j], counted from zero, holds the mirror list
    read from that very item (that of its video in a mixed gallery when
    it has one, its own [url_list] otherwise), which is not empty, and
    the destination [video_NN.mp4] or [image_NN.heic] in the folder of
    the gallery, where [NN] is [j + 1]; an item has no pair only when it
    has no such list.  No two pairs have the same destination. *)
Theorem gallery_destinations_distinct (detail : json) (is_mixed : bool)
  (folder : str) (tasks : list (json * Path)) :
  gallery_tasks env detail is_mixed = Ok (folder, tasks) ->
  exists media_list items author_dir positions,
    let save_dir := div author_dir folder in
    get detail (U "images") JNull = Ok media_list /\
    iter media_list = Ok items /\
    (length tasks <= length items)%nat /\
    NoDup (map snd tasks) /\
    StronglySorted lt positions /\
    Forall2 (pair_of_item is_mixed save_dir items) positions tasks /\
    (forall j item, items !! j = Some item -> j ∉ positions ->
                    item_without_links is_mixed item) /\
    Forall (fun t =>
              exists video j,
                (1 <= j <= length items)%nat /\
                snd t = div save_dir (item_name video j) /\
                name (snd t) = item_name video j /\
                (video = true -> is_mixed = true)) tasks.
Proof.
  unfold gallery_tasks.
  destruct (_extract_metadata env detail) as [[author_name desc]|]; simpl;
    [|discriminate].
  destruct (get detail (U "images") JNull) as [media_list|] eqn:Hget; simpl;
    [|discriminate].
  destruct (truthy media_list); simpl; [|discriminate].
  destruct (_get_safe_filename desc) as [folder_name|]; simpl; [|discriminate].
  destruct (div_value _ author_name) as [author_dir|]; simpl; [|discriminate].
  destruct (iter media_list) as [items|] eqn:Hiter; simpl; [|discriminate].
  destruct (gallery_loop is_mixed _ 0 items) as [download_tasks|] eqn:Hloop;
    simpl; [|discriminate].
  intros [= <- <-].
  destruct (gallery_loop_plan _ _ _ _ _ Hloop) as (Hlen & Hnd & Hall).
  destruct (gallery_loop_items is_mixed _ items items 0 _ eq_refl Hloop)
    as (positions & Hsorted & _ & Hmade & Hskip).
  exists media_list, items, author_dir, positions. cbv zeta.
  split; [reflexivity|]. split; [exact Hiter|]. split; [exact Hlen|].
  split; [exact Hnd|]. split; [exact Hsorted|]. split; [exact Hmade|].
  split; [intros j item Hlook; apply (Hskip j item); [lia|exact Hlook]|].
  eapply Forall_impl; [exact Hall|].
  intros t (Ht & video & j & Hj & Hp & Hm).
  exists video, j. split; [lia|]. split; [exact Hp|].
  split; [|exact Hm]. rewrite Hp. apply name_item.
Qed.

(** X15: the one pair of a single video.  Its mirror list is non-empty
    and its destination is named by the safe name of the description,
    at most 60 characters, followed by [.mp4].  The composite task takes
    it for a video file exactly when the safe name is not empty: a
    description made of dots and blanks gives the file [.mp4], which has
    no suffix. *)
Theorem single_video_destination (detail : json)
  (tasks : list (json * Path)) :
  single_video_tasks env detail = Ok tasks ->
  exists urls author_dir safe,
    tasks = [(urls, div author_dir (safe ++ U ".mp4"))] /\
    truthy urls = true /\
    name (div author_dir (safe ++ U ".mp4")) = safe ++ U ".mp4" /\
    (length safe <= 60)%nat /\
    (is_video_file (div author_dir (safe ++ U ".mp4")) = true <-> safe <> []).
Proof.
  unfold single_video_tasks.
  destruct (_extract_metadata env detail) as [[author_name desc]|]; simpl;
    [|discriminate].
  destruct (video_url_list detail) as [urls|]; simpl; [|discriminate].
  destruct (truthy urls) eqn:Hurls; simpl; [|discriminate].
  destruct (_get_safe_filename desc) as [safe|] eqn:Hsafe; simpl;
    [|discriminate].
  destruct (div_value _ author_name) as [author_dir|]; simpl; [|discriminate].
  intros [= <-]. exists urls, author_dir, safe.
  split; [reflexivity|]. split; [exact Hurls|].
  destruct (name_div_ext author_dir safe (U ".mp4")) as (seg & Hn & Hseg).
  { apply slash_not_in. reflexivity. }
  { vm_compute. lia. }
  rewrite (Hseg (safe_filename_no_slash _ _ Hsafe)) in Hn.
  split; [exact Hn|]. split.
  { revert Hsafe. unfold _get_safe_filename.
    destruct (truthy desc); simpl.
    - destruct desc; try discriminate. intros [= <-]. rewrite length_take. lia.
    - intros [= <-]. vm_compute. lia. }
  unfold is_video_file, suffix. rewrite Hn.
  rewrite name_suffix_ext by (reflexivity || (vm_compute; lia)).
  destruct safe as [|c safe].
  - split; [|congruence]. intros H. apply bool_decide_eq_true in H.
    vm_compute in H.
    repeat (apply elem_of_cons in H as [H|H]; [discriminate|]). inversion H.
  - split; [discriminate|]. intros _. apply bool_decide_eq_true.
    vm_compute. left.
Qed.

End GalleryPlan.

Section RouteTable.
Context (env : Env).

(** X16: routing is total on a document that is a dict.  The tags 2 and
    68 always select the image gallery; the document is unsupported
    exactly when its tag is none of 2, 68, 42 and 4 and it has neither
    images nor a video; and then [dispatch] logs it and returns the empty
    list, touching neither the disk nor the network. *)
Theorem unsupported_iff_nothing_recognised (kv : list (str * json))
  (key : str) (w : World) :
  exists mt images video s,
    get (JObj kv) (U "media_type") JNull = Ok mt /\
    get (JObj kv) (U "images") JNull = Ok images /\
    get (JObj kv) (U "video") JNull = Ok video /\
    route (JObj kv) = Ok (mt, s) /\
    (eq_int mt 2 || eq_int mt 68 = true -> s = GalleryImages) /\
    (s = Unsupported <->
     eq_int mt 2 || eq_int mt 68 || eq_int mt 42 || eq_int mt 4 = false /\
     truthy images = false /\ truthy video = false) /\
    (s = Unsupported ->
     dispatch env key (JObj kv) w =
       (Ok [], with_log ERROR (EvUnsupported mt)
                 (with_log INFO (EvProcessing key mt) w))).
Proof.
  unfold dispatch, route, of_res. simpl.
  set (mt := match assoc (U "media_type") kv with Some v => v | None => JNull end).
  set (images := match assoc (U "images") kv with Some v => v | None => JNull end).
  set (video := match assoc (U "video") kv with Some v => v | None => JNull end).
  exists mt, images, video. eexists.
  do 4 (split; [reflexivity|]).
  destruct (eq_int mt 2), (eq_int mt 68), (eq_int mt 42), (eq_int mt 4),
    (truthy images), (truthy video); simpl;
    (split; [first [reflexivity|discriminate]|]);
    (split;
     [first [split; [discriminate|intros (? & ? & ?); discriminate]
            |split; [auto|reflexivity]]
     |first [discriminate|reflexivity]]).
Qed.

End RouteTable.

(* ========================================================================= *)
(** * Jobs, the registry and the routes *)

Section JobFacts.
Context (repr : exn -> str).
Context (dl : str -> M (list Path)) (tr : Path -> M str).



Lemma failed_with_fields code mc detail j :
  status (failed_with code mc detail j) = FAILED /\
  result (failed_with code mc detail j) = result j /\
  is_Some (error (failed_with code mc detail j)) /\
  same_identity j (failed_with code mc detail j).
Proof. unfold same_identity. destruct mc; simpl; eauto 10. Qed.

Lemma with_message_fields mc j :
  status (with_message mc j) = status j /\
  result (with_message mc j) = result j /\
  error (with_message mc j) = error j /\
  same_identity j (with_message mc j).
Proof. unfold same_identity. destruct mc; simpl; auto 10. Qed.

Lemma run_final (vid : str) (run : T unit) (s : TaskState) :
  is_task_run repr dl tr vid run ->
  exists s', run s = (Ok tt, s') /\
    (s' = DownloadTask_final repr dl vid s \/
     s' = DownloadAndTranscribeTask_final repr dl tr vid s).
Proof.
  intros [-> | ->].
  - rewrite DownloadTask_run_eq. eauto.
  - rewrite DownloadAndTranscribeTask_run_eq. eauto.
Qed.

Ltac job_fields :=
  cbn [status result error task_id video_id created_at failed_with
       with_message set_error set_status set_message_text set_message_code
       set_result started job world transcribed] in *.

(** The job in which a run ends, for a job that starts without result and
    without error. *)
Lemma final_settled (vid : str) (s : TaskState) :
  result (job s) = None -> error (job s) = None ->
  (settled (job (DownloadTask_final repr dl vid s)) /\
   same_identity (job s) (job (DownloadTask_final repr dl vid s))) /\
  (settled (job (DownloadAndTranscribeTask_final repr dl tr vid s)) /\
   same_identity (job s) (job (DownloadAndTranscribeTask_final repr dl tr vid s))).
Proof.
  intros Hr He. unfold settled, same_identity, DownloadTask_final,
    DownloadAndTranscribeTask_final, transcription_final.
  destruct (dl vid (world s)) as [[[|f files]|e] w1]; job_fields.
  - split; (split; [right|]); rewrite ?Hr; eauto 6.
  - split.
    + split; [left|]; rewrite ?He; eauto 6.
    + destruct (find is_video_file (f :: files)) as [p|]; job_fields.
      * destruct (tr p w1) as [[[|c text]|e] w2]; job_fields;
          (split; [first [left; rewrite ?He; now eauto 6
                         |right; rewrite ?Hr; now eauto 6]|auto]).
      * split; [right|]; rewrite ?Hr; eauto 6.
  - split; (split; [right|]); rewrite ?Hr; eauto 6.
Qed.

(** X17: a run settles a job that starts without result and without
    error, whatever the collaborators do: it returns, the job ends
    Completed with a result and no error, or Failed with an error and no
    result, and its task id, work identifier and creation time are those
    it started with. *)
Theorem run_settles_fresh_job (vid : str) (run : T unit) (s : TaskState) :
  is_task_run repr dl tr vid run ->
  result (job s) = None -> error (job s) = None ->
  exists s',
    run s = (Ok tt, s') /\ settled (job s') /\ same_identity (job s) (job s').
Proof.
  intros Hrun Hr He.
  destruct (run_final vid run s Hrun) as (s' & Heq & Hfinal).
  destruct (final_settled vid s Hr He) as [Hd Hc].
  exists s'. split; [exact Heq|]. destruct Hfinal as [-> | ->]; assumption.
Qed.

Lemma final_terminal (vid : str) (s : TaskState) :
  ((status (job (DownloadTask_final repr dl vid s)) = COMPLETED \/
    status (job (DownloadTask_final repr dl vid s)) = FAILED) /\
   same_identity (job s) (job (DownloadTask_final repr dl vid s))) /\
  ((status (job (DownloadAndTranscribeTask_final repr dl tr vid s)) = COMPLETED \/
    status (job (DownloadAndTranscribeTask_final repr dl tr vid s)) = FAILED) /\
   same_identity (job s) (job (DownloadAndTranscribeTask_final repr dl tr vid s))).
Proof.
  unfold same_identity, DownloadTask_final,
    DownloadAndTranscribeTask_final, transcription_final.
  destruct (dl vid (world s)) as [[[|f files]|e] w1]; job_fields; auto 7.
  split; [auto 7|].
  destruct (find is_video_file (f :: files)) as [p|]; job_fields; [|auto 7].
  destruct (tr p w1) as [[[|c text]|e] w2]; job_fields; auto 7.
Qed.

End JobFacts.

Section ManagerFacts.
Context (env : Env) (repr : exn -> str).
Context (dl : str -> M (list Path)) (tr : Path -> M str).


Lemma run_registered_eq (tid : str) (task : Task) (s : ManagerState) :
  run_registered repr dl tr tid task s =
    (Ok tt,
     mkManagerState
       (<[tid := mkTask (kind task) (job (run_of repr dl tr task (mworld s)))
                        (task_video_id task)]> (_tasks s))
       (world (run_of repr dl tr task (mworld s)))).
Proof.
  unfold run_registered, run_of. destruct (kind task).
  - now rewrite DownloadTask_run_eq.
  - now rewrite DownloadAndTranscribeTask_run_eq.
Qed.

Lemma run_of_terminal (task : Task) (w : World) :
  (status (job (run_of repr dl tr task w)) = COMPLETED \/
   status (job (run_of repr dl tr task w)) = FAILED) /\
  same_identity (task_job task) (job (run_of repr dl tr task w)).
Proof.
  unfold run_of.
  destruct (final_terminal repr dl tr (task_video_id task)
              (mkTaskState (task_job task) w [])) as [Hd Hc].
  destruct (kind task); assumption.
Qed.

Lemma run_of_settled (task : Task) (w : World) :
  result (task_job task) = None -> error (task_job task) = None ->
  settled (job (run_of repr dl tr task w)).
Proof.
  intros Hr He. unfold run_of.
  destruct (final_settled repr dl tr (task_video_id task)
              (mkTaskState (task_job task) w []) Hr He) as [[Hd _] [Hc _]].
  destruct (kind task); assumption.
Qed.

(** [run_task] as a function of the registry. *)
Lemma run_task_eq (tid : str) (now : Z) (s : ManagerState) :
  run_task env repr dl tr tid now s =
  match _tasks s !! tid with
  | None =>
      (Ok tt, mkManagerState (_tasks s)
                (with_log WARNING (EvTaskNotFound tid) (mworld s)))
  | Some task =>
      cleanup_old_jobs env now
        (mkManagerState
           (<[tid := mkTask (kind task)
                       (job (run_of repr dl tr task
                               (with_log INFO (EvSemaphoreAcquired tid)
                                         (mworld s))))
                       (task_video_id task)]> (_tasks s))
           (world (run_of repr dl tr task
                     (with_log INFO (EvSemaphoreAcquired tid) (mworld s)))))
  end.
Proof.
  unfold run_task. simpl. unfold gets. simpl.
  destruct (_tasks s !! tid) as [task|]; [|reflexivity].
  unfold lift_world. simpl. now rewrite run_registered_eq.
Qed.

Lemma is_expired_identity (now : Z) (task task' : Task) :
  created_at (task_job task') = created_at (task_job task) ->
  is_expired env now task' = is_expired env now task.
Proof. unfold is_expired. now intros ->. Qed.

(** X18: [run_task] never raises.  For an id that is not registered it
    logs a warning and leaves the registry as it is, expired entries
    included.  For a registered id it runs the task and sweeps: every
    other entry is removed when expired and untouched otherwise, and the
    entry of the task is removed when expired and otherwise holds the
    same variant and work identifier, the same job identity, and a
    status that is Completed or Failed. *)
Theorem run_task_settles (tid : str) (now : Z) (s : ManagerState) :
  exists s',
    run_task env repr dl tr tid now s = (Ok tt, s') /\
    match _tasks s !! tid with
    | None =>
        _tasks s' = _tasks s /\
        mworld s' = with_log WARNING (EvTaskNotFound tid) (mworld s)
    | Some task =>
        (forall tid', tid' <> tid ->
           _tasks s' !! tid' =
           match _tasks s !! tid' with
           | Some t => if is_expired env now t then None else Some t
           | None => None
           end) /\
        match _tasks s' !! tid with
        | None => is_expired env now task = true
        | Some task' =>
            is_expired env now task = false /\
            kind task' = kind task /\
            task_video_id task' = task_video_id task /\
            same_identity (task_job task) (task_job task') /\
            (status (task_job task') = COMPLETED \/
             status (task_job task') = FAILED)
        end
    end.
Proof.
  rewrite run_task_eq.
  destruct (_tasks s !! tid) as [task|] eqn:Htid.
  - set (ran := run_of repr dl tr task _). set (s1 := mkManagerState _ _).
    exists (snd (cleanup_old_jobs env now s1)).
    split.
    { destruct (cleanup_old_jobs_tasks env now s1 tid) as [Hok _].
      destruct (cleanup_old_jobs env now s1) as [r s']. simpl in *.
      now rewrite Hok. }
    destruct (run_of_terminal task
                (with_log INFO (EvSemaphoreAcquired tid) (mworld s)))
      as [Hstatus Hid]. fold ran in Hstatus, Hid.
    split.
    + intros tid' Hne.
      destruct (cleanup_old_jobs_tasks env now s1 tid') as [_ ->].
      subst s1. simpl. now rewrite lookup_insert_ne by congruence.
    + destruct (cleanup_old_jobs_tasks env now s1 tid) as [_ ->].
      subst s1. simpl. rewrite lookup_insert_eq.
      rewrite (is_expired_identity now task (mkTask _ _ _))
        by (simpl; apply Hid).
      destruct (is_expired env now task); [reflexivity|]. simpl. auto 6.
  - eexists. split; [reflexivity|]. simpl. auto.
Qed.

End ManagerFacts.

Section Routes.
Context (env : Env) (repr : exn -> str).
Context (dl : str -> M (list Path)) (tr : Path -> M str).


Lemma submit_eq (transcribe : bool) (tid vid : str) (now : Z)
  (s : ManagerState) :
  submit transcribe tid vid now s =
    (Ok (mkTaskResponse (U "queued") tid
           (if transcribe then transcribe_submitted else download_submitted)),
     mkManagerState
       (<[tid := mkTask (if transcribe then DownloadAndTranscribe
                         else DownloadOnly)
                        (with_message MC_DOWNLOAD_PENDING (new_job tid vid now))
                        vid]> (_tasks s))
       (mworld s)).
Proof. destruct transcribe; reflexivity. Qed.

(** X19: both submission routes answer [queued] with the task id and
    register the job without touching the world or the other entries:
    polled at once, the job is Pending under the message code
    DOWNLOAD_PENDING, for the download-and-transcribe route as well, with
    the work identifier and the clock reading of the submission, and with
    neither result nor error. *)
Theorem submitted_job_is_pending (transcribe : bool) (tid vid : str)
  (now : Z) (s : ManagerState) :
  exists resp s' job,
    submit transcribe tid vid now s = (Ok resp, s') /\
    response_status resp = U "queued" /\ response_task_id resp = tid /\
    mworld s' = mworld s /\
    (forall tid', tid' <> tid ->
       get_task_status tid' s' =
         (fst (get_task_status tid' s), s')) /\
    get_task_status tid s' = (Ok (Served job), s') /\
    status job = PENDING /\ message_code job = Some MC_DOWNLOAD_PENDING /\
    MESSAGE_TEMPLATES MC_DOWNLOAD_PENDING = Some (message job) /\
    task_id job = tid /\ video_id job = vid /\ created_at job = now /\
    result job = None /\ error job = None.
Proof.
  rewrite submit_eq. eexists _, _, _. split; [reflexivity|].
  split; [reflexivity|]. split; [reflexivity|]. split; [reflexivity|].
  split.
  { intros tid' Hne. unfold get_task_status, get_job, gets. simpl.
    rewrite lookup_insert_ne by congruence.
    destruct (_tasks s !! tid'); reflexivity. }
  split.
  { unfold get_task_status, get_job, gets. simpl.
    rewrite lookup_insert_eq. reflexivity. }
  repeat split.
Qed.

(** X20: submit, run, poll.  After the background run of a submitted job
    at clock reading [now'], polling the task id answers 404 when the
    age of the job, the double [now' - now], exceeds the retention
    window, and otherwise serves the job, settled (Completed with a
    result or Failed with an error), under the submitted task id, work
    identifier and creation time. *)
Theorem submit_run_poll (transcribe : bool) (tid vid : str) (now now' : Z)
  (s : ManagerState) :
  exists resp s1 s2,
    submit transcribe tid vid now s = (Ok resp, s1) /\
    run_task env repr dl tr tid now' s1 = (Ok tt, s2) /\
    if double_gt_int (fsub now' now) (JOB_RETENTION_SECONDS (settings env))
    then get_task_status tid s2 =
           (Ok (Refused 404 (U "Task not found or expired")), s2)
    else exists job,
           get_task_status tid s2 = (Ok (Served job), s2) /\
           settled job /\
           task_id job = tid /\ video_id job = vid /\ created_at job = now.
Proof.
  rewrite submit_eq. eexists _, _. 
  match goal with
  | |- exists s2, (_, ?s1) = _ /\ _ =>
      destruct (run_task_settles env repr dl tr tid now' s1)
        as (s2 & Hrun & Hreg);
      pose proof (run_task_eq env repr dl tr tid now' s1) as Heq
  end.
  exists s2. split; [reflexivity|]. split; [exact Hrun|].
  simpl in Hreg, Heq. rewrite lookup_insert_eq in Hreg, Heq.
  destruct Hreg as [_ Hreg].
  set (task := mkTask _ _ vid) in *.
  assert (Hexp : is_expired env now' task =
                 double_gt_int (fsub now' now)
                               (JOB_RETENTION_SECONDS (settings env))).
  { unfold is_expired. subst task. now destruct transcribe. }
  unfold get_task_status, get_job, gets. simpl.
  destruct (_tasks s2 !! tid) as [task'|] eqn:Hlook.
  - destruct Hreg as (Hfalse & _ & _ & Hid & _).
    rewrite <- Hexp, Hfalse. exists (task_job task').
    split; [reflexivity|].
    rewrite Hrun in Heq.
    destruct (cleanup_old_jobs_tasks env now'
                (mkManagerState
                   (<[tid := mkTask (kind task)
                       (job (run_of repr dl tr task
                               (with_log INFO (EvSemaphoreAcquired tid)
                                         (mworld s))))
                       (task_video_id task)]>
                      (<[tid := task]> (_tasks s)))
                   (world (run_of repr dl tr task
                     (with_log INFO (EvSemaphoreAcquired tid) (mworld s)))))
                tid) as [_ Hclean].
    rewrite <- Heq in Hclean. simpl in Hclean. rewrite Hlook in Hclean.
    rewrite lookup_insert_eq in Hclean.
    destruct (is_expired env now' (mkTask _ _ _)); [discriminate|].
    injection Hclean as ->. simpl.
    split.
    + apply run_of_settled; subst task; now destruct transcribe.
    + destruct Hid as (H1 & H2 & H3). simpl in *.
      subst task. destruct transcribe; simpl in *; auto.
  - now rewrite <- Hexp, Hreg.
Qed.

End Routes.

Section Sweeps.
Context (env : Env).

(** X21: sweeps compose.  A sweep at a later clock reading removes what
    an earlier one would have removed: sweeping at [now] and then at
    [now'] leaves the registry of one sweep at [now']; and a second sweep
    at the same reading changes nothing and logs nothing. *)
Theorem sweeps_compose (now now' : Z) (s : ManagerState) :
  (now <= now')%Z ->
  let s1 := snd (cleanup_old_jobs env now s) in
  _tasks (snd (cleanup_old_jobs env now' s1)) =
    _tasks (snd (cleanup_old_jobs env now' s)) /\
  cleanup_old_jobs env now s1 = (Ok tt, s1).
Proof.
  intros Hle s1. split.
  - apply map_eq. intros k.
    destruct (cleanup_old_jobs_tasks env now' s1 k) as [_ ->].
    destruct (cleanup_old_jobs_tasks env now' s k) as [_ ->].
    subst s1. destruct (cleanup_old_jobs_tasks env now s k) as [_ ->].
    destruct (_tasks s !! k) as [task|]; [|reflexivity].
    destruct (is_expired env now task) eqn:Hexp; [|reflexivity].
    replace (is_expired env now' task) with true; [reflexivity|].
    symmetry. unfold is_expired in *.
    exact (fsub_gt_mono now now' _ _ Hle Hexp).
  - assert (Hnone : filter (fun kv => is_expired env now (snd kv) = true)
                           (map_to_list (_tasks s1)) = []).
    { destruct (filter _ _) as [|[k task] l] eqn:Hf; [reflexivity|].
      assert (Hin : (k, task) ∈ filter
                (fun kv => is_expired env now (snd kv) = true)
                (map_to_list (_tasks s1))) by (rewrite Hf; left).
      apply list_elem_of_filter in Hin as [Hexp Hin]. simpl in Hexp.
      apply elem_of_map_to_list in Hin. subst s1.
      destruct (cleanup_old_jobs_tasks env now s k) as [_ Hlook].
      rewrite Hin in Hlook.
      destruct (_tasks s !! k) as [task0|]; [|discriminate].
      destruct (is_expired env now task0) eqn:Hexp0; [discriminate|].
      congruence. }
    unfold cleanup_old_jobs at 1. simpl. unfold gets, modify. simpl.
    rewrite Hnone. simpl. now destruct s1.
Qed.

End Sweeps.

Section RealDownloader.
Context (env : Env) (self : DouyinDownloader) (repr : exn -> str).
Context (tr : Path -> M str).


(** X23: with the downloader of the program, which catches every
    exception itself, no run of either task variant ends under
    INTERNAL_ERROR, whatever the transcriber does. *)
Theorem run_never_internal_error (vid : str) (run : T unit)
  (s : TaskState) :
  is_task_run repr (download env self) tr vid run ->
  exists s',
    run s = (Ok tt, s') /\
    (status (job s') = COMPLETED \/
     exists code detail,
       failed_as code detail (job s') /\ code <> INTERNAL_ERROR).
Proof.
  intros [-> | ->].
  - rewrite DownloadTask_run_eq. eexists. split; [reflexivity|].
    unfold DownloadTask_final.
    destruct (download_returns env self vid (world s))
      as (found & w' & -> & _).
    destruct found; [right|left; reflexivity].
    eexists _, _. split; [apply failed_with_failed_as|discriminate].
  - rewrite DownloadAndTranscribeTask_run_eq. eexists.
    split; [reflexivity|].
    unfold DownloadAndTranscribeTask_final, transcription_final.
    destruct (download_returns env self vid (world s))
      as (found & w' & -> & _).
    destruct found as [|f found].
    { right. eexists _, _. split; [apply failed_with_failed_as|discriminate]. }
    destruct (find is_video_file (f :: found)) as [p|]; simpl.
    + destruct (tr p w') as [[[|c text]|e] w2]; simpl;
        [right|left; reflexivity|right];
        (eexists _, _; split; [apply failed_with_failed_as|discriminate]).
    + right. eexists _, _. split; [apply failed_with_failed_as|discriminate].
Qed.

End RealDownloader.

(* ========================================================================= *)
(** * The transcriber *)

Section SuffixFacts.

Lemma name_with_suffix (p q : Path) (ext : str) :
  with_suffix p ext = Ok q ->
  exists seg, seg <> [] /\ name q = seg ++ ext /\
              root q = root p /\ parent q = parent p.
Proof.
  unfold with_suffix. cbv zeta.
  destruct (name p) as [|c n] eqn:Hn; [discriminate|].
  intros [= <-]. unfold name at 1, parent. simpl.
  rewrite last_last, removelast_last.
  destruct (suffix p) as [|d old] eqn:Hold.
  - exists (c :: n). auto.
  - eexists. split; [|split; [reflexivity|auto]].
    revert Hold. unfold suffix, name_suffix. rewrite Hn.
    destruct (rfind_dot (c :: n)) as [i|]; [|discriminate].
    destruct ((0 <? i)%nat && (i <? length (c :: n) - 1)%nat) eqn:Hi;
      [|discriminate].
    apply andb_prop in Hi as [H0 H1].
    apply Nat.ltb_lt in H0, H1. intros Hd.
    rewrite <- Hd, length_drop.
    simpl length in *.
    replace (S (length n) - (S (length n) - i))%nat with i by lia.
    destruct i; [lia|]. simpl. discriminate.
Qed.

(** The suffix of [p.with_suffix(ext)] is [ext]. *)
Lemma suffix_with_suffix (p q : Path) (ext : str) :
  rfind_dot ext = Some 0%nat -> (2 <= length ext)%nat ->
  with_suffix p ext = Ok q -> suffix q = ext.
Proof.
  intros Hdot Hlen Hq.
  destruct (name_with_suffix p q ext Hq) as (seg & Hseg & Hname & _).
  unfold suffix. rewrite Hname, name_suffix_ext by assumption.
  destruct seg; [congruence|reflexivity].
Qed.

Lemma needs_audio_named (p : Path) :
  needs_audio p = true -> exists a, with_suffix p mp3 = Ok a.
Proof.
  unfold needs_audio, with_suffix, suffix. intros H.
  destruct (name p) as [|c n]; [|eauto].
  apply bool_decide_eq_true in H. vm_compute in H.
  repeat (apply elem_of_cons in H as [H|H]; [discriminate|]). inversion H.
Qed.

Lemma audio_is_not_video (p a : Path) :
  needs_audio p = true -> with_suffix p mp3 = Ok a -> a <> p.
Proof.
  intros Hp Ha ->.
  apply suffix_with_suffix in Ha; [|reflexivity|vm_compute; lia].
  unfold needs_audio in Hp. rewrite Ha in Hp.
  apply bool_decide_eq_true in Hp. vm_compute in Hp.
  repeat (apply elem_of_cons in Hp as [Hp|Hp]; [discriminate|]). inversion Hp.
Qed.

Lemma text_is_not_audio (p a t : Path) :
  with_suffix p mp3 = Ok a -> with_suffix p txt = Ok t -> t <> a.
Proof.
  intros Ha Ht ->.
  apply suffix_with_suffix in Ha; [|reflexivity|vm_compute; lia].
  apply suffix_with_suffix in Ht; [|reflexivity|vm_compute; lia].
  rewrite Ha in Ht. discriminate.
Qed.


End SuffixFacts.

Section TranscriberFacts.
Context (env : Env) (asr : Asr).

#[local] Arguments utf8_encode : simpl never.

(** Steps 2 and 3 return what the inference returns: a failure to save
    the text is not one of the transcription. *)
Lemma infer_and_save_spec (file_path process_file : Path) (w : World) :
  infer_and_save env asr file_path process_file w =
    (whisper asr (files w !! process_file),
     mkWorld (after_saving env (files w) file_path
                (whisper asr (files w !! process_file)))
             (video_index w) (requests w) (logs w)).
Proof.
  unfold infer_and_save, _run_inference, read_file, gets, of_res,
    after_saving.
  simpl.
  destruct (whisper asr (files w !! process_file)) as [[|c text]|e];
    simpl; try (now destruct w).
  unfold try_except. simpl.
  destruct (with_suffix file_path txt) as [t|]; simpl; [|now destruct w].
  unfold write_text, write_file.
  destruct (utf8_encode (c :: text)) as [b|]; simpl;
    destruct (writable env t); simpl; now destruct w.
Qed.


Lemma after_saving_other (fs : gmap Path FileData) (p q : Path)
  (r : res str) :
  (forall t, with_suffix p txt = Ok t -> t <> q) ->
  after_saving env fs p r !! q = fs !! q.
Proof.
  intros Hq. unfold after_saving.
  destruct r as [[|c text]|e]; try reflexivity.
  destruct (with_suffix p txt) as [t|]; [|reflexivity].
  destruct (writable env t); [|reflexivity].
  apply lookup_insert_ne. now apply Hq.
Qed.

Lemma transcribe_video_unfold (p : Path) (w : World) :
  needs_audio p = true -> is_Some (files w !! p) ->
  transcribe env asr p w =
    match extract_audio asr p w with
    | (Ok a, w0) =>
        (do outcome <- capture (infer_and_save env asr p a);
         cleanup_audio p a;;
         of_res outcome) w0
    | (Raise e, w0) => (Raise e, w0)
    end.
Proof.
  intros Hv Hp. unfold transcribe, path_exists, gets. simpl.
  rewrite bool_decide_true by exact Hp. simpl. rewrite Hv.
  destruct (extract_audio asr p w) as [[a|e] w0]; reflexivity.
Qed.

Lemma extract_audio_spec (p a : Path) (w : World) :
  with_suffix p mp3 = Ok a ->
  extract_audio asr p w =
    match files w !! a, ffmpeg asr p (files w !! p) with
    | Some _, _ => (Ok a, w)
    | None, FfmpegDone audio =>
        (Ok a, mkWorld (<[a := FBytes audio]> (files w)) (video_index w)
                       (requests w) (logs w))
    | None, FfmpegFailed leftover stderr_decodes =>
        (Raise (ffmpeg_error stderr_decodes),
         match leftover with
         | Some partial =>
             mkWorld (<[a := FBytes partial]> (files w)) (video_index w)
                     (requests w) (logs w)
         | None => w
         end)
    | None, ShellExpanded effect status_zero stderr_decodes =>
        (if status_zero then Ok a else Raise (ffmpeg_error stderr_decodes),
         shell_effect effect w)
    end.
Proof.
  intros Ha. unfold extract_audio, path_exists, read_file, put_file, gets,
    modify, of_res, raise. simpl. rewrite Ha.
  destruct (files w !! a) as [d|] eqn:Haw.
  - rewrite bool_decide_true by eauto. reflexivity.
  - rewrite bool_decide_false by (intros [? [=]]).
    destruct (ffmpeg asr p (files w !! p))
      as [audio|[partial|] decodes|effect [] decodes]; reflexivity.
Qed.

(** With the audio at hand: the inference, the text file, and the audio
    removed whatever the inference did. *)
Lemma transcribe_finish (p a : Path) (w0 : World) :
  with_suffix p mp3 = Ok a -> a <> p ->
  (do outcome <- capture (infer_and_save env asr p a);
   cleanup_audio p a;;
   of_res outcome) w0 =
    (whisper asr (files w0 !! a),
     mkWorld (delete a (after_saving env (files w0) p
                          (whisper asr (files w0 !! a))))
             (video_index w0) (requests w0) (logs w0)).
Proof.
  intros Ha Hne. unfold capture, cleanup_audio, path_exists, gets,
    unlink, modify, of_res.
  simpl. rewrite infer_and_save_spec. simpl.
  assert (Hsame : forall r, after_saving env (files w0) p r !! a
                            = files w0 !! a).
  { intros r. apply after_saving_other.
    intros t Ht. eapply text_is_not_audio; eassumption. }
  rewrite Hsame.
  destruct (files w0 !! a) as [d|] eqn:Hpresent.
  - rewrite bool_decide_true by eauto.
    rewrite bool_decide_false by exact Hne. reflexivity.
  - rewrite bool_decide_false by (intros [? [=]]). simpl.
    rewrite delete_id by (now rewrite Hsame). reflexivity.
Qed.


(** X25: a file that is no video.  When it is missing [transcribe]
    raises and changes nothing; otherwise it returns what the inference
    returns on the file itself, a failure to save the text being no
    failure of the transcription, and the only file that can change is
    the [.txt] sibling. *)
Theorem transcribe_returns_the_inference (p : Path) (w : World) :
  needs_audio p = false ->
  transcribe env asr p w =
    match files w !! p with
    | None => (Raise (ExternalError (U "FileNotFoundError")), w)
    | Some d =>
        (whisper asr (Some d),
         mkWorld (after_saving env (files w) p (whisper asr (Some d)))
                 (video_index w) (requests w) (logs w))
    end.
Proof.
  intros Hv. unfold transcribe, path_exists, gets. simpl.
  destruct (files w !! p) as [d|] eqn:Hp.
  - rewrite bool_decide_true by eauto. simpl. rewrite Hv.
    now rewrite infer_and_save_spec, Hp.
  - rewrite bool_decide_false by (intros [? [=]]). reflexivity.
Qed.

(** X26: when [ffmpeg] fails and leaves a partial file at the audio path,
    [transcribe] raises and the partial file stays; transcribing the same
    video again does not run [ffmpeg]: it returns what the inference
    returns on the partial file, and removes it. *)
Theorem leftover_audio_is_reused (p : Path) (w : World) (partial : bytes)
  (stderr_decodes : bool) :
  needs_audio p = true -> is_Some (files w !! p) ->
  (forall a, with_suffix p mp3 = Ok a -> files w !! a = None) ->
  ffmpeg asr p (files w !! p) = FfmpegFailed (Some partial) stderr_decodes ->
  exists a w1 w2,
    with_suffix p mp3 = Ok a /\
    transcribe env asr p w = (Raise (ffmpeg_error stderr_decodes), w1) /\
    files w1 !! a = Some (FBytes partial) /\
    transcribe env asr p w1 = (whisper asr (Some (FBytes partial)), w2) /\
    files w2 !! a = None.
Proof.
  intros Hv Hp Habsent Hff.
  destruct (needs_audio_named p Hv) as [a Ha].
  pose proof (audio_is_not_video p a Hv Ha) as Hne.
  exists a. rewrite (transcribe_video_unfold p w Hv Hp).
  rewrite (extract_audio_spec p a w Ha), (Habsent a Ha), Hff.
  eexists _, _. split; [exact Ha|]. split; [reflexivity|]. simpl.
  split; [apply lookup_insert_eq|].
  rewrite transcribe_video_unfold;
    [|exact Hv|simpl; now rewrite lookup_insert_ne by exact Hne].
  rewrite (extract_audio_spec p a _ Ha). cbn [files].
  rewrite lookup_insert_eq. cbv iota.
  rewrite (transcribe_finish p a _ Ha Hne).
  cbn [files]. rewrite lookup_insert_eq. split; [reflexivity|].
  cbn [files]. apply lookup_delete_eq.
Qed.

End TranscriberFacts.

Section CompositeJob.
Context (env : Env) (asr : Asr) (repr : exn -> str).
Context (dl : str -> M (list Path)).

Lemma video_file_needs_audio (p : Path) :
  is_video_file p = true -> needs_audio p = true.
Proof.
  unfold is_video_file, needs_audio. intros H.
  apply bool_decide_eq_true in H. apply bool_decide_eq_true.
  repeat (apply elem_of_cons in H as [H|H];
          [rewrite H; repeat ((now left) || right)|]).
  inversion H.
Qed.

(** X27: the composite task with the transcriber of the program.  For
    the first video file of a download, on disk, the job ends Failed
    under TRANSCRIBE_FAILED when the audio cannot be extracted;
    otherwise the [.mp3] sibling is gone when the run ends and the job
    follows the inference on the audio: Completed with the text as its
    result, Failed under TRANSCRIBE_EMPTY for an empty text, Failed under
    TRANSCRIBE_FAILED when the inference raises. *)
Theorem composite_job_transcribes_audio (vid : str) (s : TaskState)
  (found : list Path) (w1 : World) (p : Path) :
  dl vid (world s) = (Ok found, w1) ->
  find is_video_file found = Some p ->
  is_Some (files w1 !! p) ->
  exists a s',
    with_suffix p mp3 = Ok a /\ a <> p /\
    DownloadAndTranscribeTask_run repr dl (transcribe env asr) vid s
      = (Ok tt, s') /\
    let audio := match files w1 !! a, ffmpeg asr p (files w1 !! p) with
                 | Some d, _ => Ok (Some d)
                 | None, FfmpegDone b => Ok (Some (FBytes b))
                 | None, FfmpegFailed _ stderr_decodes =>
                     Raise (ffmpeg_error stderr_decodes)
                 | None, ShellExpanded effect status_zero stderr_decodes =>
                     if status_zero then Ok (files (effect w1) !! a)
                     else Raise (ffmpeg_error stderr_decodes)
                 end in
    match audio with
    | Raise e => failed_as TRANSCRIBE_FAILED (Some (repr e)) (job s')
    | Ok d =>
        files (world s') !! a = None /\
        match whisper asr d with
        | Ok [] => failed_as TRANSCRIBE_EMPTY None (job s')
        | Ok text =>
            status (job s') = COMPLETED /\
            result (job s') = Some (ResultText text)
        | Raise e => failed_as TRANSCRIBE_FAILED (Some (repr e)) (job s')
        end
    end.
Proof.
  intros Hdl Hfind Hp.
  pose proof (video_file_needs_audio p) as Hv.
  destruct (find_is_first _ _ _ Hfind) as (_ & _ & _ & Hvideo & _).
  specialize (Hv Hvideo).
  destruct (needs_audio_named p Hv) as [a Ha].
  pose proof (audio_is_not_video p a Hv Ha) as Hne.
  exists a. rewrite DownloadAndTranscribeTask_run_eq. eexists.
  split; [exact Ha|]. split; [exact Hne|]. split; [reflexivity|].
  unfold DownloadAndTranscribeTask_final. rewrite Hdl.
  destruct found as [|f found]; [discriminate|].
  unfold transcription_final. rewrite Hfind. cbn [world].
  rewrite (transcribe_video_unfold env asr p w1 Hv Hp).
  rewrite (extract_audio_spec asr p a w1 Ha).
  assert (Hdone : forall w0 d,
            files w0 !! a = d ->
            let s' :=
              let (r, w2) :=
                (do outcome <- capture (infer_and_save env asr p a);
                 cleanup_audio p a;;
                 of_res outcome) w0 in
              match r with
              | Ok [] =>
                  mkTaskState
                    (failed_with TRANSCRIBE_EMPTY MC_TRANSCRIBE_EMPTY None
                       (with_message MC_TRANSCRIBE_RUNNING (started (job s))))
                    w2 (p :: transcribed s)
              | Ok text =>
                  mkTaskState
                    (with_message MC_TRANSCRIBE_SUCCESS
                       (set_result (ResultText text)
                          (set_status COMPLETED
                             (with_message MC_TRANSCRIBE_RUNNING
                                (started (job s))))))
                    w2 (p :: transcribed s)
              | Raise e =>
                  mkTaskState
                    (failed_with TRANSCRIBE_FAILED MC_TRANSCRIBE_FAILED
                       (Some (repr e))
                       (with_message MC_TRANSCRIBE_RUNNING (started (job s))))
                    (with_log ERROR (EvTranscribeError (task_id (job s))) w2)
                    (p :: transcribed s)
              end in
            files (world s') !! a = None /\
            match whisper asr d with
            | Ok [] => failed_as TRANSCRIBE_EMPTY None (job s')
            | Ok text =>
                status (job s') = COMPLETED /\
                result (job s') = Some (ResultText text)
            | Raise e => failed_as TRANSCRIBE_FAILED (Some (repr e)) (job s')
            end).
  { intros w0 d Hd.
    rewrite (transcribe_finish env asr p a w0 Ha Hne).
    rewrite Hd.
    destruct (whisper asr d) as [[|c text]|e]; cbn [world job files];
      (split; [apply lookup_delete_eq|]);
      first [apply failed_with_failed_as|split; reflexivity]. }
  destruct (files w1 !! a) as [d|] eqn:Haw.
  - apply (Hdone w1 (Some d) Haw).
  - destruct (ffmpeg asr p (files w1 !! p))
      as [audio|leftover decodes|effect [] decodes].
    + apply Hdone. cbn [files]. apply lookup_insert_eq.
    + cbn [job]. apply failed_with_failed_as.
    + apply Hdone. reflexivity.
    + cbn [job]. apply failed_with_failed_as.
Qed.

End CompositeJob.

(* ========================================================================= *)
(** * Calls of the metadata API *)

#[global] Instance same_api_preorder : PreOrder same_api.
Proof.
  split.
  - intros w. reflexivity.
  - intros w1 w2 w3 H1 H2. unfold same_api in *. congruence.
Qed.

Lemma keeps_log_api l e : keeps same_api (log l e).
Proof. apply keeps_modify. intros w. reflexivity. Qed.
Lemma keeps_unlink_api p : keeps same_api (unlink p).
Proof. apply keeps_modify. intros w. reflexivity. Qed.
Lemma keeps_send_get_api u : keeps same_api (send (ReqGet u)).
Proof. apply keeps_modify. intros w. reflexivity. Qed.
Lemma keeps_write_api env p d : keeps same_api (write_file env p d).
Proof.
  intros w r w'. unfold write_file. destruct (writable env p); intros [= _ <-];
    reflexivity.
Qed.
Lemma keeps_upsert_api env key folder : keeps same_api (upsert env key folder).
Proof.
  unfold upsert. destruct (db_up env); [|frame].
  destruct (varchar255 key); [|frame]. destruct (varchar255 folder); [|frame].
  apply keeps_modify. intros w. reflexivity.
Qed.

#[global] Hint Resolve keeps_log_api keeps_unlink_api keeps_send_get_api
  keeps_write_api keeps_upsert_api same_api_preorder : frames.

Lemma keeps_json_dump_api env p d : keeps same_api (json_dump env p d).
Proof. unfold json_dump. frame. Qed.

#[global] Hint Resolve keeps_json_dump_api : frames.


Section ApiCalls.
Context (env : Env) (self : DouyinDownloader).

Lemma keeps_save_api dm key doc : keeps same_api (save_new_data env dm key doc).
Proof. unfold save_new_data, folder_name_of. frame. Qed.

Lemma keeps_http_get_api url : keeps same_api (http_get env url).
Proof. unfold http_get. frame. Qed.

Lemma keeps_download_file_api url p : keeps same_api (_download_file env url p).
Proof. unfold _download_file, http_get, heic_to_jpg. frame. Qed.

Lemma keeps_try_links_api links i n p :
  keeps same_api (try_links env links i n p).
Proof.
  revert i. induction links as [|url links IH]; intros i; cbn [try_links].
  - frame.
  - frame. apply keeps_http_get_api.
Qed.

Lemma keeps_download_with_retry_api urls p :
  keeps same_api (_download_with_retry env urls p).
Proof.
  unfold _download_with_retry, awaits_conversion. frame.
  apply keeps_try_links_api.
Qed.

Lemma keeps_gather_api (tasks : list (M unit)) :
  Forall (keeps same_api) tasks -> keeps same_api (gather tasks).
Proof.
  induction 1 as [|t tasks Ht Hts IH]; cbn [gather]; frame; assumption.
Qed.

Lemma keeps_report_failures_api items : keeps same_api (report_failures items).
Proof.
  induction items as [|[p [[]|e]] items IH]; cbn [report_failures]; frame;
    assumption.
Qed.

Lemma keeps_batch_download_api pairs :
  keeps same_api (_batch_download env pairs).
Proof.
  unfold _batch_download, existing. destruct pairs as [|t pairs]; [frame|].
  apply keeps_bind; [typeclasses eauto| |intros results].
  - apply keeps_gather_api. apply Forall_forall. intros m Hm.
    apply list_elem_of_In, in_map_iff in Hm as (t' & <- & _).
    apply keeps_download_with_retry_api.
  - apply keeps_bind; [typeclasses eauto| |intros _].
    + apply keeps_report_failures_api.
    + apply keeps_gets. typeclasses eauto.
Qed.

Lemma keeps_dispatch_api key detail : keeps same_api (dispatch env key detail).
Proof.
  unfold dispatch.
  apply keeps_bind; [typeclasses eauto|frame|intros [mt strategy]].
  apply keeps_bind; [typeclasses eauto|frame|intros _].
  destruct strategy; unfold _process_gallery, _process_single_video.
  - apply keeps_bind; [typeclasses eauto|frame|intros [folder tasks]].
    apply keeps_bind; [typeclasses eauto|frame|intros _].
    apply keeps_batch_download_api.
  - apply keeps_bind; [typeclasses eauto|frame|intros [folder tasks]].
    apply keeps_bind; [typeclasses eauto|frame|intros _].
    apply keeps_batch_download_api.
  - apply keeps_bind; [typeclasses eauto|frame|intros tasks].
    apply keeps_batch_download_api.
  - frame.
Qed.

(** A computation that keeps [R], followed by one that keeps [S] and a
    handler that keeps [S], keeps [R] when [R] absorbs [S]. *)
Lemma keeps_try_bind_then {A B} (R S : World -> World -> Prop)
  `{!PreOrder S} (m : M A) (k : A -> M B) (h : exn -> M B) :
  (forall w1 w2 w3, R w1 w2 -> S w2 w3 -> R w1 w3) ->
  keeps R m -> (forall a, keeps S (k a)) -> (forall e, keeps S (h e)) ->
  keeps R (try_except (bind m k) h).
Proof.
  intros Habs Hm Hk Hh w r w'. unfold try_except. simpl.
  destruct (m w) as [[a|e] w1] eqn:Hmw.
  - destruct (k a w1) as [[b|e] w2] eqn:Hka.
    + intros [= _ <-]. eapply Habs; [eapply Hm|eapply Hk]; eassumption.
    + intros Hhe. eapply Habs; [eapply Hm; eassumption|].
      transitivity w2; [eapply Hk|eapply Hh]; eassumption.
  - intros Hhe. eapply Habs; [eapply Hm|eapply Hh]; eassumption.
Qed.

Lemma ask_api_calls (api_url : str) (params : json) (key : str) :
  keeps (fun w w' => api_requests w' = (api_url, params) :: api_requests w)
        (ask_api env self api_url params key).
Proof.
  unfold ask_api.
  apply (keeps_try_bind_then _ same_api).
  - intros w1 w2 w3 H12 H23. unfold same_api in H23. congruence.
  - intros w r w'. unfold api_get, send, modify. simpl.
    destruct (api_response env api_url params); intros [= _ <-]; reflexivity.
  - intros data. frame.
  - intros e. frame.
Qed.

Lemma fetch_api_calls (api_url : str) (params : json) (key : str) :
  keeps (fetch_calls env self api_url params key)
        (_fetch_aweme_data env self api_url params key).
Proof.
  intros w r w' Hrun. unfold fetch_calls.
  destruct (get_data_path_spec env (data_manager self) key w)
    as (found & w0 & Hgp & (Hf & Hi & Hr) & _ & Hhit).
  rewrite Hgp. simpl. destruct found as [p|].
  - destruct (Hhit p eq_refl) as (-> & _ & Hfile & _).
    rewrite (fetch_hit env self _ _ _ _ _ Hgp Hfile) in Hrun.
    assert (Hk : keeps same_api (json_load p)) by (unfold json_load; frame).
    exact (Hk _ _ _ Hrun).
  - rewrite (fetch_miss env self _ _ _ _ _ Hgp) in Hrun.
    rewrite (ask_api_calls api_url params key _ _ _ Hrun).
    unfold api_requests. simpl. now rewrite Hr.
Qed.

Lemma keeps_after_fetch_api key data :
  keeps same_api (after_fetch env key data).
Proof.
  unfold after_fetch.
  apply keeps_bind; [typeclasses eauto|frame|intros payload].
  apply keeps_bind; [typeclasses eauto|frame|intros detail].
  destruct (negb (truthy detail)); [frame|apply keeps_dispatch_api].
Qed.

(** X28: one call of [download] calls the metadata API at most once: not
    at all when the input does not parse or when the lookup of the cache
    key hits, and otherwise exactly once, at the endpoint and with the
    parameters the input was parsed to, whatever happens afterwards. *)
Theorem download_calls_api_at_most_once (text : str) (w : World) :
  exists found w',
    download env self text w = (Ok found, w') /\
    match _parse_input env text with
    | Raise _ => api_requests w' = api_requests w
    | Ok (api_url, params, key) =>
        fetch_calls env self api_url params key w w'
    end.
Proof.
  destruct (download_returns env self text w) as (found & w' & Hrun & _).
  exists found, w'. split; [exact Hrun|].
  change (download env self text) with
    (try_except
       (do '(api_url, params, cache_key) <- of_res (_parse_input env text);
        do data <- _fetch_aweme_data env self api_url params cache_key;
        after_fetch env cache_key data)
       (fun e => log ERROR (EvDownloadException text e);;
                 log DEBUG EvTraceback;; ret [])) in Hrun.
  destruct (_parse_input env text) as [[[api_url params] key]|e].
  - change (try_except
              (do data <- _fetch_aweme_data env self api_url params key;
               after_fetch env key data)
              (fun e => log ERROR (EvDownloadException text e);;
                        log DEBUG EvTraceback;; ret []) w = (Ok found, w'))
      in Hrun.
    refine (keeps_try_bind_then (fetch_calls env self api_url params key)
              same_api _ _ _ _ _ _ _ w _ w' Hrun).
    + intros w1 w2 w3 H12 H23. unfold fetch_calls, same_api in *.
      destruct (fst (get_data_path env (data_manager self) key w1))
        as [[?|]|]; congruence.
    + apply fetch_api_calls.
    + intros data. apply keeps_after_fetch_api.
    + intros e. frame.
  - injection Hrun as _ <-. reflexivity.
Qed.

End ApiCalls.

(* ========================================================================= *)
(** * The theorems above at concrete inputs *)

Lemma parse_input_numeric_id_witness :
  let env := example_env ∅ decoder_ok in
  _parse_input env (U " 7310567891234567890 ") =
    Ok (id_api_url (settings env),
        JObj [(U "aweme_id", JStr (strip isspace (U " 7310567891234567890 ")))],
        strip isspace (U " 7310567891234567890 ")).
Proof.
  intros env. apply (parse_input_numeric_id env (U " 7310567891234567890 ")).
  apply fullmatch_id_spec. vm_compute. reflexivity.
Defined.

Lemma parse_input_short_link_witness :
  let env := example_env ∅ decoder_ok in
  let text := U " see https://v.douyin.com/AbC123/ now " in
  exists code before after,
    _parse_input env text =
      Ok (url_api_url (settings env),
          JObj [(U "share_url", JStr (strip isspace text))], code) /\
    strip isspace text = before ++ short_link_host ++ code ++ after /\
    code <> [] /\ Forall (fun c => is_alnum c = true) code /\
    match after with [] => True | c :: _ => is_alnum c = false end /\
    (forall b1 b2, before = b1 ++ b2 -> b2 <> [] ->
       match_short_code_here (b2 ++ short_link_host ++ code ++ after) = None).
Proof.
  intros env text. apply (parse_input_short_link env text).
  - intros H. apply fullmatch_id_spec in H. vm_compute in H. discriminate.
  - apply search_short_code_spec. eexists. vm_compute. reflexivity.
Defined.

Lemma safe_filename_is_safe_witness :
  (length (U "a_b_c") <= 60)%nat /\
  Forall (fun c => c ∉ unsafe_chars) (U "a_b_c") /\
  match U "a_b_c" with [] => True | c :: _ => is_dot c = false end.
Proof.
  apply (safe_filename_is_safe (JStr (U " .a/b:c. ")) (U "a_b_c")).
  vm_compute. reflexivity.
Defined.

Lemma failed_download_leaves_no_file_witness :
  let env := example_env ∅ decoder_ok in
  let run := _download_with_retry env dead_url_list image_01 residue_world in
  files (snd run) !! image_01 = None /\
  fst run = Raise (ConnectionError_all_failed (name image_01)).
Proof.
  intros env run.
  destruct (failed_download_leaves_no_file env dead_url_list
              [JStr (U "https://down/2")] image_01 residue_world
              (ConnectionError_all_failed (name image_01)) (snd run))
    as [Habsent _].
  - reflexivity.
  - reflexivity.
  - right. split; [eexists; vm_compute; reflexivity|].
    split; vm_compute; reflexivity.
  - vm_compute. reflexivity.
  - split; [exact Habsent|]. vm_compute. reflexivity.
Defined.

Lemma mirrors_tried_in_order_witness :
  let env := example_env ∅ decoder_ok in
  exists r w',
    _download_with_retry env mixed_mirrors clip empty_world = (r, w') /\
    requests w' =
      [ReqGet (JStr (U "https://cdn/1")); ReqGet (JStr (U "https://down/2"))] /\
    (r = Ok tt <-> true = true).
Proof.
  intros env.
  apply (mirrors_tried_in_order env mixed_mirrors
           [JStr (U "https://down/2"); JInt 7; JStr (U "https://cdn/1");
            JStr (U "https://cdn/3")] clip empty_world);
    vm_compute; reflexivity.
Defined.

Lemma batch_download_one_failure_witness :
  let env := example_env ∅ decoder_ok in
  exists w' e,
    _batch_download env
      ([(a_url_list, clip)] ++ (dead_url_list, clip_2) :: [(a_url_list, clip_3)])
      empty_world
    = (Ok (map snd ([(a_url_list, clip)] ++ [(a_url_list, clip_3)])), w') /\
    In (ERROR, EvBatchItemFailed (name (snd (dead_url_list, clip_2))) e)
       (logs w').
Proof.
  intros env.
  apply (batch_download_one_failure env [(a_url_list, clip)]
           [(a_url_list, clip_3)] (dead_url_list, clip_2) empty_world).
  - apply (bool_decide_unpack _). vm_compute. exact I.
  - repeat constructor.
  - repeat constructor.
  - repeat constructor.
  - vm_compute. reflexivity.
Defined.

Lemma refused_answer_is_raised_witness :
  let env := answering_env refusal in
  let api := id_api_url (settings env) in
  let params := JObj [(U "aweme_id", JStr example_id)] in
  exists message w',
    get refusal (U "message") JNull = Ok message /\
    _fetch_aweme_data env example_downloader api params example_id empty_world
      = (Raise (ValueError_api message), w') /\
    files w' = files empty_world /\
    video_index w' = video_index empty_world /\
    requests w' = ReqApi api params :: requests empty_world /\
    In (ERROR, EvFetchFailed (ValueError_api message)) (logs w').
Proof.
  intros env api params.
  apply (refused_answer_is_raised env example_downloader api params
           example_id empty_world refusal); vm_compute; reflexivity.
Defined.

Lemma empty_payload_is_not_cached_witness :
  let env := answering_env answer_without_payload in
  let api := id_api_url (settings env) in
  let params := JObj [(U "aweme_id", JStr example_id)] in
  exists w' w'',
    _fetch_aweme_data env example_downloader api params example_id empty_world
      = (Ok answer_without_payload, w') /\
    files w' = files empty_world /\
    video_index w' = video_index empty_world /\
    requests w' = ReqApi api params :: requests empty_world /\
    _fetch_aweme_data env example_downloader api params example_id w'
      = (Ok answer_without_payload, w'') /\
    requests w'' =
      ReqApi api params :: ReqApi api params :: requests empty_world.
Proof.
  intros env api params.
  apply (empty_payload_is_not_cached env example_downloader api params
           example_id empty_world answer_without_payload (JObj []));
    vm_compute; reflexivity.
Defined.


Lemma gallery_destinations_distinct_witness :
  let env := example_env ∅ decoder_ok in
  let tasks := [(a_url_list, image_01); (a_url_list, image_02)] in
  exists media_list items author_dir positions,
    let save_dir := div author_dir (U "album") in
    get gallery_of_two (U "images") JNull = Ok media_list /\
    iter media_list = Ok items /\
    (length tasks <= length items)%nat /\
    NoDup (map snd tasks) /\
    StronglySorted lt positions /\
    Forall2 (pair_of_item false save_dir items) positions tasks /\
    (forall j item, items !! j = Some item -> j ∉ positions ->
                    item_without_links false item) /\
    Forall (fun t =>
              exists video j,
                (1 <= j <= length items)%nat /\
                snd t = div save_dir (item_name video j) /\
                name (snd t) = item_name video j /\
                (video = true -> false = true)) tasks.
Proof.
  intros env tasks.
  apply (gallery_destinations_distinct env gallery_of_two false (U "album")
           tasks).
  vm_compute. reflexivity.
Defined.

Lemma single_video_destination_witness :
  let env := example_env ∅ decoder_ok in
  exists urls author_dir safe,
    [(a_url_list, clip)] = [(urls, div author_dir (safe ++ U ".mp4"))] /\
    truthy urls = true /\
    name (div author_dir (safe ++ U ".mp4")) = safe ++ U ".mp4" /\
    (length safe <= 60)%nat /\
    (is_video_file (div author_dir (safe ++ U ".mp4")) = true <-> safe <> []).
Proof.
  intros env.
  apply (single_video_destination env video_with_mirror [(a_url_list, clip)]).
  vm_compute. reflexivity.
Defined.

Lemma run_settles_fresh_job_witness :
  exists s',
    DownloadTask_run example_repr raising_download (U "hello")
      example_task_state = (Ok tt, s') /\
    settled (job s') /\ same_identity (job example_task_state) (job s').
Proof.
  apply (run_settles_fresh_job example_repr raising_download
           silent_transcriber (U "hello")
           (DownloadTask_run example_repr raising_download (U "hello"))
           example_task_state).
  - left. reflexivity.
  - reflexivity.
  - reflexivity.
Defined.

Lemma sweeps_compose_witness :
  let env := example_env ∅ decoder_ok in
  let s1 := snd (cleanup_old_jobs env (seconds 90000) example_registry) in
  _tasks (snd (cleanup_old_jobs env (seconds 100000) s1)) =
    _tasks (snd (cleanup_old_jobs env (seconds 100000) example_registry)) /\
  cleanup_old_jobs env (seconds 90000) s1 = (Ok tt, s1).
Proof.
  intros env.
  apply (sweeps_compose env (seconds 90000) (seconds 100000)
           example_registry).
  vm_compute. intros H. discriminate.
Defined.

Lemma run_never_internal_error_witness :
  let env := example_env ∅ decoder_ok in
  exists s',
    DownloadTask_run example_repr (download env example_downloader)
      (U "hello") example_task_state = (Ok tt, s') /\
    (status (job s') = COMPLETED \/
     exists code detail,
       failed_as code detail (job s') /\ code <> INTERNAL_ERROR).
Proof.
  intros env.
  apply (run_never_internal_error env example_downloader example_repr
           silent_transcriber (U "hello")
           (DownloadTask_run example_repr (download env example_downloader)
              (U "hello"))
           example_task_state).
  left. reflexivity.
Defined.


Lemma transcribe_returns_the_inference_witness :
  let env := example_env ∅ decoder_ok in
  transcribe env example_asr talk talk_world =
    match files talk_world !! talk with
    | None => (Raise (ExternalError (U "FileNotFoundError")), talk_world)
    | Some d =>
        (whisper example_asr (Some d),
         mkWorld (after_saving env (files talk_world) talk
                    (whisper example_asr (Some d)))
                 (video_index talk_world) (requests talk_world)
                 (logs talk_world))
    end.
Proof.
  intros env.
  apply (transcribe_returns_the_inference env example_asr talk talk_world).
  vm_compute. reflexivity.
Defined.

Lemma leftover_audio_is_reused_witness :
  let env := example_env ∅ decoder_ok in
  exists a w1 w2,
    with_suffix clip mp3 = Ok a /\
    transcribe env failing_asr clip video_world =
      (Raise (ffmpeg_error true), w1) /\
    files w1 !! a = Some (FBytes [0%N]) /\
    transcribe env failing_asr clip w1 =
      (whisper failing_asr (Some (FBytes [0%N])), w2) /\
    files w2 !! a = None.
Proof.
  intros env.
  apply (leftover_audio_is_reused env failing_asr clip video_world [0%N]
           true).
  - vm_compute. reflexivity.
  - eexists. vm_compute. reflexivity.
  - intros a Ha. vm_compute in Ha. injection Ha as <-. vm_compute.
    reflexivity.
  - reflexivity.
Defined.

Lemma composite_job_transcribes_audio_witness :
  let env := example_env ∅ decoder_ok in
  exists a s',
    with_suffix clip mp3 = Ok a /\ a <> clip /\
    DownloadAndTranscribeTask_run example_repr found_clip
      (transcribe env example_asr) (U "hello") (task_state_in video_world)
      = (Ok tt, s') /\
    files (world s') !! a = None /\
    status (job s') = COMPLETED /\
    result (job s') = Some (ResultText (U "hello")).
Proof.
  intros env.
  destruct (composite_job_transcribes_audio env example_asr example_repr
              found_clip (U "hello") (task_state_in video_world) [clip]
              video_world clip) as (a & s' & Ha & Hne & Hrun & Hout).
  - reflexivity.
  - vm_compute. reflexivity.
  - eexists. vm_compute. reflexivity.
  - exists a, s'. split; [exact Ha|]. split; [exact Hne|].
    split; [exact Hrun|].
    assert (Haudio : a = clip_audio).
    { vm_compute in Ha. injection Ha as <-. vm_compute. reflexivity. }
    subst a. exact Hout.
Defined.
